(** * migrator-db: the migration execution engine, embedded and verified

    Sources embedded here:
    - [migrate/loader.go]   : [Load]
    - [migrate/state.go]    : [ensure], [applied], [last]
    - the locker            : [NewLocker], [PostgresLocker], [MySQLLocker],
                              [SQLiteLocker]
    - the runner            : [Up], [Down], [DownN]

    Go's [int] is the 64-bit signed integer; it is carried by [Z] and the
    only place where the width matters ([strconv.Atoi]) writes it out.
    The file system is what [os.ReadDir] and [os.ReadFile] answer; the
    database is a store (the user's part and the control table) on which
    the engine runs the scripts; an error is a value of [error]. *)

From Stdlib Require Import ZArith Ascii String List.
From stdpp Require Import base option list gmap sorting.

Local Open Scope string_scope.
Local Open Scope Z_scope.
Local Open Scope list_scope.

(** ** Byte strings: the functions of Go's [strings] package used by the loader *)

Module GoStrings.

(** [strings.HasPrefix] *)
Fixpoint HasPrefix (s p : string) : bool :=
  match p, s with
  | EmptyString, _ => true
  | String c p', String d s' => if Ascii.eqb c d then HasPrefix s' p' else false
  | String _ _, EmptyString => false
  end.

(** [strings.Contains]: some suffix of [s] starts with [sub]. *)
Fixpoint Contains (s sub : string) : bool :=
  HasPrefix s sub ||
  match s with
  | EmptyString => false
  | String _ s' => Contains s' sub
  end.

(** [strings.HasSuffix] *)
Definition HasSuffix (s suf : string) : bool :=
  let n := String.length s in
  let k := String.length suf in
  (k <=? n)%nat && String.eqb (substring (n - k) k s) suf.

(** [strings.TrimSuffix] *)
Definition TrimSuffix (s suf : string) : string :=
  if HasSuffix s suf
  then substring 0 (String.length s - String.length suf) s
  else s.

(** [strings.Split(s, sep)] for a one-byte separator: the pieces between
    the separators, always at least one piece. *)
Fixpoint Split (s : string) (sep : ascii) : list string :=
  match s with
  | EmptyString => [EmptyString]
  | String c s' =>
      if Ascii.eqb c sep then EmptyString :: Split s' sep
      else match Split s' sep with
           | [] => [String c EmptyString]
           | p :: ps => String c p :: ps
           end
  end.

(** [strings.Join] *)
Definition Join (l : list string) (sep : string) : string := String.concat sep l.

End GoStrings.

(** ** [strconv.Atoi] on a 64-bit platform *)

Module Strconv.

Inductive NumError := ErrSyntax | ErrRange.

Definition maxUint64 : Z := 18446744073709551615.
Definition maxInt64 : Z := 9223372036854775807.
Definition minInt64 : Z := -9223372036854775808.

Definition is_digit (c : ascii) : bool :=
  let n := Z.of_nat (nat_of_ascii c) in (48 <=? n) && (n <=? 57).

Definition digit_val (c : ascii) : Z := Z.of_nat (nat_of_ascii c) - 48.

(** The digit loop of [ParseUint(s, 10, 64)], from the accumulator [n]:
    a byte that is no decimal digit is a syntax error with value 0; an
    overflow of the 64-bit accumulator stops the loop at once with the
    largest value and a range error. *)
Fixpoint parse_digits (s : string) (n : Z) : Z * option NumError :=
  match s with
  | EmptyString => (n, None)
  | String c s' =>
      if negb (is_digit c) then (0, Some ErrSyntax)
      else if maxUint64 / 10 + 1 <=? n then (maxUint64, Some ErrRange)
      else
        let n10 := n * 10 in
        let n1 := (n10 + digit_val c) mod 2 ^ 64 in
        if (n1 <? n10) || (maxUint64 <? n1) then (maxUint64, Some ErrRange)
        else parse_digits s' n1
  end.

Definition ParseUint (s : string) : Z * option NumError :=
  match s with
  | EmptyString => (0, Some ErrSyntax)
  | _ => parse_digits s 0
  end.

(** [ParseInt(s, 10, 0)] *)
Definition ParseInt (s : string) : Z * option NumError :=
  match s with
  | EmptyString => (0, Some ErrSyntax)
  | String c s' =>
      let neg := Ascii.eqb c "-"%char in
      let body := if Ascii.eqb c "+"%char || neg then s' else s in
      let '(un, err) := ParseUint body in
      match err with
      | Some ErrSyntax => (0, err)
      | _ =>
          let cutoff := 2 ^ 63 in
          if negb neg && (cutoff <=? un) then (cutoff - 1, Some ErrRange)
          else if neg && (cutoff <? un) then (- cutoff, Some ErrRange)
          else (if neg then - un else un, None)
      end
  end.

(** The fast path of [Atoi], taken for 1 to 18 bytes: no overflow check,
    the value cannot leave the 64-bit range. *)
Fixpoint fast_digits (s : string) (n : Z) : Z * option NumError :=
  match s with
  | EmptyString => (n, None)
  | String c s' =>
      if negb (is_digit c) then (0, Some ErrSyntax)
      else fast_digits s' (n * 10 + digit_val c)
  end.

Definition Atoi (s : string) : Z * option NumError :=
  let sLen := String.length s in
  if (0 <? sLen)%nat && (sLen <? 19)%nat then
    match s with
    | EmptyString => (0, Some ErrSyntax)
    | String c s' =>
        let signed := Ascii.eqb c "-"%char || Ascii.eqb c "+"%char in
        let body := if signed then s' else s in
        if signed && (String.length body <? 1)%nat then (0, Some ErrSyntax)
        else
          let '(n, err) := fast_digits body 0 in
          match err with
          | Some _ => (0, err)
          | None => (if Ascii.eqb c "-"%char then - n else n, None)
          end
    end
  else ParseInt s.

(** The bound of the 64-bit integers nearest to the number a token
    writes: the lowest when the token is negative, the highest otherwise. *)
Definition nearest_bound (token : string) : Z :=
  match token with
  | String "-" _ => minInt64
  | _ => maxInt64
  end.

End Strconv.

(** ** The data model *)

Record Migration := mkMigration {
  Version : Z;
  Name : string;
  UpSQL : string;
  DownSQL : string
}.

(** A directory entry as [os.ReadDir] lists it, with what [os.ReadFile]
    gives for it: [None] when the file cannot be read. *)
Record DirEntry := mkEntry {
  fname : string;
  fdata : option string
}.

(** What [os.ReadDir] returns: [None] is its error (unreadable directory). *)
Definition Dir := option (list DirEntry).

(** ** [migrate/loader.go] *)

Module Loader.
Import GoStrings.

Definition is_sql (name : string) : bool := HasSuffix name ".sql".

Definition parts_of (name : string) : list string := Split name "_"%char.

(** [version, _ := strconv.Atoi(parts[0])]: the error is dropped. *)
Definition file_version (name : string) : Z :=
  fst (Strconv.Atoi (hd EmptyString (parts_of name))).

Definition migrationName (nameParts : list string) : string :=
  match nameParts with
  | [] => EmptyString
  | _ => TrimSuffix (TrimSuffix (Join nameParts "_") ".up.sql") ".down.sql"
  end.

Definition set_half (name sql : string) (entry : Migration) : Migration :=
  if Contains name ".up." then
    mkMigration (Version entry) (Name entry) sql (DownSQL entry)
  else if Contains name ".down." then
    mkMigration (Version entry) (Name entry) (UpSQL entry) sql
  else entry.

(** One iteration of the loop over the directory entries; [m] is the
    map [map[int]*Migration], the entry reached through the pointer is
    updated in place. *)
Definition load_step (m : gmap Z Migration) (f : DirEntry) : gmap Z Migration :=
  let name := fname f in
  if negb (is_sql name) then m
  else
    let parts := parts_of name in
    let version := file_version name in
    match fdata f with
    | None => m
    | Some sql =>
        let entry :=
          match m !! version with
          | Some e => e
          | None => mkMigration version (migrationName (tl parts)) EmptyString EmptyString
          end in
        <[version := set_half name sql entry]> m
    end.

Definition load_map (files : list DirEntry) : gmap Z Migration :=
  fold_left load_step files ∅.

Definition version_le (a b : Migration) : Prop := Version a ≤ Version b.

#[global] Instance version_le_dec : RelDecision version_le.
Proof. intros a b. unfold version_le. apply _. Defined.

(** The values of the map in some order, then [sort.Slice] by version.
    The keys of a map are distinct, so the sorted sequence does not depend
    on the iteration order nor on the sorting algorithm. *)
Definition sort_by_version (l : list Migration) : list Migration :=
  merge_sort version_le l.

Definition load_files (files : list DirEntry) : list Migration :=
  sort_by_version (snd <$> map_to_list (load_map files)).

Definition Load (dir : Dir) : option (list Migration) :=
  match dir with
  | None => None
  | Some files => Some (load_files files)
  end.

End Loader.

Import Loader.


(** ** Errors

    One constructor per error the code builds; a wrapped error
    ([fmt.Errorf("...: %w", err)]) carries its cause. *)

Inductive error :=
| ErrIO                                   (* what os.ReadDir returned *)
| ErrDB                                   (* what the database driver returned *)
| ErrNoRows                               (* sql.ErrNoRows, from db.Get *)
| ErrCtx                                  (* ctx.Err(): deadline exceeded or cancelled *)
| ErrUnsupportedDriver (driver : string)  (* "driver no soportado para locking: %s" *)
| ErrAlreadyLocked                        (* "ya está bloqueado" *)
| ErrConn (cause : error)                 (* "error obteniendo conexión: %w" *)
| ErrLockTable (cause : error)            (* "error creando tabla de lock: %w" *)
| ErrLockQuery (cause : error)            (* "error adquiriendo lock: %w" *)
| ErrLockBusy                             (* "no se pudo adquirir el lock, otra migración está en progreso" *)
| ErrLockUpdate (cause : error)           (* "no se pudo adquirir el lock: %w" *)
| ErrLockTimeout                          (* "timeout esperando lock, otra migración está en progreso" *)
| ErrCreateLocker (cause : error)         (* "error creando locker: %w" *)
| ErrAcquire (cause : error)              (* "no se pudo adquirir lock: %w" *)
| ErrUpFailed (v : Z) (cause : error)     (* "up %d failed: %w" *)
| ErrRegister (v : Z) (cause : error)     (* "error registrando migración %d: %w" *)
| ErrNoMigrationToRollback                (* "no migration to rollback" *)
| ErrNoDownFound                          (* "no down migration found" *)
| ErrDownExec (cause : error)             (* "error ejecutando down migration: %w" *)
| ErrDeleteRow (cause : error)            (* "error eliminando registro de migración: %w" *)
| ErrSteps                                (* "steps debe ser mayor a 0" *)
| ErrLoadWrap (cause : error)             (* "error cargando migraciones: %w" *)
| ErrAppliedWrap (cause : error)          (* "error obteniendo migraciones aplicadas: %w" *)
| ErrNothingToRevert                      (* "no hay migraciones para revertir" *)
| ErrInsufficient (have : nat) (steps : Z) (* "solo hay %d migraci(ones) aplicada(s), no se pueden revertir %d" *)
| ErrFileNotFound (v : Z)                 (* "archivo de migración %d no encontrado" *)
| ErrNoDownScript (v : Z)                 (* "migración %d no tiene script down" *)
| ErrDownExecN (v : Z) (cause : error)    (* "error ejecutando down migration %d: %w" *)
| ErrDeleteRowN (v : Z) (cause : error).  (* "error eliminando registro de migración %d: %w" *)

(** [errors.Is(err, target)] for the I/O error: the chain of [%w] causes
    is followed. *)
Fixpoint is_io (e : error) : bool :=
  match e with
  | ErrIO => true
  | ErrConn c | ErrLockTable c | ErrLockQuery c | ErrLockUpdate c | ErrCreateLocker c
  | ErrAcquire c | ErrUpFailed _ c | ErrRegister _ c | ErrDownExec c
  | ErrDeleteRow c | ErrLoadWrap c | ErrAppliedWrap c | ErrDownExecN _ c
  | ErrDeleteRowN _ c => is_io c
  | _ => false
  end.

(** The failure kinds of the specification, and the kind each error of the
    runner falls under. *)
Inductive FailureKind :=
| LockUnavailable | LockTimeout | ScriptExecutionFailed | InvalidArgument
| InsufficientAppliedMigrations | NothingToRevert | MissingRevertScript
| IOFailure | OtherFailure.

Definition kind_of (e : error) : FailureKind :=
  match e with
  | ErrIO | ErrLoadWrap ErrIO => IOFailure
  | ErrAcquire ErrLockBusy => LockUnavailable
  | ErrAcquire ErrLockTimeout | ErrAcquire ErrCtx
  | ErrAcquire (ErrConn ErrCtx) | ErrAcquire (ErrLockTable ErrCtx)
  | ErrAcquire (ErrLockQuery ErrCtx) => LockTimeout
  | ErrUpFailed _ _ | ErrDownExec _ | ErrDownExecN _ _ => ScriptExecutionFailed
  | ErrSteps => InvalidArgument
  | ErrInsufficient _ _ => InsufficientAppliedMigrations
  | ErrNoMigrationToRollback | ErrNothingToRevert => NothingToRevert
  | ErrNoDownFound | ErrFileNotFound _ | ErrNoDownScript _ => MissingRevertScript
  | _ => OtherFailure
  end.


(** ** The database

    [U] is whatever the engine keeps besides the control table: the user's
    schema objects and rows.  [ledger] is the control table
    [schema_migrations]: [None] while the table does not exist, otherwise
    its set of versions ([version] is the primary key). *)

Record Store (U : Type) := mkStore {
  user : U;
  ledger : option (gset Z)
}.
Arguments mkStore {U} _ _.
Arguments user {U} _.
Arguments ledger {U} _.

(** [lock_table] is SQLite's table [migration_lock]: [None] while it does
    not exist, otherwise whether the sentinel row [id = 1] is in it. *)
Record DB (U : Type) := mkDB {
  driver : string;
  store : Store U;
  lock_table : option bool
}.
Arguments mkDB {U} _ _ _.
Arguments driver {U} _.
Arguments store {U} _.
Arguments lock_table {U} _.

Definition with_store {U} (db : DB U) (s : Store U) : DB U :=
  mkDB (driver db) s (lock_table db).

Definition with_lock_table {U} (db : DB U) (t : option bool) : DB U :=
  mkDB (driver db) (store db) t.

(** What the runner does to the database inside its own transactions
    ([db.Beginx] ... [tx.Commit] / [tx.Rollback]), in order. *)
Inductive TxEvent :=
| TxBegin
| TxExec (sql : string)
| TxInsert (v : Z)
| TxDelete (v : Z)
| TxCommit
| TxRollback.

(** What a call leaves behind: the state [after] it, the [journal] of its
    transactions, and the error it returns ([None] for [nil]). *)
Record Outcome (S : Type) := mkOutcome {
  after : S;
  journal : list TxEvent;
  result : option error
}.
Arguments mkOutcome {S} _ _ _.
Arguments after {S} _.
Arguments journal {S} _.
Arguments result {S} _.

(** ** The engine

    [exec] is the engine running a script inside a transaction: the store
    the script leaves behind, with the effects of the statements that ran
    before a failing one, and whether every statement succeeded.  [writes]
    says whether the script, run on that store, comes to a statement that
    writes: with SQLite such a statement needs the write lock of the
    database file. *)
Record Engine (U : Type) := mkEngine {
  exec : string → Store U → Store U * bool;
  writes : string → Store U → bool
}.
Arguments mkEngine {U} _ _.
Arguments exec {U} _ _ _.
Arguments writes {U} _ _ _.
Coercion exec : Engine >-> Funclass.

(** ** [migrate/state.go] *)

Module State.
Section State.
Context {U : Type}.

(** The store once the control table exists. *)
Definition ensured (s : Store U) : Store U :=
  match ledger s with
  | Some _ => s
  | None => mkStore (user s) (Some ∅)
  end.

(** [ensure]: [CREATE TABLE IF NOT EXISTS schema_migrations (...)], with
    the error of [db.Exec].  The statement writes only when the table is
    missing.  [held] says that another connection holds the write lock of
    the database for longer than a statement waits for it (SQLite): the
    write then fails with "database is locked". *)
Definition ensure (held : bool) (s : Store U) : Store U * option error :=
  match ledger s with
  | Some _ => (s, None)
  | None => if held then (s, Some ErrDB) else (mkStore (user s) (Some ∅), None)
  end.

Definition rows_sorted (rows : gset Z) : list Z := merge_sort Z.le (elements rows).

(** [SELECT version FROM schema_migrations ORDER BY version] *)
Definition applied (s : Store U) : list Z + error :=
  match ledger s with
  | Some rows => inl (rows_sorted rows)
  | None => inr ErrDB
  end.

(** [SELECT version FROM schema_migrations ORDER BY version DESC LIMIT 1];
    [db.Get] gives [sql.ErrNoRows] on an empty result. *)
Definition last (s : Store U) : Z + error :=
  match ledger s with
  | Some rows =>
      match reverse (rows_sorted rows) with
      | v :: _ => inl v
      | [] => inr ErrNoRows
      end
  | None => inr ErrDB
  end.

(** [INSERT INTO schema_migrations(version) VALUES(?)]: fails without the
    table and on a duplicate primary key. *)
Definition insert_version (v : Z) (s : Store U) : option (Store U) :=
  match ledger s with
  | Some rows =>
      if decide (v ∈ rows) then None
      else Some (mkStore (user s) (Some ({[v]} ∪ rows)))
  | None => None
  end.

(** [DELETE FROM schema_migrations WHERE version = ?]: fails without the
    table only. *)
Definition delete_version (v : Z) (s : Store U) : option (Store U) :=
  match ledger s with
  | Some rows => Some (mkStore (user s) (Some (rows ∖ {[v]})))
  | None => None
  end.

(** What a reader of the ledger sees ([GetAppliedMigrations] of the test
    helper): the versions in order, none while the table is missing. *)
Definition applied_versions (s : Store U) : list Z :=
  match applied s with
  | inl vs => vs
  | inr _ => []
  end.

End State.
End State.

Import State.

(** ** The locker

    Time is counted in seconds.  A context is the number of seconds left
    before its deadline ([0]: already done).  [rival] is the number of
    seconds for which another session keeps the coordination lock from the
    moment [Lock] is called ([0]: the lock is free).  With SQLite the
    coordination lock is a transaction that has written, so whoever holds it
    holds the write lock of the database file: every write of another
    connection waits for it. *)

Module Locking.

Inductive LockerKind := PostgresLocker | MySQLLocker | SQLiteLocker.

(** The struct fields that matter: which implementation, and [locked]. *)
Record Locker := mkLocker {
  kind : LockerKind;
  locked : bool
}.

Section Locking.
Context {U : Type}.

Definition NewLocker (db : DB U) : Locker + error :=
  if String.eqb (driver db) "postgres" then inl (mkLocker PostgresLocker false)
  else if String.eqb (driver db) "mysql" then inl (mkLocker MySQLLocker false)
  else if String.eqb (driver db) "sqlite3" then inl (mkLocker SQLiteLocker false)
  else inr (ErrUnsupportedDriver (driver db)).

(** [PostgresLocker.Lock]: a dedicated connection, then ONE
    [SELECT pg_try_advisory_lock($1)]; the answer [false] is returned as
    an error at once. *)
Definition pg_Lock (l : Locker) (ctx rival : nat) (db : DB U)
  : Locker * DB U * option error :=
  if locked l then (l, db, Some ErrAlreadyLocked)
  else if (ctx =? 0)%nat then (l, db, Some (ErrConn ErrCtx))
  else
    let acquired := (rival =? 0)%nat in
    if negb acquired then (l, db, Some ErrLockBusy)
    else (mkLocker (kind l) true, db, None).

(** [MySQLLocker.Lock]: [SELECT GET_LOCK(?, 10)] waits in the server for
    up to 10 seconds; the query is abandoned when the context ends. *)
Definition mysql_Lock (l : Locker) (ctx rival : nat) (db : DB U)
  : Locker * DB U * option error :=
  if locked l then (l, db, Some ErrAlreadyLocked)
  else if (ctx =? 0)%nat then (l, db, Some (ErrConn ErrCtx))
  else
    let wait := Nat.min rival 10 in
    if (ctx <=? wait)%nat then (l, db, Some (ErrLockQuery ErrCtx))
    else if (10 <? rival)%nat then (l, db, Some ErrLockBusy)
    else (mkLocker (kind l) true, db, None).

(** How long a statement of the driver go-sqlite3 waits for the write
    lock before it gives up with "database is locked": the driver's
    default, which the code does not change. *)
Definition busy_timeout : nat := 5.

(** How a write ends that finds the write lock taken for [rival] seconds:
    it gets through when the lock is let go before the statement gives up
    and before the context ends; else the context ends it or it gives up,
    whichever comes first. *)
Inductive Wait := Through | GaveUp | Cancelled.

Definition sqlite_write (ctx rival : nat) : Wait :=
  if (rival <? busy_timeout)%nat && (rival <? ctx)%nat then Through
  else if (ctx <=? busy_timeout)%nat then Cancelled
  else GaveUp.

(** The cause a statement reports when it does not get through. *)
Definition wait_error (w : Wait) : error :=
  match w with
  | Cancelled => ErrCtx
  | _ => ErrDB
  end.

(** [SQLiteLocker.Lock]: [CREATE TABLE IF NOT EXISTS migration_lock] writes
    when the table is missing; [BeginTx], then [INSERT OR IGNORE] writes
    and so takes the write lock, waiting for the rival's; it reports no
    row when the sentinel row is there already (left over), and the
    [UPDATE] that follows runs in the transaction that has the write lock
    by then, so it returns at once and neither the 10 seconds nor the
    context of the [select] come into play.  The transaction stays open as
    the lock.  A statement that waited for the rival leaves none to the
    next. *)
Definition sqlite_Lock (l : Locker) (ctx rival : nat) (db : DB U)
  : Locker * DB U * option error :=
  if locked l then (l, db, Some ErrAlreadyLocked)
  else if (ctx =? 0)%nat then (l, db, Some (ErrLockTable ErrCtx))
  else
    let missing := negb (bool_decide (is_Some (lock_table db))) in
    let created := if missing then sqlite_write ctx rival else Through in
    match created with
    | GaveUp | Cancelled => (l, db, Some (ErrLockTable (wait_error created)))
    | Through =>
        let row := default false (lock_table db) in
        let db1 := with_lock_table db (Some row) in
        let rival1 := if missing then 0%nat else rival in
        let ctx1 := if missing then (ctx - rival)%nat else ctx in
        let inserted := sqlite_write ctx1 rival1 in
        match inserted with
        | GaveUp | Cancelled => (l, db1, Some (ErrLockQuery (wait_error inserted)))
        | Through => (mkLocker (kind l) true, with_lock_table db (Some true), None)
        end
    end.

(** The method set of the interface [Locker], by dynamic type. *)
Definition Lock (l : Locker) (ctx rival : nat) (db : DB U)
  : Locker * DB U * option error :=
  match kind l with
  | PostgresLocker => pg_Lock l ctx rival db
  | MySQLLocker => mysql_Lock l ctx rival db
  | SQLiteLocker => sqlite_Lock l ctx rival db
  end.

(** [Unlock]: nothing when not locked.  Postgres and MySQL release the
    server-side lock; SQLite commits the lock transaction and deletes the
    sentinel row. *)
Definition Unlock (l : Locker) (db : DB U) : Locker * DB U :=
  if negb (locked l) then (l, db)
  else
    match kind l with
    | PostgresLocker | MySQLLocker => (mkLocker (kind l) false, db)
    | SQLiteLocker => (mkLocker (kind l) false, with_lock_table db (Some false))
    end.

(** Whether the locker, as a connection of its own, holds the write lock
    of the database: the open transaction of a locked [SQLiteLocker]. *)
Definition holds_write_lock (l : Locker) : bool :=
  match kind l with
  | SQLiteLocker => locked l
  | _ => false
  end.

(** Whether a write made outside any context is refused while a rival
    holds the coordination lock: with SQLite, when the rival keeps it for
    as long as the statement waits. *)
Definition write_refused (db : DB U) (rival : nat) : bool :=
  String.eqb (driver db) "sqlite3" && (busy_timeout <=? rival)%nat.

End Locking.
End Locking.

Import Locking.

(** ** Transactions

    A transaction works on its own copy of the store; [Commit] installs the
    copy, [Rollback] drops it. *)

Record Tx (U : Type) := mkTx {
  tx_base : Store U;
  tx_work : Store U
}.
Arguments mkTx {U} _ _.
Arguments tx_base {U} _.
Arguments tx_work {U} _.

(** ** The runner

    The transactions, [ensure], [applied] and [last] work on the store of
    the database; the locker works on the rest of it.  [held] says that
    another connection holds the write lock of the database for longer than
    a statement waits for it: every write then fails with "database is
    locked" ([ErrDB]), reads go through.  Apart from that the connection
    does not fail: [db.Beginx] and [tx.Commit] succeed, and the statements
    on the control table fail only as [insert_version] and [delete_version]
    say.  What the runner prints is left out. *)

Module Runner.
Section Runner.
Context {U : Type}.

Variable exec_sql : Engine U.

Definition Beginx (s : Store U) : Tx U := mkTx s s.

(** [tx.Exec(script)] *)
Definition tx_exec (held : bool) (sql : string) (tx : Tx U) : Tx U * bool :=
  if held && writes exec_sql sql (tx_work tx) then (tx, false)
  else let '(w, ok) := exec_sql sql (tx_work tx) in (mkTx (tx_base tx) w, ok).

(** [tx.Exec] of the [INSERT] and of the [DELETE] on the control table. *)
Definition tx_insert (held : bool) (v : Z) (tx : Tx U) : option (Tx U) :=
  if held then None else mkTx (tx_base tx) <$> insert_version v (tx_work tx).

Definition tx_delete (held : bool) (v : Z) (tx : Tx U) : option (Tx U) :=
  if held then None else mkTx (tx_base tx) <$> delete_version v (tx_work tx).

Definition Rollback (tx : Tx U) : Store U := tx_base tx.
Definition Commit (tx : Tx U) : Store U := tx_work tx.

Definition fail {S} (st : S) (e : error) : Outcome S := mkOutcome st [] (Some e).
Definition finish {S} (st : S) : Outcome S := mkOutcome st [] None.

(** [first] then, unless it failed, [next] on the state it left. *)
Definition and_then {S} (first : Outcome S) (next : S → Outcome S) : Outcome S :=
  match result first with
  | Some _ => first
  | None =>
      let o := next (after first) in
      mkOutcome (after o) (journal first ++ journal o) (result o)
  end.

(** The lock around a mutating run; [defer locker.Unlock()] runs on every
    way out of [body].  A dry run takes no lock.  The body is told whether
    the write lock is held against it: in a real run by the transaction of
    its own locker, which is a connection of its own, in a dry run by a
    rival that keeps it long enough. *)
Definition locked_run (dryRun : bool) (rival : nat) (db : DB U)
    (body : bool → Store U → Outcome (Store U)) : Outcome (DB U) :=
  if dryRun then
    let o := body (write_refused db rival) (store db) in
    mkOutcome (with_store db (after o)) (journal o) (result o)
  else
    match NewLocker db with
    | inr e => fail db (ErrCreateLocker e)
    | inl locker =>
        match Lock locker 30 rival db with
        | (_, db1, Some e) => fail db1 (ErrAcquire e)
        | (locker1, db1, None) =>
            let o := body (holds_write_lock locker1) (store db1) in
            mkOutcome (snd (Unlock locker1 (with_store db1 (after o))))
                      (journal o) (result o)
        end
    end.

(** The transaction of one pending migration in [Up]. *)
Definition apply_migration (held : bool) (m : Migration) (s : Store U)
  : Outcome (Store U) :=
  let tx := Beginx s in
  let '(tx1, ok) := tx_exec held (UpSQL m) tx in
  if negb ok then
    mkOutcome (Rollback tx1) [TxBegin; TxExec (UpSQL m); TxRollback]
              (Some (ErrUpFailed (Version m) ErrDB))
  else
    match tx_insert held (Version m) tx1 with
    | None =>
        mkOutcome (Rollback tx1)
                  [TxBegin; TxExec (UpSQL m); TxInsert (Version m); TxRollback]
                  (Some (ErrRegister (Version m) ErrDB))
    | Some tx2 =>
        mkOutcome (Commit tx2)
                  [TxBegin; TxExec (UpSQL m); TxInsert (Version m); TxCommit]
                  None
    end.

(** The loop of [Up] over the loaded migrations; [done] is the set of
    versions read from the ledger before the loop. *)
Fixpoint up_loop (held dryRun : bool) (done : gset Z) (migrations : list Migration)
    (s : Store U) : Outcome (Store U) :=
  match migrations with
  | [] => finish s
  | m :: rest =>
      if decide (Version m ∈ done) then up_loop held dryRun done rest s
      else if dryRun then up_loop held dryRun done rest s
      else and_then (apply_migration held m s) (up_loop held dryRun done rest)
  end.

Definition up_body (held : bool) (dir : Dir) (dryRun : bool) (s : Store U)
  : Outcome (Store U) :=
  match ensure held s with
  | (s, Some e) => fail s e
  | (s, None) =>
      match Load dir with
      | None => fail s ErrIO
      | Some migrations =>
          match applied s with
          | inr e => fail s e
          | inl appliedVersions =>
              up_loop held dryRun (list_to_set appliedVersions) migrations s
          end
      end
  end.

Definition Up (rival : nat) (db : DB U) (dir : Dir) (dryRun : bool) : Outcome (DB U) :=
  locked_run dryRun rival db (λ held, up_body held dir dryRun).

(** The transaction that reverts one migration, in [Down] and [DownN]. *)
Definition revert_migration (held : bool) (exec_err delete_err : error → error)
    (target : Migration) (s : Store U) : Outcome (Store U) :=
  let tx := Beginx s in
  let '(tx1, ok) := tx_exec held (DownSQL target) tx in
  if negb ok then
    mkOutcome (Rollback tx1) [TxBegin; TxExec (DownSQL target); TxRollback]
              (Some (exec_err ErrDB))
  else
    match tx_delete held (Version target) tx1 with
    | None =>
        mkOutcome (Rollback tx1)
                  [TxBegin; TxExec (DownSQL target); TxDelete (Version target); TxRollback]
                  (Some (delete_err ErrDB))
    | Some tx2 =>
        mkOutcome (Commit tx2)
                  [TxBegin; TxExec (DownSQL target); TxDelete (Version target); TxCommit]
                  None
    end.

(** [for _, m := range migrations { if m.Version == v { target = &m; break } }] *)
Definition find_target (v : Z) (migrations : list Migration) : option Migration :=
  List.find (λ m, Version m =? v) migrations.

Definition down_body (held : bool) (dir : Dir) (dryRun : bool) (s : Store U)
  : Outcome (Store U) :=
  match Load dir with
  | None => fail s ErrNoMigrationToRollback
  | Some migrations =>
      match last s with
      | inr _ => fail s ErrNoMigrationToRollback
      | inl v =>
          match find_target v migrations with
          | None => fail s ErrNoDownFound
          | Some target =>
              if String.eqb (DownSQL target) "" then fail s ErrNoDownFound
              else if dryRun then finish s
              else revert_migration held ErrDownExec ErrDeleteRow target s
          end
      end
  end.

Definition Down (rival : nat) (db : DB U) (dir : Dir) (dryRun : bool) : Outcome (DB U) :=
  locked_run dryRun rival db (λ held, down_body held dir dryRun).

(** [migrationMap]: a later migration of the same version replaces an
    earlier one. *)
Definition migration_map (migrations : list Migration) : gmap Z Migration :=
  fold_left (λ mp m, <[Version m := m]> mp) migrations ∅.

(** The loop of [DownN]; [versions] is [toRevert] read from its end. *)
Fixpoint downN_loop (held dryRun : bool) (migrationMap : gmap Z Migration)
    (versions : list Z) (s : Store U) : Outcome (Store U) :=
  match versions with
  | [] => finish s
  | version :: rest =>
      match migrationMap !! version with
      | None => fail s (ErrFileNotFound version)
      | Some target =>
          if String.eqb (DownSQL target) "" then fail s (ErrNoDownScript version)
          else if dryRun then downN_loop held dryRun migrationMap rest s
          else and_then
                 (revert_migration held (ErrDownExecN (Version target))
                                   (ErrDeleteRowN (Version target)) target s)
                 (downN_loop held dryRun migrationMap rest)
      end
  end.

(** [appliedVersions[len(appliedVersions)-steps:]] *)
Definition to_revert (appliedVersions : list Z) (steps : Z) : list Z :=
  drop (length appliedVersions - Z.to_nat steps) appliedVersions.

Definition downN_body (held : bool) (dir : Dir) (steps : Z) (dryRun : bool)
    (s : Store U) : Outcome (Store U) :=
  match Load dir with
  | None => fail s (ErrLoadWrap ErrIO)
  | Some migrations =>
      match applied s with
      | inr e => fail s (ErrAppliedWrap e)
      | inl appliedVersions =>
          if (length appliedVersions =? 0)%nat then fail s ErrNothingToRevert
          else if Z.of_nat (length appliedVersions) <? steps then
            fail s (ErrInsufficient (length appliedVersions) steps)
          else
            downN_loop held dryRun (migration_map migrations)
                       (reverse (to_revert appliedVersions steps)) s
      end
  end.

Definition DownN (rival : nat) (db : DB U) (dir : Dir) (steps : Z) (dryRun : bool)
  : Outcome (DB U) :=
  if steps <? 1 then fail db ErrSteps
  else locked_run dryRun rival db (λ held, downN_body held dir steps dryRun).

End Runner.
End Runner.

Import Runner.

(** ** A small engine, for running the runner on concrete inputs

    The user part of the store is the list of the names of the schema
    objects.  A script is a sequence of statements separated by blanks:
    [+x] creates the object [x] and fails when it exists, [-x] drops it and
    fails when it does not exist, [?x] reads [x], changes nothing and fails
    when it does not exist; anything else is invalid SQL.  The statements
    before a failing one keep their effect in the transaction.  [+x] and
    [-x] are the statements that write. *)

Module Toy.

Definition has (x : string) (objs : list string) : bool :=
  existsb (String.eqb x) objs.

Definition statement (st : string) (objs : list string) : option (list string) :=
  match st with
  | String "+"%char x => if has x objs then None else Some (objs ++ [x])%list
  | String "-"%char x =>
      if has x objs then Some (List.filter (λ y, negb (String.eqb x y)) objs) else None
  | String "?"%char x => if has x objs then Some objs else None
  | _ => None
  end.

Definition is_write (st : string) : bool :=
  match st with
  | String "+"%char _ | String "-"%char _ => true
  | _ => false
  end.

Fixpoint run (sts : list string) (s : Store (list string)) : Store (list string) * bool :=
  match sts with
  | [] => (s, true)
  | st :: rest =>
      match statement st (user s) with
      | None => (s, false)
      | Some objs => run rest (mkStore objs (ledger s))
      end
  end.

(** Whether the statements, run in turn, come to one that writes. *)
Fixpoint reaches_write (sts : list string) (objs : list string) : bool :=
  match sts with
  | [] => false
  | st :: rest =>
      if is_write st then true
      else match statement st objs with
           | None => false
           | Some objs' => reaches_write rest objs'
           end
  end.

Definition exec : Engine (list string) :=
  mkEngine (λ sql s, run (GoStrings.Split sql " "%char) s)
           (λ sql s, reaches_write (GoStrings.Split sql " "%char) (user s)).

(** The directory of the test helper [SetupTestMigrations]. *)
Definition dir123 : Dir :=
  Some [mkEntry "1_create_users.down.sql" (Some "-users");
        mkEntry "1_create_users.up.sql" (Some "+users");
        mkEntry "2_create_posts.down.sql" (Some "-posts");
        mkEntry "2_create_posts.up.sql" (Some "+posts");
        mkEntry "3_add_index.down.sql" (Some "-idx_posts_user_id");
        mkEntry "3_add_index.up.sql" (Some "+idx_posts_user_id")].

(** A database nothing has touched yet. *)
Definition fresh (driver : string) : DB (list string) :=
  mkDB driver (mkStore [] None) None.

(** The directory of the test [TestTransactionalRollback]: two valid
    statements, then an invalid one. *)
Definition dir_failing : Dir :=
  Some [mkEntry "1_test.down.sql" (Some "-test1 -test2");
        mkEntry "1_test.up.sql" (Some "+test1 +test2 !")].

(** The directory of the test [TestUpWithError]: the three migrations and
    an invalid fourth one. *)
Definition dir_invalid_last : Dir :=
  Some [mkEntry "1_create_users.down.sql" (Some "-users");
        mkEntry "1_create_users.up.sql" (Some "+users");
        mkEntry "2_create_posts.down.sql" (Some "-posts");
        mkEntry "2_create_posts.up.sql" (Some "+posts");
        mkEntry "3_add_index.down.sql" (Some "-idx_posts_user_id");
        mkEntry "3_add_index.up.sql" (Some "+idx_posts_user_id");
        mkEntry "99_invalid.down.sql" (Some "-nothing");
        mkEntry "99_invalid.up.sql" (Some "!")].

(** Version 2 has both halves, version 1 has no revert script. *)
Definition dir_no_revert : Dir :=
  Some [mkEntry "1_a.up.sql" (Some "+a");
        mkEntry "2_b.down.sql" (Some "-b");
        mkEntry "2_b.up.sql" (Some "+b")].

(** Databases with some versions applied. *)
Definition db_12 : DB (list string) :=
  mkDB "postgres" (mkStore ["users"; "posts"] (Some {[1; 2]})) None.

Definition db_123 : DB (list string) :=
  mkDB "postgres"
       (mkStore ["users"; "posts"; "idx_posts_user_id"] (Some {[1; 2; 3]})) None.

Definition db_ab : DB (list string) :=
  mkDB "postgres" (mkStore ["a"; "b"] (Some {[1; 2]})) None.

(** Version 1 is recorded but its table is gone: the revert script fails. *)
Definition db_broken : DB (list string) :=
  mkDB "postgres" (mkStore [] (Some {[1]})) None.

End Toy.

(** The small engine with one statement more: [~] deletes every row of the
    control table, and fails when the table is missing.  Its scripts do
    not leave the control table to the runner. *)
Module Meddler.

Fixpoint run (sts : list string) (s : Store (list string)) : Store (list string) * bool :=
  match sts with
  | [] => (s, true)
  | st :: rest =>
      if String.eqb st "~" then
        match ledger s with
        | None => (s, false)
        | Some _ => run rest (mkStore (user s) (Some ∅))
        end
      else
        match Toy.statement st (user s) with
        | None => (s, false)
        | Some objs => run rest (mkStore objs (ledger s))
        end
  end.

Fixpoint reaches_write (sts : list string) (s : Store (list string)) : bool :=
  match sts with
  | [] => false
  | st :: rest =>
      if String.eqb st "~" then bool_decide (is_Some (ledger s))
      else if Toy.is_write st then true
      else match Toy.statement st (user s) with
           | None => false
           | Some objs => reaches_write rest (mkStore objs (ledger s))
           end
  end.

Definition exec : Engine (list string) :=
  mkEngine (λ sql s, run (GoStrings.Split sql " "%char) s)
           (λ sql s, reaches_write (GoStrings.Split sql " "%char) s).


(** A migration, one that empties the control table, and an invalid one. *)
Definition dir_wipe_then_fail : Dir :=
  Some [mkEntry "1_a.up.sql" (Some "+a");
        mkEntry "2_wipe.up.sql" (Some "~");
        mkEntry "3_bad.up.sql" (Some "!")].

End Meddler.

(** What the directory holds for one version, in the words of the
    specification: the readable SQL files whose version token gives [v];
    the name comes from the first of them, each half from the last file
    that carries it. *)
Module LoadSpec.

Definition readable_sql (f : DirEntry) : bool :=
  is_sql (fname f) && bool_decide (is_Some (fdata f)).

Definition files_of (v : Z) (files : list DirEntry) : list DirEntry :=
  List.filter (λ f, readable_sql f && (file_version (fname f) =? v)) files.

Definition content (f : DirEntry) : string := default EmptyString (fdata f).

Definition is_apply (f : DirEntry) : bool := GoStrings.Contains (fname f) ".up.".

Definition is_revert (f : DirEntry) : bool :=
  negb (GoStrings.Contains (fname f) ".up.") && GoStrings.Contains (fname f) ".down.".

(** The content of the last file of [fs] that satisfies [p], empty if none. *)
Definition half (p : DirEntry → bool) (fs : list DirEntry) : string :=
  fold_left (λ acc f, if p f then content f else acc) fs EmptyString.

Definition name_of (fs : list DirEntry) : string :=
  match fs with
  | [] => EmptyString
  | f :: _ => migrationName (tl (parts_of (fname f)))
  end.

Definition merged (v : Z) (files : list DirEntry) : Migration :=
  let fs := files_of v files in
  mkMigration v (name_of fs) (half is_apply fs) (half is_revert fs).

End LoadSpec.

Import LoadSpec.

(** ** The vocabulary of the properties

    The predicates the properties below are stated with. *)

Section Words.
Context {U : Type}.
Variable exec_sql : Engine U.
Implicit Types (s : Store U) (db : DB U) (m : Migration) (rows done : gset Z).

(** The scripts leave the control table to the runner. *)
Definition ledger_stable : Prop :=
  ∀ sql s, ledger (fst (exec_sql sql s)) = ledger s.

(** The journal of a migration applied and committed, and of one reverted
    and committed. *)
Definition applied_tx m : list TxEvent :=
  [TxBegin; TxExec (UpSQL m); TxInsert (Version m); TxCommit].

Definition reverted_tx m : list TxEvent :=
  [TxBegin; TxExec (DownSQL m); TxDelete (Version m); TxCommit].

(** Every migration of the list applied in turn, until one fails, the
    write lock not being held against the runner. *)
Definition run_all (ms : list Migration) (s : Store U) : Outcome (Store U) :=
  up_loop exec_sql false false ∅ ms s.

(** The same loop, the write lock held against the runner or not. *)
Definition run_under (held : bool) (ms : list Migration) (s : Store U)
  : Outcome (Store U) :=
  up_loop exec_sql held false ∅ ms s.

(** The loaded migrations whose version is not in [done], in order. *)
Definition pending done (ms : list Migration) : list Migration :=
  List.filter (λ m, bool_decide (Version m ∉ done)) ms.

(** The lock was obtained: [NewLocker] knows the driver and [Lock]
    returns [nil]. *)
Definition lock_acquired (rival : nat) db : Prop :=
  ∃ l l1 db1, NewLocker db = inl l ∧ Lock l 30 rival db = (l1, db1, None).

(** The error of a transaction of [Up] for the version [v]. *)
Definition migration_error (e : error) (v : Z) : Prop :=
  e = ErrUpFailed v ErrDB ∨ e = ErrRegister v ErrDB.


Definition is_sqlite (l : Locker) : bool :=
  match kind l with SQLiteLocker => true | _ => false end.

(** The store is settled for a directory when every loaded version is in
    its ledger: [Up] then finds nothing pending. *)
Definition settled (dir : Dir) s : Prop :=
  ∃ files rows, dir = Some files ∧ ledger s = Some rows ∧
                ∀ m, m ∈ load_files files → Version m ∈ rows.

(** [v] is the highest version recorded in [rows]. *)
Definition greatest rows (v : Z) : Prop := v ∈ rows ∧ ∀ x, x ∈ rows → x ≤ v.

(** The control table is missing and cannot be created: a rival keeps the
    write lock of SQLite longer than the driver waits for it. *)
Definition table_refused (rival : nat) db : bool :=
  write_refused db rival &&
  match ledger (store db) with None => true | Some _ => false end.

(** Whether the write lock is held against the body of a call: in a real
    run that has its lock, by the runner's own locker when the driver is
    SQLite; in a dry run, by a rival that keeps it long enough. *)
Definition held_in (dryRun : bool) (rival : nat) db : bool :=
  if dryRun then write_refused db rival else String.eqb (driver db) "sqlite3".

(** The script failed on the store [s]: by itself or, with SQLite, at its
    first write, refused because the runner's own locker holds the write
    lock. *)
Definition script_failed db (sql : string) s : Prop :=
  snd (exec_sql sql s) = false ∨
  (driver db = "sqlite3" ∧ writes exec_sql sql s = true).

(** What the committed transaction of a migration makes of the store, read
    off the engine: the effect of the apply script, and the row of the
    version added to the control table the script leaves. *)
Definition applied_store m s : Store U :=
  let w := fst (exec_sql (UpSQL m) s) in
  mkStore (user w) (Some ({[Version m]} ∪ default ∅ (ledger w))).

Definition applied_all (ms : list Migration) s : Store U :=
  fold_left (λ s m, applied_store m s) ms s.

(** Each apply script of the list succeeds on the store the transactions
    before it leave. *)
Fixpoint all_applied (ms : list Migration) s : Prop :=
  match ms with
  | [] => True
  | m :: rest => snd (exec_sql (UpSQL m) s) = true ∧ all_applied rest (applied_store m s)
  end.

(** The same for the committed transaction that reverts a migration: the
    effect of the revert script, and the row of the version removed. *)
Definition reverted_store m s : Store U :=
  let w := fst (exec_sql (DownSQL m) s) in
  mkStore (user w) (Some (default ∅ (ledger w) ∖ {[Version m]})).

Definition reverted_all (ms : list Migration) s : Store U :=
  fold_left (λ s m, reverted_store m s) ms s.

Fixpoint all_reverted (ms : list Migration) s : Prop :=
  match ms with
  | [] => True
  | m :: rest =>
      snd (exec_sql (DownSQL m) s) = true ∧ all_reverted rest (reverted_store m s)
  end.

End Words.

Section Contracts.
Context {U : Type}.
Variable exec_sql : Engine U.
Implicit Types (s : Store U) (db : DB U) (m : Migration) (rows done : gset Z).

(** [Up] has stopped at the apply script of version [v]: the pending
    migrations before it are committed, the script failed on the store
    [before] they left, and that store is the one the call leaves: the
    transaction of [v] ends in a rollback and, when scripts leave the
    control table alone, [v] is not in the ledger. *)
Definition up_rolled_back (rival : nat) db (dir : Dir) (v : Z) : Prop :=
  ∃ files pre m post,
    dir = Some files ∧
    pending (default ∅ (ledger (store db))) (load_files files) = pre ++ m :: post ∧
    Version m = v ∧
    let before := after (run_all exec_sql pre (ensured (store db))) in
    script_failed exec_sql db (UpSQL m) before ∧
    store (after (Up exec_sql rival db dir false)) = before ∧
    journal (Up exec_sql rival db dir false)
    = concat (applied_tx <$> pre) ++ [TxBegin; TxExec (UpSQL m); TxRollback] ∧
    (ledger_stable exec_sql →
     v ∉ applied_versions (store (after (Up exec_sql rival db dir false)))).

(** [Down] has stopped at the revert script of the migration [t]: the
    script failed on the store of the database, which is left as it was,
    ledger included; the one transaction ends in a rollback. *)
Definition down_rolled_back (rival : nat) db (dir : Dir) : Prop :=
  store (after (Down exec_sql rival db dir false)) = store db ∧
  ∃ t, script_failed exec_sql db (DownSQL t) (store db) ∧
       journal (Down exec_sql rival db dir false)
       = [TxBegin; TxExec (DownSQL t); TxRollback].

(** [Up] has stopped in the transaction of the pending migration [m] of
    version [v]: each pending migration before it has its own committed
    transaction in the journal, which then holds the rolled-back
    transaction of [m] and nothing for the later ones; the scripts of the
    earlier ones all succeeded and the store holds their effects and their
    rows, as the engine gives them; when scripts leave the control table
    alone, the ledger has gained the versions before [m], and neither [v]
    nor a later pending version. *)
Definition up_partial (rival : nat) db (dir : Dir) (v : Z) : Prop :=
  let o := Up exec_sql rival db dir false in
  ∃ files pre m post failed,
    dir = Some files ∧
    pending (default ∅ (ledger (store db))) (load_files files) = pre ++ m :: post ∧
    Version m = v ∧
    journal o = concat (applied_tx <$> pre) ++ failed ∧
    (failed = [TxBegin; TxExec (UpSQL m); TxRollback] ∨
     failed = [TxBegin; TxExec (UpSQL m); TxInsert (Version m); TxRollback]) ∧
    all_applied exec_sql pre (ensured (store db)) ∧
    store (after o) = applied_all exec_sql pre (ensured (store db)) ∧
    (ledger_stable exec_sql →
     ledger (store (after o))
     = Some (list_to_set (Version <$> pre) ∪ default ∅ (ledger (store db))) ∧
     (∀ p, p ∈ pre → Version p ∈ applied_versions (store (after o))) ∧
     (∀ q, q ∈ m :: post → Version q ∉ applied_versions (store (after o)))).


(** [DownN] has stopped at a target [v] that has no loaded migration or
    no revert script, after the more recent targets [passed].  Nothing is
    opened for [v] nor for the older targets.  In a real run each of
    [passed] is reverted by a committed transaction of its own: its script
    succeeded, and the store holds the effects of the scripts without the
    rows of their versions, as the engine gives them; when scripts leave
    the control table alone, the ledger has lost exactly those rows.  A dry
    run, and a call with no target before [v], leave the store unchanged
    and the journal empty. *)
Definition downN_stopped (rival : nat) db (dir : Dir) (steps : Z) (dryRun : bool)
  : Prop :=
  let o := DownN exec_sql rival db dir steps dryRun in
  ∃ files rows passed v older,
    dir = Some files ∧
    ledger (store db) = Some rows ∧
    reverse (to_revert (rows_sorted rows) steps) = (Version <$> passed) ++ v :: older ∧
    Forall (λ t, t ∈ load_files files ∧ DownSQL t ≠ "") passed ∧
    (∀ t, t ∈ load_files files → Version t = v → DownSQL t = "") ∧
    (if dryRun then journal o = [] ∧ store (after o) = store db
     else
       journal o = concat (reverted_tx <$> passed) ∧
       all_reverted exec_sql passed (store db) ∧
       store (after o) = reverted_all exec_sql passed (store db) ∧
       (ledger_stable exec_sql →
        ledger (store (after o))
        = Some (rows ∖ list_to_set (Version <$> passed)))) ∧
    (passed = [] → journal o = [] ∧ store (after o) = store db).

(** What a real run of [Down] does once it holds the lock and has read
    the directory, by cases on the ledger and on the loaded migration of
    its highest version [v].  With a driver other than SQLite the revert
    script runs and the row goes, in one transaction.  With SQLite the
    write lock is held by the runner's own locker: the transaction is
    opened and the script sent, but the script fails at its first write,
    or else the deletion of the row fails, and the store is left as it
    was. *)
Definition down_contract (rival : nat) db (files : list DirEntry) : Prop :=
  let o := Down exec_sql rival db (Some files) false in
  let untouched := journal o = [] ∧ store (after o) = store db in
  (applied_versions (store db) = [] →
   result o = Some ErrNoMigrationToRollback ∧ untouched) ∧
  (∀ rows v,
     ledger (store db) = Some rows → greatest rows v →
     ((∀ t, t ∈ load_files files → Version t = v → DownSQL t = "") →
      result o = Some ErrNoDownFound ∧ untouched) ∧
     (∀ t, t ∈ load_files files → Version t = v → DownSQL t ≠ "" →
        journal o <> [] ∧
        firstn 2 (journal o) = [TxBegin; TxExec (DownSQL t)] ∧
        (driver db ≠ "sqlite3" →
         (∀ w rows',
            exec_sql (DownSQL t) (store db) = (w, true) → ledger w = Some rows' →
            result o = None ∧
            journal o = [TxBegin; TxExec (DownSQL t); TxDelete v; TxCommit] ∧
            store (after o) = mkStore (user w) (Some (rows' ∖ {[v]}))) ∧
         (ledger_stable exec_sql → result o = None →
          ledger (store (after o)) = Some (rows ∖ {[v]})) ∧
         (snd (exec_sql (DownSQL t) (store db)) = false →
          result o = Some (ErrDownExec ErrDB) ∧ store (after o) = store db)) ∧
        (driver db = "sqlite3" →
         store (after o) = store db ∧
         ((result o = Some (ErrDownExec ErrDB) ∧
           journal o = [TxBegin; TxExec (DownSQL t); TxRollback]) ∨
          (result o = Some (ErrDeleteRow ErrDB) ∧
           journal o = [TxBegin; TxExec (DownSQL t); TxDelete v; TxRollback])) ∧
         (writes exec_sql (DownSQL t) (store db) = true →
          result o = Some (ErrDownExec ErrDB))))).



End Contracts.

(** The contract of the specification for [acquire(deadline)], to compare
    with: the caller waits, and holds the lock as soon as the rival lets go
    of it before the deadline. *)
Definition spec_acquire (ctx rival : nat) : bool := (rival <? ctx)%nat.


(** ** More vocabulary, for the properties beyond the claims *)

(** Two calls agree: the same state and the same journal, and both return
    [nil] or both an error. *)
Definition agree {S} (a b : Outcome S) : Prop :=
  after a = after b ∧ journal a = journal b ∧ (result a = None ↔ result b = None).

(** The error of a transaction of [DownN] for the version [v]. *)
Definition revert_error (e : error) : Prop :=
  ∃ v, e = ErrDownExecN v ErrDB ∨ e = ErrDeleteRowN v ErrDB.


(** No transaction of the journal was committed. *)
Definition uncommitted (j : list TxEvent) : Prop := TxCommit ∉ j.


Section MoreWords.
Context {U : Type}.
Variable exec_sql : Engine U.
Implicit Types (s : Store U) (db : DB U) (m : Migration) (rows : gset Z).


(** A successful real run of [Up]: one committed transaction for each
    pending migration, in ascending order of version; each script
    succeeded and the store holds their effects and their rows, as the
    engine gives them; with scripts that leave the control table alone,
    the ledger then holds what it held and every loaded version. *)
Definition up_done (rival : nat) db (files : list DirEntry) : Prop :=
  let o := Up exec_sql rival db (Some files) false in
  let rows0 := default ∅ (ledger (store db)) in
  let todo := pending rows0 (load_files files) in
  journal o = concat (applied_tx <$> todo) ∧
  StronglySorted Z.lt (Version <$> todo) ∧
  (∀ m, m ∈ todo ↔ m ∈ load_files files ∧ Version m ∉ rows0) ∧
  all_applied exec_sql todo (ensured (store db)) ∧
  store (after o) = applied_all exec_sql todo (ensured (store db)) ∧
  (ledger_stable exec_sql →
   ledger (store (after o))
   = Some (list_to_set (Version <$> load_files files) ∪ rows0)).



End MoreWords.

(** More inputs for the small engine. *)
Module Samples.


(** A driver the locker does not know. *)
(** A SQLite database between two runs, versions 1 and 2 applied. *)
Definition db_lite : DB (list string) :=
  mkDB "sqlite3" (mkStore ["users"; "posts"] (Some {[1; 2]})) (Some false).

Definition db_oracle : DB (list string) :=
  mkDB "oracle" (mkStore [] None) None.

Definition files123 : list DirEntry := default [] Toy.dir123.

End Samples.

(** ** [migrate/creator.go]

    The directory is the listing [os.ReadDir] gives, sorted by file name;
    [os.MkdirAll] makes the empty directory out of a missing one, and
    [os.WriteFile] replaces the file of that name or adds it at its place.
    The file system takes every file name without a path separator; a name
    with one points into a sub-directory, which the flat directory does not
    have.  [now] is [time.Now().Unix()]. *)

Module Creator.

Definition nl : string := String (ascii_of_nat 10) EmptyString.

Definition digit_char (k : Z) : ascii := ascii_of_nat (Z.to_nat (48 + k)).

(** The decimal digits of [n], written from the last one, before [acc]. *)
Fixpoint digits_fuel (fuel : nat) (n : Z) (acc : string) : string :=
  match fuel with
  | O => acc
  | S f =>
      let acc' := String (digit_char (n mod 10)) acc in
      if n <? 10 then acc' else digits_fuel f (n / 10) acc'
  end.

Definition digits (n : Z) : string := digits_fuel 20 n EmptyString.

(** The verb [%d] of [fmt.Sprintf] on an [int64]. *)
Definition Itoa (v : Z) : string :=
  if v <? 0 then String "-"%char (digits (- v)) else digits v.

(** Whether the byte [c] occurs in [s]. *)
Fixpoint has_char (c : ascii) (s : string) : bool :=
  match s with
  | EmptyString => false
  | String d s' => Ascii.eqb c d || has_char c s'
  end.

(** [fmt.Sprintf("%d_%s.up.sql", version, name)] and its twin. *)
Definition up_file (version : Z) (name : string) : string :=
  (Itoa version ++ "_" ++ name ++ ".up.sql")%string.

Definition down_file (version : Z) (name : string) : string :=
  (Itoa version ++ "_" ++ name ++ ".down.sql")%string.

Definition up_template : string := ("-- UP" ++ nl)%string.
Definition down_template : string := ("-- DOWN" ++ nl)%string.

(** *** The directory under [os.MkdirAll] and [os.WriteFile]

    The listing is the one of [os.ReadDir], in the order of the file
    names.  The file name is a plain one: [filepath.Join(dir, file)]
    cleans the path, and a name with a separator addresses another
    directory. *)

(** [name] takes its place in the listing.  An entry of that name is
    overwritten in place; it keeps its mode, so one that could not be read
    still cannot. *)
Fixpoint write_file (name content : string) (files : list DirEntry) : list DirEntry :=
  match files with
  | [] => [mkEntry name (Some content)]
  | f :: rest =>
      match String.compare name (fname f) with
      | Eq => mkEntry name ((λ _, content) <$> fdata f) :: rest
      | Lt => mkEntry name (Some content) :: f :: rest
      | Gt => f :: write_file name content rest
      end
  end.

(** What [os.ReadFile] gives for a name: [None] when the listing has no
    such entry, [Some None] when the entry cannot be read. *)
Definition read_file (name : string) (files : list DirEntry) : option (option string) :=
  fdata <$> List.find (λ f, String.eqb name (fname f)) files.

(** What the operating system answers to [os.WriteFile], which opens the
    file (creating or truncating it), writes and closes. *)
Inductive WriteAnswer :=
| Written                (* nil: the file holds the data *)
| Refused                (* the open failed: nothing changed *)
| Torn (kept : string).  (* the write or the close failed: the file holds [kept] *)

(** The part of the environment the creator depends on. *)
Record OS := mkOS {
  mkdir_refused : bool;                  (* [os.MkdirAll] fails *)
  unlisted_exists : bool;                (* a directory [os.ReadDir] cannot
                                            list is there all the same *)
  write_answer : string → WriteAnswer    (* by file name *)
}.

(** [os.MkdirAll(dir, 0755)]: a missing directory is created, empty; one
    that exists is left as it is.  [None] is the error. *)
Definition MkdirAll (os : OS) (dir : Dir) : option Dir :=
  if mkdir_refused os then None
  else match dir with
       | Some files => Some (Some files)
       | None => Some (if unlisted_exists os then None else Some [])
       end.

(** [os.WriteFile(filepath.Join(dir, name), content, 0644)]: the directory
    afterwards and whether the call returned nil. *)
Definition WriteFile (os : OS) (name content : string) (dir : Dir) : Dir * bool :=
  match write_answer os name with
  | Written => (write_file name content <$> dir, true)
  | Refused => (dir, false)
  | Torn kept => (write_file name kept <$> dir, false)
  end.

Inductive CreateError :=
| ErrMkdir          (* "error creando directorio: %w" *)
| ErrEmptyName      (* "el nombre de la migración no puede estar vacío" *)
| ErrWriteUp        (* "error creando archivo up: %w" *)
| ErrWriteDown.     (* "error creando archivo down: %w" *)

(** [NewMigration(dir, name)] at the second [now] of [time.Now().Unix()]:
    the directory afterwards and the error. *)
Definition NewMigration (os : OS) (now : Z) (dir : Dir) (name : string)
  : Dir * option CreateError :=
  match MkdirAll os dir with
  | None => (dir, Some ErrMkdir)
  | Some dir0 =>
      if String.eqb name "" then (dir0, Some ErrEmptyName)
      else
        let version := now in
        let up := up_file version name in
        let down := down_file version name in
        let '(dir1, ok1) := WriteFile os up up_template dir0 in
        if negb ok1 then (dir1, Some ErrWriteUp)
        else
          let '(dir2, ok2) := WriteFile os down down_template dir1 in
          if negb ok2 then (dir2, Some ErrWriteDown)
          else (dir2, None)
  end.

(** An operating system that refuses nothing. *)
Definition willing : OS := mkOS false false (λ _, Written).

End Creator.

Import Creator.

(** * Properties *)

Example load_test :
  load_files [mkEntry "2_add_posts.up.sql" (Some "B");
              mkEntry "1_create_users.down.sql" (Some "D");
              mkEntry "README.md" (Some "x");
              mkEntry "1_create_users.up.sql" (Some "A")]
  = [mkMigration 1 "create_users" "A" "D"; mkMigration 2 "add_posts" "B" ""].
Proof. vm_compute. reflexivity. Qed.

Lemma kind_of_lock_error c :
  kind_of (ErrAcquire c) = LockUnavailable ∨ kind_of (ErrAcquire c) = LockTimeout ∨
  kind_of (ErrAcquire c) = OtherFailure.
Proof. destruct c; simpl; auto; destruct c; auto. Qed.

(** ** The ledger *)

Section LedgerFacts.
Context {U : Type}.
Implicit Types (s : Store U) (rows : gset Z) (v : Z).

Lemma rows_sorted_perm rows : rows_sorted rows ≡ₚ elements rows.
Proof. apply merge_sort_Permutation. Qed.

Lemma elem_of_rows_sorted rows v : v ∈ rows_sorted rows ↔ v ∈ rows.
Proof. rewrite rows_sorted_perm. apply elem_of_elements. Qed.

Lemma rows_sorted_to_set rows : list_to_set (rows_sorted rows) = rows.
Proof.
  apply set_eq. intros v.
  rewrite elem_of_list_to_set. apply elem_of_rows_sorted.
Qed.

Lemma rows_sorted_ascending rows : StronglySorted Z.le (rows_sorted rows).
Proof. apply (StronglySorted_merge_sort Z.le). Qed.

Lemma rows_sorted_nil rows : rows_sorted rows = [] ↔ rows = ∅.
Proof.
  split.
  - intros H. apply set_eq. intros v.
    rewrite <- elem_of_rows_sorted, H. set_solver.
  - intros ->. unfold rows_sorted. rewrite elements_empty. reflexivity.
Qed.

Lemma rows_sorted_length rows : length (rows_sorted rows) = size rows.
Proof. rewrite rows_sorted_perm. reflexivity. Qed.

(** [last] answers with the greatest version of the ledger. *)
Lemma last_greatest s v :
  last s = inl v →
  ∃ rows, ledger s = Some rows ∧ v ∈ rows ∧ ∀ x, x ∈ rows → x ≤ v.
Proof.
  unfold last. destruct (ledger s) as [rows|]; [|discriminate].
  destruct (reverse (rows_sorted rows)) as [|w l] eqn:E; [discriminate|].
  intros [= ->]. exists rows. split; [reflexivity|].
  apply (f_equal reverse) in E. rewrite reverse_involutive in E.
  rewrite reverse_cons in E.
  pose proof (rows_sorted_ascending rows) as Hs. rewrite E in Hs.
  split.
  - apply elem_of_rows_sorted. rewrite E. set_solver.
  - intros x Hx. apply elem_of_rows_sorted in Hx. rewrite E in Hx.
    apply elem_of_app in Hx as [Hx|Hx].
    + apply (StronglySorted_app_1_elem_of _ _ _ _ _ Hs Hx). set_solver.
    + apply list_elem_of_singleton in Hx. lia.
Qed.

Lemma last_error s :
  (∃ e, last s = inr e) ↔ applied_versions s = [].
Proof.
  unfold last, applied_versions, applied.
  destruct (ledger s) as [rows|]; [|split; eauto].
  destruct (rows_sorted rows) as [|x l] eqn:E.
  - split; eauto.
  - assert (reverse (x :: l) ≠ []) as Hne.
    { intros H. apply (f_equal length) in H. rewrite length_reverse in H. discriminate. }
    destruct (reverse (x :: l)); [done|]. split; [intros [e [=]]|discriminate].
Qed.

Lemma ensured_applied_versions s : applied_versions (ensured s) = applied_versions s.
Proof.
  unfold ensured, applied_versions, applied.
  destruct (ledger s) eqn:E; simpl; rewrite ?E; [reflexivity|].
  apply rows_sorted_nil. reflexivity.
Qed.

Lemma ensured_user s : user (ensured s) = user s.
Proof. unfold ensured. destruct (ledger s); reflexivity. Qed.

Lemma ensured_ledger s :
  ledger (ensured s) = Some (default ∅ (ledger s)).
Proof. unfold ensured. destruct (ledger s) eqn:E; simpl; auto. Qed.

Lemma ensured_idem s rows : ledger s = Some rows → ensured s = s.
Proof. unfold ensured. intros ->. reflexivity. Qed.

(** [ensure] creates the table when it can write, fails when it has to
    write and cannot, and has nothing to do when the table is there. *)
Lemma ensure_free s : ensure false s = (ensured s, None).
Proof. unfold ensure, ensured. destruct (ledger s); reflexivity. Qed.

Lemma ensure_present h s rows : ledger s = Some rows → ensure h s = (s, None).
Proof. unfold ensure. intros ->. reflexivity. Qed.

Lemma ensure_cases h s :
  (h = true ∧ ledger s = None ∧ ensure h s = (s, Some ErrDB))
  ∨ ((h = true → is_Some (ledger s)) ∧ ensure h s = (ensured s, None)).
Proof.
  unfold ensure, ensured. destruct (ledger s) as [rows|] eqn:E.
  - right. split; eauto.
  - destruct h; [left; auto|right]. split; [discriminate|reflexivity].
Qed.

End LedgerFacts.

(** ** The locker leaves the store alone *)

Section LockFacts.
Context {U : Type}.
Implicit Types (db : DB U) (l : Locker).

Lemma with_store_id db : with_store db (store db) = db.
Proof. destruct db. reflexivity. Qed.

Lemma with_lock_table_id db t : lock_table db = t → with_lock_table db t = db.
Proof. intros <-. destruct db. reflexivity. Qed.

Lemma Lock_frame l ctx rival db l' db' r :
  Lock l ctx rival db = (l', db', r) →
  store db' = store db ∧ driver db' = driver db.
Proof.
  unfold Lock, pg_Lock, mysql_Lock, sqlite_Lock.
  intros H.
  repeat (match type of H with
          | context [match ?x with _ => _ end] => destruct x
          | context [if ?x then _ else _] => destruct x
          end);
    inversion H; subst; auto.
Qed.

Lemma Unlock_frame l db :
  store (snd (Unlock l db)) = store db ∧ driver (snd (Unlock l db)) = driver db.
Proof.
  unfold Unlock. destruct (negb (locked l)); [auto|]. destruct (kind l); auto.
Qed.

Lemma NewLocker_kind db l :
  NewLocker db = inl l →
  locked l = false ∧ (kind l = SQLiteLocker ↔ driver db = "sqlite3").
Proof.
  unfold NewLocker.
  destruct (String.eqb_spec (driver db) "postgres") as [E|_].
  { intros [= <-]. rewrite E. split; [reflexivity|]. split; discriminate. }
  destruct (String.eqb_spec (driver db) "mysql") as [E|_].
  { intros [= <-]. rewrite E. split; [reflexivity|]. split; discriminate. }
  destruct (String.eqb_spec (driver db) "sqlite3") as [E|_]; [|discriminate].
  intros [= <-]. split; [reflexivity|]. split; auto.
Qed.

(** A write that finds no rival gets through. *)
Lemma sqlite_write_free ctx : (0 < ctx)%nat → sqlite_write ctx 0 = Through.
Proof.
  intros H. unfold sqlite_write.
  destruct (Nat.ltb_spec 0 busy_timeout) as [_|H']; [|unfold busy_timeout in H'; lia].
  destruct (Nat.ltb_spec 0 ctx); [reflexivity|lia].
Qed.

Lemma sqlite_write_through ctx rival :
  sqlite_write ctx rival = Through ↔ (rival < busy_timeout)%nat ∧ (rival < ctx)%nat.
Proof.
  unfold sqlite_write.
  destruct (Nat.ltb_spec rival busy_timeout); destruct (Nat.ltb_spec rival ctx);
    cbn [andb]; try (split; [reflexivity|]; auto; fail); try (split; [auto|reflexivity]);
    destruct (ctx <=? busy_timeout)%nat; split; try discriminate; lia.
Qed.

(** What [Lock] does, for a locker not yet locked: the lock taken, with
    SQLite the lock table made and the sentinel row in it; or the lock
    refused and the database as it was. *)
Lemma Lock_shape l ctx rival db l1 db1 r :
  locked l = false →
  Lock l ctx rival db = (l1, db1, r) →
  kind l1 = kind l ∧
  match r with
  | None =>
      locked l1 = true ∧
      db1 = if is_sqlite l then with_lock_table db (Some true) else db
  | Some _ => locked l1 = false ∧ db1 = db
  end.
Proof.
  intros Hl. unfold Lock, pg_Lock, mysql_Lock, sqlite_Lock, is_sqlite.
  rewrite Hl. destruct (kind l) eqn:Ek.
  - intros H.
    repeat (match type of H with
            | context [if ?x then _ else _] => destruct x
            end);
      inversion H; subst; cbn [kind locked]; auto.
  - intros H.
    repeat (match type of H with
            | context [if ?x then _ else _] => destruct x
            end);
      inversion H; subst; cbn [kind locked]; auto.
  - destruct (ctx =? 0)%nat; [intros [= <- <- <-]; auto|].
    destruct (lock_table db) as [row|] eqn:Et; cbn [bool_decide negb default].
    + rewrite bool_decide_eq_true_2 by eauto. cbn [negb].
      destruct (sqlite_write ctx rival); intros [= <- <- <-]; cbn [kind locked]; auto.
      all: split; [assumption|]; split; [assumption|apply with_lock_table_id, Et].
    + rewrite bool_decide_eq_false_2 by (intros [x Hx]; discriminate). cbn [negb].
      destruct (sqlite_write ctx rival) eqn:Ew; try (intros [= <- <- <-]; auto).
      apply sqlite_write_through in Ew as [_ Hlt].
      rewrite sqlite_write_free by lia. intros [= <- <- <-]. cbn [kind locked]. auto.
Qed.

(** After [Lock], the locker holds the write lock exactly when the driver
    is SQLite. *)
Lemma held_after_lock db l ctx rival l1 db1 :
  NewLocker db = inl l → Lock l ctx rival db = (l1, db1, None) →
  holds_write_lock l1 = String.eqb (driver db) "sqlite3".
Proof.
  intros Hn HL. destruct (NewLocker_kind _ _ Hn) as [Hl Hk].
  destruct (Lock_shape _ _ _ _ _ _ _ Hl HL) as (Hk1 & Hl1 & _).
  unfold holds_write_lock. rewrite Hk1, Hl1.
  destruct (String.eqb_spec (driver db) "sqlite3") as [E|E].
  - apply Hk in E. rewrite E. reflexivity.
  - destruct (kind l) eqn:Ek; try reflexivity. exfalso. apply E, Hk. reflexivity.
Qed.

Lemma write_refused_sqlite db rival :
  write_refused db rival = true → driver db = "sqlite3".
Proof.
  unfold write_refused. intros H. apply andb_true_iff in H as [H _].
  apply String.eqb_eq, H.
Qed.

End LockFacts.

(** ** The runner's building blocks *)

Section RunnerFacts.
Context {U : Type}.
Variable exec_sql : Engine U.
Implicit Types (s : Store U) (db : DB U) (m : Migration) (rows done : gset Z) (h : bool).

(** *** The lock wrapper *)

Lemma locked_run_dry rival db body :
  locked_run true rival db body
  = let o := body (write_refused db rival) (store db) in
    mkOutcome (with_store db (after o)) (journal o) (result o).
Proof. reflexivity. Qed.

Lemma held_in_sqlite dryRun rival db :
  held_in dryRun rival db = true → driver db = "sqlite3".
Proof.
  unfold held_in. destruct dryRun; [apply write_refused_sqlite|apply String.eqb_eq].
Qed.

(** Either the lock was not obtained, and nothing else happened, or the
    body ran on the store of the database. *)
Lemma locked_run_cases dryRun rival db body :
  let o := locked_run dryRun rival db body in
  let h := held_in dryRun rival db in
  (dryRun = false ∧ journal o = [] ∧ store (after o) = store db ∧
   (∃ c, result o = Some (ErrCreateLocker c) ∨ result o = Some (ErrAcquire c)))
  ∨ (store (after o) = after (body h (store db)) ∧
     journal o = journal (body h (store db)) ∧
     result o = result (body h (store db))).
Proof.
  unfold locked_run, held_in. destruct dryRun; simpl.
  - right. auto.
  - destruct (NewLocker db) as [l|e] eqn:Hn; simpl.
    + destruct (Lock l 30 rival db) as [[l1 db1] [e|]] eqn:HL.
      * apply Lock_frame in HL as [Hs Hd]; simpl. left. eauto 10.
      * rewrite (held_after_lock _ _ _ _ _ _ Hn HL).
        apply Lock_frame in HL as [Hs Hd]; simpl. right. rewrite Hs.
        split; [|auto]. apply Unlock_frame.
    + left. eauto 10.
Qed.

(** *** One transaction *)

Lemma tx_exec_free sql (tx : Tx U) :
  tx_exec exec_sql false sql tx
  = (mkTx (tx_base tx) (fst (exec_sql sql (tx_work tx))), snd (exec_sql sql (tx_work tx))).
Proof. unfold tx_exec. cbn [andb]. destruct (exec_sql sql (tx_work tx)). reflexivity. Qed.

Lemma apply_migration_ok h m s :
  result (apply_migration exec_sql h m s) = None →
  ∃ w rows,
    exec_sql (UpSQL m) s = (w, true) ∧ ledger w = Some rows ∧ (Version m ∉ rows) ∧
    after (apply_migration exec_sql h m s)
      = mkStore (user w) (Some ({[Version m]} ∪ rows)) ∧
    journal (apply_migration exec_sql h m s) = applied_tx m.
Proof.
  unfold apply_migration, tx_exec, tx_insert, insert_version, Beginx. simpl.
  destruct h; cbn [andb].
  - destruct (writes exec_sql (UpSQL m) s); simpl; [discriminate|].
    destruct (exec_sql (UpSQL m) s) as [w ok]. destruct ok; simpl; discriminate.
  - destruct (exec_sql (UpSQL m) s) as [w ok]. destruct ok; simpl; [|discriminate].
    destruct (ledger w) as [rows|] eqn:E; simpl; [|discriminate].
    destruct (decide (Version m ∈ rows)); simpl; [discriminate|].
    intros _. exists w, rows. auto.
Qed.

(** With the write lock held against it, no transaction of the runner
    succeeds. *)
Lemma apply_migration_held m s :
  result (apply_migration exec_sql true m s) ≠ None.
Proof.
  unfold apply_migration, tx_exec, tx_insert, Beginx. simpl.
  destruct (writes exec_sql (UpSQL m) s); simpl; [discriminate|].
  destruct (exec_sql (UpSQL m) s) as [w ok]. destruct ok; simpl; discriminate.
Qed.

(** A failing transaction of [Up] gives the store back as it found it. *)
Lemma apply_migration_fail h m s e :
  result (apply_migration exec_sql h m s) = Some e →
  after (apply_migration exec_sql h m s) = s ∧
  ((e = ErrUpFailed (Version m) ErrDB ∧
    (snd (exec_sql (UpSQL m) s) = false ∨
     (h = true ∧ writes exec_sql (UpSQL m) s = true)) ∧
    journal (apply_migration exec_sql h m s) = [TxBegin; TxExec (UpSQL m); TxRollback])
   ∨ (e = ErrRegister (Version m) ErrDB ∧ snd (exec_sql (UpSQL m) s) = true ∧
      journal (apply_migration exec_sql h m s)
      = [TxBegin; TxExec (UpSQL m); TxInsert (Version m); TxRollback])).
Proof.
  unfold apply_migration, tx_exec, tx_insert, Beginx, Rollback. simpl.
  destruct h; cbn [andb].
  - destruct (writes exec_sql (UpSQL m) s); simpl; [intros [= <-]; auto 10|].
    destruct (exec_sql (UpSQL m) s) as [w ok]. destruct ok; simpl; intros [= <-]; auto 10.
  - destruct (exec_sql (UpSQL m) s) as [w ok]. destruct ok; simpl.
    + destruct (insert_version (Version m) w); simpl; [discriminate|].
      intros [= <-]. auto.
    + intros [= <-]. auto 10.
Qed.

Lemma revert_migration_ok h fe fd m s :
  result (revert_migration exec_sql h fe fd m s) = None →
  ∃ w rows,
    exec_sql (DownSQL m) s = (w, true) ∧ ledger w = Some rows ∧
    after (revert_migration exec_sql h fe fd m s)
      = mkStore (user w) (Some (rows ∖ {[Version m]})) ∧
    journal (revert_migration exec_sql h fe fd m s) = reverted_tx m.
Proof.
  unfold revert_migration, tx_exec, tx_delete, delete_version, Beginx. simpl.
  destruct h; cbn [andb].
  - destruct (writes exec_sql (DownSQL m) s); simpl; [discriminate|].
    destruct (exec_sql (DownSQL m) s) as [w ok]. destruct ok; simpl; discriminate.
  - destruct (exec_sql (DownSQL m) s) as [w ok]. destruct ok; simpl; [|discriminate].
    destruct (ledger w) as [rows|] eqn:E; simpl; [|discriminate].
    intros _. exists w, rows. auto.
Qed.

Lemma revert_migration_held fe fd m s :
  result (revert_migration exec_sql true fe fd m s) ≠ None.
Proof.
  unfold revert_migration, tx_exec, tx_delete, Beginx. simpl.
  destruct (writes exec_sql (DownSQL m) s); simpl; [discriminate|].
  destruct (exec_sql (DownSQL m) s) as [w ok]. destruct ok; simpl; discriminate.
Qed.

(** A failing transaction of [Down] or [DownN] gives the store back as it
    found it. *)
Lemma revert_migration_fail h fe fd m s e :
  result (revert_migration exec_sql h fe fd m s) = Some e →
  after (revert_migration exec_sql h fe fd m s) = s ∧
  ((e = fe ErrDB ∧
    (snd (exec_sql (DownSQL m) s) = false ∨
     (h = true ∧ writes exec_sql (DownSQL m) s = true)) ∧
    journal (revert_migration exec_sql h fe fd m s)
    = [TxBegin; TxExec (DownSQL m); TxRollback])
   ∨ (e = fd ErrDB ∧ snd (exec_sql (DownSQL m) s) = true ∧
      journal (revert_migration exec_sql h fe fd m s)
      = [TxBegin; TxExec (DownSQL m); TxDelete (Version m); TxRollback])).
Proof.
  unfold revert_migration, tx_exec, tx_delete, Beginx, Rollback. simpl.
  destruct h; cbn [andb].
  - destruct (writes exec_sql (DownSQL m) s); simpl; [intros [= <-]; auto 10|].
    destruct (exec_sql (DownSQL m) s) as [w ok]. destruct ok; simpl; intros [= <-]; auto 10.
  - destruct (exec_sql (DownSQL m) s) as [w ok]. destruct ok; simpl.
    + destruct (delete_version (Version m) w); simpl; [discriminate|].
      intros [= <-]. auto.
    + intros [= <-]. auto 10.
Qed.

(** What a committed transaction leaves is what the engine says. *)
Lemma apply_migration_store h m s :
  result (apply_migration exec_sql h m s) = None →
  after (apply_migration exec_sql h m s) = applied_store exec_sql m s ∧
  snd (exec_sql (UpSQL m) s) = true.
Proof.
  intros H. destruct (apply_migration_ok _ _ _ H) as (w & rows & Hx & Hw & _ & -> & _).
  unfold applied_store. rewrite Hx. cbn [fst snd]. rewrite Hw. auto.
Qed.

Lemma revert_migration_store h fe fd m s :
  result (revert_migration exec_sql h fe fd m s) = None →
  after (revert_migration exec_sql h fe fd m s) = reverted_store exec_sql m s ∧
  snd (exec_sql (DownSQL m) s) = true.
Proof.
  intros H. destruct (revert_migration_ok _ _ _ _ _ H) as (w & rows & Hx & Hw & -> & _).
  unfold reverted_store. rewrite Hx. cbn [fst snd]. rewrite Hw. auto.
Qed.

(** *** The loop of [Up] *)

Lemma up_loop_dry h done ms s : up_loop exec_sql h true done ms s = finish s.
Proof.
  induction ms as [|m ms IH]; simpl; [reflexivity|].
  destruct (decide (Version m ∈ done)); exact IH.
Qed.

Lemma up_loop_pending h done ms s :
  up_loop exec_sql h false done ms s = run_under exec_sql h (pending done ms) s.
Proof.
  unfold run_under. revert s. induction ms as [|m ms IH]; intros s; simpl; [reflexivity|].
  destruct (decide (Version m ∈ done)) as [Hin|Hin].
  - rewrite bool_decide_eq_false_2 by auto. apply IH.
  - rewrite bool_decide_eq_true_2 by auto. simpl.
    destruct (decide (Version m ∈ ∅)) as [H|_]; [set_solver|].
    unfold and_then. destruct (result (apply_migration exec_sql h m s)); [reflexivity|].
    rewrite IH. reflexivity.
Qed.

Lemma run_under_cons h m ms s :
  run_under exec_sql h (m :: ms) s
  = and_then (apply_migration exec_sql h m s) (run_under exec_sql h ms).
Proof.
  unfold run_under. simpl. destruct (decide (Version m ∈ ∅)); [set_solver|]. reflexivity.
Qed.

Lemma run_all_free ms s : run_under exec_sql false ms s = run_all exec_sql ms s.
Proof. reflexivity. Qed.

(** With the write lock held against it, the loop gets through only when
    it has nothing to apply. *)
Lemma run_under_held_ok ms s :
  result (run_under exec_sql true ms s) = None → ms = [].
Proof.
  destruct ms as [|m ms]; [reflexivity|]. rewrite run_under_cons. unfold and_then.
  destruct (result (apply_migration exec_sql true m s)) eqn:E.
  - rewrite E. discriminate.
  - exfalso. exact (apply_migration_held _ _ E).
Qed.

(** A loop that got through did what it does with the write lock free. *)
Lemma run_under_ok h ms s :
  result (run_under exec_sql h ms s) = None →
  run_under exec_sql h ms s = run_all exec_sql ms s.
Proof.
  destruct h; [|reflexivity]. intros H. rewrite (run_under_held_ok _ _ H). reflexivity.
Qed.

(** A failing [Up] loop: the migrations before the failing one are all
    committed, the failing one leaves no trace, the later ones are not
    reached. *)
Lemma run_under_fail h ms s e :
  result (run_under exec_sql h ms s) = Some e →
  ∃ pre m post,
    ms = pre ++ m :: post ∧
    result (run_all exec_sql pre s) = None ∧
    result (apply_migration exec_sql h m (after (run_all exec_sql pre s))) = Some e ∧
    after (run_under exec_sql h ms s) = after (run_all exec_sql pre s) ∧
    journal (run_under exec_sql h ms s)
    = journal (run_all exec_sql pre s)
      ++ journal (apply_migration exec_sql h m (after (run_all exec_sql pre s))).
Proof.
  revert s. induction ms as [|m ms IH]; intros s.
  - discriminate.
  - rewrite run_under_cons. unfold and_then.
    destruct (result (apply_migration exec_sql h m s)) as [e'|] eqn:Em.
    + rewrite Em. intros [= ->]. exists [], m, ms.
      destruct (apply_migration_fail _ _ _ _ Em) as [Ha _].
      repeat split; auto.
    + simpl. intros Hr. destruct (IH _ Hr) as (pre & m' & post & -> & Hp & Hm & Ha & Hj).
      assert (h = false) as ->.
      { destruct h; [|reflexivity]. exfalso. exact (apply_migration_held _ _ Em). }
      exists (m :: pre), m', post.
      change (run_all exec_sql (m :: pre) s) with (run_under exec_sql false (m :: pre) s).
      rewrite run_under_cons. unfold and_then. rewrite Em. simpl.
      change (run_under exec_sql false pre) with (run_all exec_sql pre).
      repeat split; auto.
      rewrite Hj. rewrite app_assoc. reflexivity.
Qed.

(** A successful [Up] loop: one committed transaction per migration, in
    order, each script succeeding on what the ones before it left; the
    store is what the engine makes of it; with scripts that leave the
    control table alone, the ledger gains exactly the versions of the
    list. *)
Lemma run_all_ok_journal ms s :
  result (run_all exec_sql ms s) = None →
  journal (run_all exec_sql ms s) = concat (applied_tx <$> ms).
Proof.
  change (run_all exec_sql) with (run_under exec_sql false).
  revert s. induction ms as [|m ms IH]; intros s; [reflexivity|].
  rewrite run_under_cons. unfold and_then.
  destruct (result (apply_migration exec_sql false m s)) as [e'|] eqn:Em.
  - rewrite Em. discriminate.
  - simpl. intros Hr. rewrite (IH _ Hr).
    destruct (apply_migration_ok _ _ _ Em) as (w & rows & _ & _ & _ & _ & ->).
    reflexivity.
Qed.

Lemma run_all_ok_store ms s :
  result (run_all exec_sql ms s) = None →
  after (run_all exec_sql ms s) = applied_all exec_sql ms s ∧
  all_applied exec_sql ms s.
Proof.
  change (run_all exec_sql) with (run_under exec_sql false).
  revert s. induction ms as [|m ms IH]; intros s; [simpl; auto|].
  rewrite run_under_cons. unfold and_then.
  destruct (result (apply_migration exec_sql false m s)) as [e'|] eqn:Em.
  - rewrite Em. discriminate.
  - simpl. intros Hr. destruct (apply_migration_store _ _ _ Em) as [Ha Hx].
    destruct (IH _ Hr) as [IH1 IH2]. rewrite Ha in *. auto.
Qed.

Lemma run_all_ok_ledger ms s rows :
  ledger_stable exec_sql →
  result (run_all exec_sql ms s) = None →
  ledger s = Some rows →
  ledger (after (run_all exec_sql ms s)) = Some (list_to_set (Version <$> ms) ∪ rows).
Proof.
  change (run_all exec_sql) with (run_under exec_sql false).
  intros Hst. revert s rows. induction ms as [|m ms IH]; intros s rows.
  - simpl. intros _ ->. f_equal. set_solver.
  - rewrite run_under_cons. unfold and_then.
    destruct (result (apply_migration exec_sql false m s)) as [e'|] eqn:Em.
    + rewrite Em. discriminate.
    + simpl. intros Hr Hl.
      destruct (apply_migration_ok _ _ _ Em) as (w & rows' & Hx & Hw & _ & Ha & _).
      pose proof (Hst (UpSQL m) s) as Hs. rewrite Hx in Hs. simpl in Hs.
      assert (rows' = rows) as -> by congruence.
      rewrite (IH _ ({[Version m]} ∪ rows) Hr) by (rewrite Ha; reflexivity).
      f_equal. set_solver.
Qed.

(** *** The loop of [DownN] *)

Lemma migration_map_fold (ms : list Migration) (acc : gmap Z Migration) v t :
  fold_left (λ mp m, <[Version m := m]> mp) ms acc !! v = Some t →
  (t ∈ ms ∧ Version t = v) ∨ acc !! v = Some t.
Proof.
  revert acc. induction ms as [|m ms IH]; intros acc; simpl; [auto|].
  intros H. destruct (IH _ H) as [[Hin Hv]|Hacc].
  - left. split; [set_solver|exact Hv].
  - destruct (decide (Version m = v)) as [<-|Hne].
    + rewrite lookup_insert_eq in Hacc. injection Hacc as <-. left. split; [set_solver|reflexivity].
    + rewrite lookup_insert_ne in Hacc by exact Hne. auto.
Qed.

Lemma migration_map_lookup (ms : list Migration) v t :
  migration_map ms !! v = Some t → t ∈ ms ∧ Version t = v.
Proof.
  intros H. destruct (migration_map_fold _ _ _ _ H) as [?|H']; [assumption|].
  rewrite lookup_empty in H'. discriminate.
Qed.

Lemma downN_loop_dry h mp vs s :
  after (downN_loop exec_sql h true mp vs s) = s ∧
  journal (downN_loop exec_sql h true mp vs s) = [].
Proof.
  induction vs as [|v vs IH]; simpl; [auto|].
  destruct (mp !! v) as [t|]; simpl; [|auto].
  destruct (String.eqb (DownSQL t) ""); simpl; auto.
Qed.

(** The errors of the loop of [DownN]. *)
Lemma downN_loop_errors h dryRun mp vs s e :
  result (downN_loop exec_sql h dryRun mp vs s) = Some e →
  kind_of e = MissingRevertScript ∨ kind_of e = ScriptExecutionFailed ∨
  kind_of e = OtherFailure.
Proof.
  revert s. induction vs as [|v vs IH]; intros s; simpl; [discriminate|].
  destruct (mp !! v) as [t|] eqn:Ev; simpl; [|intros [= <-]; auto].
  destruct (String.eqb (DownSQL t) ""); simpl; [intros [= <-]; auto|].
  destruct dryRun; [apply IH|]. unfold and_then.
  destruct (result (revert_migration exec_sql h _ _ t s)) as [e'|] eqn:Er.
  - rewrite Er. intros [= ->].
    destruct (revert_migration_fail _ _ _ _ _ _ Er) as [_ [[-> _]|[-> _]]]; auto.
  - simpl. apply IH.
Qed.

(** What the loop of [DownN] has done when it got through a list of
    targets: in a real run one committed transaction for each, the store
    being what the engine makes of it; in a dry run nothing. *)
Lemma downN_loop_ok h dryRun mp vs s :
  result (downN_loop exec_sql h dryRun mp vs s) = None →
  ∃ targets,
    Forall2 (λ v t, mp !! v = Some t ∧ DownSQL t ≠ "") vs targets ∧
    if dryRun then
      after (downN_loop exec_sql h dryRun mp vs s) = s ∧
      journal (downN_loop exec_sql h dryRun mp vs s) = []
    else
      journal (downN_loop exec_sql h dryRun mp vs s) = concat (reverted_tx <$> targets) ∧
      after (downN_loop exec_sql h dryRun mp vs s) = reverted_all exec_sql targets s ∧
      all_reverted exec_sql targets s ∧
      (vs ≠ [] → h = false).
Proof.
  revert s. induction vs as [|v vs IH]; intros s; simpl.
  - intros _. exists []. split; [constructor|]. destruct dryRun; simpl; auto.
    split_and!; auto. intros H. contradiction.
  - destruct (mp !! v) as [t|] eqn:Ev; simpl; [|discriminate].
    destruct (String.eqb_spec (DownSQL t) "") as [|Hd]; simpl; [discriminate|].
    destruct dryRun.
    + intros Hr. destruct (IH _ Hr) as (targets & Hall & Ha & Hj).
      exists (t :: targets). split; [constructor; auto|auto].
    + unfold and_then.
      destruct (result (revert_migration exec_sql h _ _ t s)) as [e'|] eqn:Er.
      * rewrite Er. discriminate.
      * simpl. intros Hr. destruct (IH _ Hr) as (targets & Hall & Hj & Ha & Hp & _).
        destruct (revert_migration_ok _ _ _ _ _ Er) as (w & rows' & _ & _ & _ & Hjt).
        destruct (revert_migration_store _ _ _ _ _ Er) as [Hs Hx].
        exists (t :: targets). split; [constructor; auto|].
        rewrite Hs in *. rewrite Hj, Hjt, Ha. simpl. split_and!; auto.
        intros _. destruct h; [|reflexivity]. exfalso.
        exact (revert_migration_held _ _ _ _ Er).
Qed.

(** [DownN] stopping at a target without a revert script: the loop got
    through the targets before it, nothing is opened for it nor for the
    targets after it. *)
Lemma downN_loop_missing h dryRun mp vs s e :
  result (downN_loop exec_sql h dryRun mp vs s) = Some e →
  kind_of e = MissingRevertScript →
  ∃ pre v post,
    vs = pre ++ v :: post ∧
    result (downN_loop exec_sql h dryRun mp pre s) = None ∧
    (mp !! v = None ∨ ∃ t, mp !! v = Some t ∧ DownSQL t = "") ∧
    after (downN_loop exec_sql h dryRun mp vs s)
    = after (downN_loop exec_sql h dryRun mp pre s) ∧
    journal (downN_loop exec_sql h dryRun mp vs s)
    = journal (downN_loop exec_sql h dryRun mp pre s).
Proof.
  revert s. induction vs as [|v vs IH]; intros s; simpl; [discriminate|].
  destruct (mp !! v) as [t|] eqn:Ev; simpl.
  - destruct (String.eqb (DownSQL t) "") eqn:Ed; simpl.
    + intros _ _. exists [], v, vs. simpl. apply String.eqb_eq in Ed.
      split_and!; eauto.
    + destruct dryRun.
      * intros Hr Hk.
        destruct (IH _ Hr Hk) as (pre & v' & post & -> & Hp & Hm & Ha & Hj).
        exists (v :: pre), v', post. simpl. rewrite Ev, Ed. split_and!; auto.
      * unfold and_then.
        destruct (result (revert_migration exec_sql h _ _ t s)) as [e'|] eqn:Er.
        -- rewrite Er. intros [= ->] Hk.
           destruct (revert_migration_fail _ _ _ _ _ _ Er) as [_ [[-> _]|[-> _]]];
             discriminate.
        -- simpl. intros Hr Hk.
           destruct (IH _ Hr Hk) as (pre & v' & post & -> & Hp & Hm & Ha & Hj).
           exists (v :: pre), v', post. simpl. rewrite Ev, Ed. unfold and_then.
           rewrite Er. simpl. rewrite Hj. split_and!; auto.
  - intros _ _. exists [], v, vs. simpl. split_and!; auto.
Qed.


End RunnerFacts.

(** ** The loader *)


Section LoaderFacts.
Implicit Types (files fs : list DirEntry) (f : DirEntry) (v : Z) (m : Migration).

Lemma load_map_snoc files f :
  load_map (files ++ [f]) = load_step (load_map files) f.
Proof. unfold load_map. rewrite fold_left_app. reflexivity. Qed.

Lemma half_snoc p fs f :
  half p (fs ++ [f]) = if p f then content f else half p fs.
Proof. unfold half. rewrite fold_left_app. reflexivity. Qed.

Lemma files_of_snoc v files f :
  files_of v (files ++ [f])
  = files_of v files
    ++ (if readable_sql f && (file_version (fname f) =? v) then [f] else []).
Proof.
  unfold files_of. rewrite List.filter_app. simpl.
  destruct (readable_sql f && (file_version (fname f) =? v)); reflexivity.
Qed.

Lemma name_of_snoc fs f :
  name_of (fs ++ [f])
  = match fs with [] => migrationName (tl (parts_of (fname f))) | _ => name_of fs end.
Proof. destruct fs; reflexivity. Qed.

(** The map the loop builds holds, under each version, the merge of the
    files of that version, and nothing under the other versions. *)
Lemma load_map_lookup files v :
  load_map files !! v
  = match files_of v files with
    | [] => None
    | _ :: _ => Some (merged v files)
    end.
Proof.
  induction files as [|f files IH] using rev_ind.
  - reflexivity.
  - rewrite load_map_snoc. unfold merged. rewrite files_of_snoc.
    unfold load_step, readable_sql.
    destruct (is_sql (fname f)); simpl.
    2:{ rewrite app_nil_r. exact IH. }
    destruct (fdata f) as [sql|] eqn:Ed; simpl.
    2:{ rewrite app_nil_r. exact IH. }
    destruct (Z.eqb_spec (file_version (fname f)) v) as [<-|Hne]; simpl.
    2:{ rewrite lookup_insert_ne by exact Hne. rewrite app_nil_r. exact IH. }
    rewrite lookup_insert_eq, IH.
    rewrite name_of_snoc, !half_snoc.
    unfold set_half, is_apply, is_revert, content. rewrite Ed. simpl.
    destruct (files_of (file_version (fname f)) files) as [|f0 fs0] eqn:Ef; simpl.
    + destruct (GoStrings.Contains (fname f) ".up."); simpl; [reflexivity|].
      destruct (GoStrings.Contains (fname f) ".down."); reflexivity.
    + unfold merged. rewrite Ef.
      destruct (GoStrings.Contains (fname f) ".up."); simpl; [reflexivity|].
      destruct (GoStrings.Contains (fname f) ".down."); reflexivity.
Qed.

Lemma load_map_key files v m : load_map files !! v = Some m → Version m = v.
Proof.
  rewrite load_map_lookup. destruct (files_of v files); [discriminate|].
  intros [= <-]. reflexivity.
Qed.

#[local] Instance version_le_trans : Transitive version_le.
Proof. intros a b c. unfold version_le. lia. Qed.

#[local] Instance version_le_total : Total version_le.
Proof. intros a b. unfold version_le. lia. Qed.

Lemma load_files_perm files :
  load_files files ≡ₚ (snd <$> map_to_list (load_map files)).
Proof. apply merge_sort_Permutation. Qed.

Lemma elem_of_load_files files m :
  m ∈ load_files files ↔ load_map files !! Version m = Some m.
Proof.
  rewrite load_files_perm, list_elem_of_fmap. split.
  - intros [[v m'] [-> Hin]]. simpl. apply elem_of_map_to_list in Hin.
    rewrite (load_map_key _ _ _ Hin). exact Hin.
  - intros H. exists (Version m, m). split; [reflexivity|].
    apply elem_of_map_to_list. exact H.
Qed.

Lemma load_files_versions files :
  Version <$> load_files files ≡ₚ (fst <$> map_to_list (load_map files)).
Proof.
  rewrite load_files_perm, <- list_fmap_compose.
  erewrite list_fmap_ext; [reflexivity|]. intros i [v m] Hin. simpl.
  apply list_elem_of_lookup_2, elem_of_map_to_list in Hin.
  apply (load_map_key _ _ _ Hin).
Qed.

Lemma load_files_NoDup files : NoDup (Version <$> load_files files).
Proof. rewrite load_files_versions. apply NoDup_fst_map_to_list. Qed.

Lemma ascending_strict (l : list Z) :
  StronglySorted Z.le l → NoDup l → StronglySorted Z.lt l.
Proof.
  induction 1 as [|x l Hs IH Hall]; intros Hnd; [constructor|].
  apply NoDup_cons in Hnd as [Hx Hnd]. constructor; [auto|].
  rewrite Forall_forall in *. intros y Hy.
  assert (x ≠ y) by (intros ->; auto). specialize (Hall y Hy). lia.
Qed.

Lemma load_files_ascending files :
  StronglySorted Z.lt (Version <$> load_files files).
Proof.
  apply ascending_strict; [|apply load_files_NoDup].
  eapply StronglySorted_fmap; [intros a b H; exact H|].
  apply (StronglySorted_merge_sort version_le).
Qed.

Lemma load_map_ignores_non_sql files :
  load_map (List.filter (λ f, is_sql (fname f)) files) = load_map files.
Proof.
  unfold load_map. generalize (∅ : gmap Z Migration).
  induction files as [|f files IH]; intros acc; simpl; [reflexivity|].
  destruct (is_sql (fname f)) eqn:E; simpl.
  - apply IH.
  - rewrite IH. unfold load_step. rewrite E. reflexivity.
Qed.

Lemma load_map_skips_unreadable files :
  load_map (List.filter (λ f, bool_decide (is_Some (fdata f))) files) = load_map files.
Proof.
  unfold load_map. generalize (∅ : gmap Z Migration).
  induction files as [|f files IH]; intros acc; simpl; [reflexivity|].
  destruct (fdata f) eqn:E; simpl.
  - apply IH.
  - rewrite IH. unfold load_step. rewrite E.
    destruct (negb (is_sql (fname f))); reflexivity.
Qed.

End LoaderFacts.

(** ** [Atoi]: what the dropped error leaves in [version] *)

Section AtoiFacts.
Import Strconv.

Lemma parse_digits_error s n x e :
  parse_digits s n = (x, Some e) →
  (e = ErrSyntax ∧ x = 0) ∨ (e = ErrRange ∧ x = maxUint64).
Proof.
  revert n. induction s as [|c s IH]; intros n; simpl; [discriminate|].
  destruct (negb (is_digit c)); [intros [= <- <-]; auto|].
  destruct (maxUint64 / 10 + 1 <=? n); [intros [= <- <-]; auto|].
  destruct (_ || _); [intros [= <- <-]; auto|]. apply IH.
Qed.

Lemma fast_digits_error s n x e :
  fast_digits s n = (x, Some e) → e = ErrSyntax ∧ x = 0.
Proof.
  revert n. induction s as [|c s IH]; intros n; simpl; [discriminate|].
  destruct (negb (is_digit c)); [intros [= <- <-]; auto|]. apply IH.
Qed.

Lemma nearest_bound_sign c s :
  nearest_bound (String c s) = if Ascii.eqb c "-" then minInt64 else maxInt64.
Proof.
  destruct (Ascii.eqb_spec c "-") as [->|Hne]; [reflexivity|].
  unfold nearest_bound.
  destruct c as [[] [] [] [] [] [] [] []]; try reflexivity. contradiction.
Qed.

Lemma ParseInt_error s x e :
  ParseInt s = (x, Some e) →
  (e = ErrSyntax ∧ x = 0) ∨ (e = ErrRange ∧ x = nearest_bound s).
Proof.
  unfold ParseInt. destruct s as [|c s]; [intros [= <- <-]; auto|].
  rewrite nearest_bound_sign.
  destruct (ParseUint _) as [un [[|]|]] eqn:E.
  - intros [= <- <-]. auto.
  - destruct (Ascii.eqb c "-"); cbn [negb andb].
    + destruct (2 ^ 63 <? un); [intros [= <- <-]; auto|discriminate].
    + destruct (2 ^ 63 <=? un); [intros [= <- <-]; auto|discriminate].
  - destruct (Ascii.eqb c "-"); cbn [negb andb].
    + destruct (2 ^ 63 <? un); [intros [= <- <-]; auto|discriminate].
    + destruct (2 ^ 63 <=? un); [intros [= <- <-]; auto|discriminate].
Qed.

(** A token [Atoi] rejects as malformed gives 0; a token it rejects as out
    of range gives the nearest bound of the 64-bit integers. *)
Lemma Atoi_error s x e :
  Atoi s = (x, Some e) →
  (e = ErrSyntax ∧ x = 0) ∨ (e = ErrRange ∧ x = nearest_bound s).
Proof.
  unfold Atoi. destruct (_ && _); [|apply ParseInt_error].
  destruct s as [|c s]; [intros [= <- <-]; auto|].
  destruct (_ && _); [intros [= <- <-]; auto|].
  destruct (fast_digits _ 0) as [n [e'|]] eqn:E; [|discriminate].
  intros [= <- <-]. destruct (fast_digits_error _ _ _ _ E) as [-> _]. auto.
Qed.

(** A token that does not begin with a digit or a sign is malformed. *)
Lemma Atoi_not_a_number c s :
  is_digit c = false → c ≠ "+"%char → c ≠ "-"%char →
  Atoi (String c s) = (0, Some ErrSyntax).
Proof.
  intros Hd Hp Hm. unfold Atoi, ParseInt, ParseUint.
  apply Ascii.eqb_neq in Hp, Hm. rewrite !Hp, !Hm.
  cbn [orb andb fast_digits parse_digits]. rewrite Hd.
  cbn [negb orb andb].
  match goal with |- (if ?b then _ else _) = _ => destruct b end; reflexivity.
Qed.

End AtoiFacts.

(** ** The three operations, unfolded *)

Section OperationFacts.
Context {U : Type}.
Variable exec_sql : Engine U.
Implicit Types (s : Store U) (db : DB U) (rows : gset Z) (h : bool).

Lemma locked_run_acquired rival db body :
  lock_acquired rival db →
  let o := locked_run false rival db body in
  let h := String.eqb (driver db) "sqlite3" in
  store (after o) = after (body h (store db)) ∧
  journal o = journal (body h (store db)) ∧
  result o = result (body h (store db)).
Proof.
  intros (l & l1 & db1 & Hn & Hl). unfold locked_run. rewrite Hn, Hl. simpl.
  rewrite (held_after_lock _ _ _ _ _ _ Hn Hl).
  apply Lock_frame in Hl as [-> _]. split; [apply Unlock_frame|auto].
Qed.

(** A call that did not stop at the lock ran its body on the store. *)
Lemma locked_run_past_lock dryRun rival db body :
  let o := locked_run dryRun rival db body in
  let h := held_in dryRun rival db in
  (∀ c, result o ≠ Some (ErrCreateLocker c) ∧ result o ≠ Some (ErrAcquire c)) →
  store (after o) = after (body h (store db)) ∧
  journal o = journal (body h (store db)) ∧
  result o = result (body h (store db)).
Proof.
  intros o h Hne. destruct (locked_run_cases dryRun rival db body) as [H|H]; [|exact H].
  destruct H as (_ & _ & _ & c & [Hc|Hc]); destruct (Hne c) as [H1 H2]; contradiction.
Qed.

Lemma applied_ensured s :
  applied (ensured s) = inl (rows_sorted (default ∅ (ledger s))).
Proof. unfold applied. rewrite ensured_ledger. reflexivity. Qed.

(** [Up] stops at [ensure] when the control table is missing and cannot
    be created. *)
Lemma up_body_refused dir dryRun s :
  ledger s = None → up_body exec_sql true dir dryRun s = fail s ErrDB.
Proof. unfold up_body, ensure. intros ->. reflexivity. Qed.

(** Otherwise the table is there, and [Up] goes on with the directory. *)
Lemma up_body_ensured h dir dryRun s :
  (h = true → is_Some (ledger s)) →
  up_body exec_sql h dir dryRun s
  = match dir with
    | None => fail (ensured s) ErrIO
    | Some files =>
        if dryRun then finish (ensured s)
        else run_under exec_sql h (pending (default ∅ (ledger s)) (load_files files))
               (ensured s)
    end.
Proof.
  intros Hh. unfold up_body.
  destruct (ensure_cases h s) as [(-> & Hl & _)|[_ ->]].
  { destruct (Hh eq_refl) as [rows Hr]. congruence. }
  destruct dir as [files|]; [|reflexivity]. simpl.
  rewrite applied_ensured, rows_sorted_to_set.
  destruct dryRun; [apply up_loop_dry|apply up_loop_pending].
Qed.

Lemma up_body_cases h dir dryRun s :
  (h = true ∧ ledger s = None ∧ up_body exec_sql h dir dryRun s = fail s ErrDB)
  ∨ ((h = true → is_Some (ledger s)) ∧
     up_body exec_sql h dir dryRun s
     = match dir with
       | None => fail (ensured s) ErrIO
       | Some files =>
           if dryRun then finish (ensured s)
           else run_under exec_sql h (pending (default ∅ (ledger s)) (load_files files))
                  (ensured s)
       end).
Proof.
  destruct (ensure_cases h s) as [(-> & Hl & _)|[Hh _]].
  - left. split_and!; auto. apply up_body_refused, Hl.
  - right. split; [exact Hh|]. apply up_body_ensured, Hh.
Qed.

Lemma table_refused_true rival db :
  table_refused rival db = true ↔ write_refused db rival = true ∧ ledger (store db) = None.
Proof.
  unfold table_refused. rewrite andb_true_iff.
  destruct (ledger (store db)); split; intros [? ?]; split; auto; discriminate.
Qed.

Lemma table_refused_false rival db :
  table_refused rival db = false ↔
  (write_refused db rival = true → is_Some (ledger (store db))).
Proof.
  unfold table_refused. destruct (write_refused db rival), (ledger (store db)); simpl;
    split; auto; try discriminate.
  - intros H. destruct (H eq_refl) as [? ?]. discriminate.
Qed.

(** What a dry run of [Up] leaves behind. *)
Lemma Up_dry rival db dir :
  journal (Up exec_sql rival db dir true) = [] ∧
  store (after (Up exec_sql rival db dir true))
  = (if table_refused rival db then store db else ensured (store db)) ∧
  result (Up exec_sql rival db dir true)
  = if table_refused rival db then Some ErrDB
    else match dir with None => Some ErrIO | Some _ => None end.
Proof.
  unfold Up. rewrite locked_run_dry. cbv zeta.
  destruct (table_refused rival db) eqn:E.
  - apply table_refused_true in E as [-> Hl]. rewrite (up_body_refused _ _ _ Hl). auto.
  - rewrite table_refused_false in E. rewrite (up_body_ensured _ _ _ _ E).
    destruct dir; simpl; auto.
Qed.

Lemma Down_dry rival db dir :
  journal (Down exec_sql rival db dir true) = [] ∧
  after (Down exec_sql rival db dir true) = db.
Proof.
  unfold Down. rewrite locked_run_dry. unfold down_body.
  destruct (Load dir); simpl; [|rewrite with_store_id; auto].
  destruct (last (store db)); simpl; [|rewrite with_store_id; auto].
  destruct (find_target _ _); simpl; [|rewrite with_store_id; auto].
  destruct (String.eqb _ _); simpl; rewrite with_store_id; auto.
Qed.

Lemma DownN_dry rival db dir steps :
  journal (DownN exec_sql rival db dir steps true) = [] ∧
  after (DownN exec_sql rival db dir steps true) = db.
Proof.
  unfold DownN. destruct (steps <? 1); [auto|].
  rewrite locked_run_dry. unfold downN_body.
  destruct (Load dir); simpl; [|rewrite with_store_id; auto].
  destruct (applied (store db)); simpl; [|rewrite with_store_id; auto].
  destruct (_ =? _)%nat; simpl; [rewrite with_store_id; auto|].
  destruct (_ <? _); simpl; [rewrite with_store_id; auto|].
  destruct (downN_loop_dry exec_sql (write_refused db rival) (migration_map l)
              (reverse (to_revert l0 steps)) (store db)) as [-> ->].
  rewrite with_store_id. auto.
Qed.

End OperationFacts.

(** * The claims *)

(** ** C1: a dry run of [Up] creates the control table *)

(** C1.  The claim is that a dry run creates no schema object, the control
    table included.  [Up] calls [ensure] before it looks at [dryRun]: after
    a dry run of [Up] the control table exists, whatever the database was,
    unless it was missing and could not be created (SQLite, a rival keeping
    the write lock for as long as the driver waits); no rival, or a driver
    other than SQLite, never prevents it.  On a database without the table
    (here the fresh one) the dry run has created it.  The applied versions,
    the user's objects and the journal are untouched, and the dry runs of
    [Down] and [DownN] change nothing at all. *)
Theorem C1_dry_run_Up_creates_control_table :
  (∀ U (exec_sql : Engine U) rival db dir,
     ledger (store (after (Up exec_sql rival db dir true)))
     = (if table_refused rival db then None
        else Some (default ∅ (ledger (store db)))) ∧
     user (store (after (Up exec_sql rival db dir true))) = user (store db) ∧
     applied_versions (store (after (Up exec_sql rival db dir true)))
     = applied_versions (store db) ∧
     journal (Up exec_sql rival db dir true) = [] ∧
     after (Down exec_sql rival db dir true) = db ∧
     (∀ steps, after (DownN exec_sql rival db dir steps true) = db)) ∧
  (∀ U (db : DB U), table_refused 0 db = false) ∧
  (∀ U (db : DB U) rival, driver db ≠ "sqlite3" → table_refused rival db = false) ∧
  ledger (store (Toy.fresh "postgres")) = None ∧
  result (Up Toy.exec 30 (Toy.fresh "postgres") Toy.dir123 true) = None ∧
  ledger (store (after (Up Toy.exec 30 (Toy.fresh "postgres") Toy.dir123 true)))
  = Some ∅ ∧
  ledger (store (after (Up Toy.exec 0 (Toy.fresh "sqlite3") Toy.dir123 true)))
  = Some ∅.
Proof.
  split_and!.
  - intros U exec_sql rival db dir.
    destruct (Up_dry exec_sql rival db dir) as (Hj & -> & _).
    split_and!; auto.
    + destruct (table_refused rival db) eqn:E; [|apply ensured_ledger].
      apply table_refused_true in E as [_ ->]. reflexivity.
    + destruct (table_refused rival db); [reflexivity|apply ensured_user].
    + destruct (table_refused rival db); [reflexivity|apply ensured_applied_versions].
    + apply Down_dry.
    + intros steps. apply DownN_dry.
  - intros U db. unfold table_refused, write_refused.
    rewrite andb_false_r. reflexivity.
  - intros U db rival Hd. unfold table_refused, write_refused.
    apply String.eqb_neq in Hd. rewrite Hd. reflexivity.
  - reflexivity.
  - vm_compute. reflexivity.
  - vm_compute. reflexivity.
  - vm_compute. reflexivity.
Qed.

(** ** C7: the Postgres locker probes once *)

(** C7.  The claim is that the Postgres backend wraps its try-lock probe in a
    poll loop that lasts until the deadline.  [PostgresLocker.Lock] probes
    once: with a rival that keeps the lock for one more second, it returns
    the error "otra migración está en progreso" at once, whatever time is
    left before the deadline, and [Up] reports it, having done nothing.  The
    MySQL and the SQLite lockers do wait for that rival. *)
Theorem C7_postgres_lock_gives_up_after_one_probe :
  (∀ U (db : DB U) (ctx : nat),
     Lock (mkLocker PostgresLocker false) (S ctx) 1 db
     = (mkLocker PostgresLocker false, db, Some ErrLockBusy)) ∧
  spec_acquire 30 1 = true ∧
  (∀ U (db : DB U),
     snd (Lock (mkLocker MySQLLocker false) 30 1 db) = None ∧
     snd (Lock (mkLocker SQLiteLocker false) 30 1 db) = None) ∧
  result (Up Toy.exec 1 (Toy.fresh "postgres") Toy.dir123 false)
  = Some (ErrAcquire ErrLockBusy) ∧
  result (Up Toy.exec 1 (Toy.fresh "mysql") Toy.dir123 false) = None.
Proof.
  split_and!.
  - intros U db ctx. reflexivity.
  - reflexivity.
  - intros U db. split; [reflexivity|].
    unfold Lock, sqlite_Lock. simpl.
    destruct (bool_decide (is_Some (lock_table db))); reflexivity.
  - vm_compute. reflexivity.
  - vm_compute. reflexivity.
Qed.

(** ** C8: [Down] hides the I/O error *)

(** C8.  The claim is that every operation surfaces the error of an
    unreadable directory as it is.  [Up] returns it as it is, when it gets
    as far as the directory (it stops before, at the control table, when
    the table is missing and cannot be created), and [DownN] wraps it with
    [%w]; [Down] replaces it by "no migration to rollback", the error it
    also returns for an empty ledger, in a dry run and (once the lock is
    held) in a real run alike. *)
Theorem C8_Down_replaces_the_io_error :
  ∀ U (exec_sql : Engine U) rival (db : DB U),
    result (Down exec_sql rival db None true) = Some ErrNoMigrationToRollback ∧
    is_io ErrNoMigrationToRollback = false ∧
    kind_of ErrNoMigrationToRollback = NothingToRevert ∧
    result (Down Toy.exec 0 Toy.db_12 None false) = Some ErrNoMigrationToRollback ∧
    result (Up exec_sql rival db None true)
    = Some (if table_refused rival db then ErrDB else ErrIO) ∧
    result (Up Toy.exec 0 Toy.db_12 None false) = Some ErrIO ∧
    result (DownN exec_sql rival db None 1 true) = Some (ErrLoadWrap ErrIO) ∧
    result (DownN Toy.exec 0 Toy.db_12 None 1 false) = Some (ErrLoadWrap ErrIO) ∧
    is_io (ErrLoadWrap ErrIO) = true.
Proof.
  intros U exec_sql rival db. split_and!; try reflexivity.
  destruct (Up_dry exec_sql rival db None) as (_ & _ & ->).
  destruct (table_refused rival db); reflexivity.
Qed.

(** ** C2 and C10: a failing migration in [Up], a failing revert in [Down] *)

Section FailureFacts.
Context {U : Type}.
Variable exec_sql : Engine U.
Implicit Types (s : Store U) (db : DB U) (rows : gset Z).

Lemma pending_versions_NoDup rows (ms : list Migration) :
  NoDup (Version <$> ms) → NoDup (Version <$> pending rows ms).
Proof.
  unfold pending. induction ms as [|m ms IH]; cbn [List.filter]; [auto|].
  rewrite fmap_cons, NoDup_cons. intros [Hm Hnd].
  destruct (bool_decide _); [|auto].
  rewrite fmap_cons, NoDup_cons. split; [|auto].
  intros Hin. apply Hm. apply list_elem_of_fmap in Hin as (x & -> & Hx).
  apply list_elem_of_In, List.filter_In in Hx as [Hx _].
  apply list_elem_of_fmap. exists x. split; [reflexivity|]. apply list_elem_of_In, Hx.
Qed.

Lemma pending_not_applied rows (ms : list Migration) m :
  m ∈ pending rows ms → m ∈ ms ∧ Version m ∉ rows.
Proof.
  unfold pending. rewrite list_elem_of_In, List.filter_In, bool_decide_eq_true,
    <- list_elem_of_In. auto.
Qed.

(** The body of a real run of [Up] that got through or failed in a
    transaction: the control table was there or was created. *)
Lemma up_body_failure h dir s e v :
  result (up_body exec_sql h dir false s) = Some e →
  migration_error e v →
  ∃ files,
    dir = Some files ∧
    up_body exec_sql h dir false s
    = run_under exec_sql h (pending (default ∅ (ledger s)) (load_files files))
        (ensured s).
Proof.
  intros Hr He.
  destruct (up_body_cases exec_sql h dir false s) as [(_ & _ & H)|[_ H]];
    rewrite H in Hr |- *.
  - injection Hr as <-. destruct He; discriminate.
  - destruct dir as [files|]; [eauto|].
    injection Hr as <-. destruct He; discriminate.
Qed.

(** The shape of a call of [Up] that fails in the transaction of a
    pending migration. *)
Lemma Up_failure_shape rival db dir e v :
  result (Up exec_sql rival db dir false) = Some e →
  migration_error e v →
  let h := String.eqb (driver db) "sqlite3" in
  ∃ files pre m post,
    dir = Some files ∧
    pending (default ∅ (ledger (store db))) (load_files files) = pre ++ m :: post ∧
    Version m = v ∧
    let before := run_all exec_sql pre (ensured (store db)) in
    result before = None ∧
    result (apply_migration exec_sql h m (after before)) = Some e ∧
    store (after (Up exec_sql rival db dir false)) = after before ∧
    journal (Up exec_sql rival db dir false)
    = concat (applied_tx <$> pre)
      ++ journal (apply_migration exec_sql h m (after before)).
Proof.
  intros Hr He h. unfold Up in *.
  destruct (locked_run_past_lock false rival db (λ held, up_body exec_sql held dir false))
    as (Hs & Hj & Hres).
  { intros c. rewrite Hr. destruct He as [-> | ->]; split; discriminate. }
  cbv beta in Hs, Hj, Hres. change (held_in false rival db) with h in *.
  rewrite Hres in Hr. rewrite Hs, Hj. clear Hs Hj Hres.
  destruct (up_body_failure _ _ _ _ _ Hr He) as (files & -> & Hb).
  rewrite Hb in *.
  destruct (run_under_fail _ _ _ _ _ Hr) as (pre & m & post & Hp & Hb' & Hm & Ha & Hj).
  exists files, pre, m, post. cbv zeta.
  rewrite Ha, Hj, (run_all_ok_journal _ _ _ Hb').
  split_and!; auto.
  destruct (apply_migration_fail _ _ _ _ _ Hm) as [_ [[-> _]|[-> _]]];
    destruct He as [He|He]; congruence.
Qed.

(** With scripts that leave the control table alone, the ledger after
    such a call holds the versions it held plus those committed before
    the failure, and none of the failing or later ones. *)
Lemma Up_failure_ledger db files pre m post :
  ledger_stable exec_sql →
  pending (default ∅ (ledger (store db))) (load_files files) = pre ++ m :: post →
  result (run_all exec_sql pre (ensured (store db))) = None →
  ledger (after (run_all exec_sql pre (ensured (store db))))
  = Some (list_to_set (Version <$> pre) ∪ default ∅ (ledger (store db))) ∧
  ∀ q, q ∈ m :: post →
       Version q ∉ list_to_set (C := gset Z) (Version <$> pre)
                   ∪ default ∅ (ledger (store db)).
Proof.
  intros Hst Hp Hb. split.
  - apply (run_all_ok_ledger _ _ _ _ Hst Hb), ensured_ledger.
  - intros q Hq.
    pose proof (pending_versions_NoDup (default ∅ (ledger (store db))) _
                  (load_files_NoDup files)) as Hnd.
    rewrite Hp, fmap_app in Hnd. apply NoDup_app in Hnd as (_ & Hdis & _).
    assert (q ∈ pending (default ∅ (ledger (store db))) (load_files files)) as Hqp.
    { rewrite Hp. apply elem_of_app. auto. }
    apply pending_not_applied in Hqp as [_ Hnot].
    rewrite elem_of_union, elem_of_list_to_set. intros [Hin|Hin]; [|auto].
    apply (Hdis _ Hin). apply list_elem_of_fmap. eauto.
Qed.

End FailureFacts.

Section C2_C10.
Context {U : Type}.
Variable exec_sql : Engine U.
Implicit Types (s : Store U) (db : DB U) (rows : gset Z).

Lemma applied_versions_ledger s rows v :
  ledger s = Some rows → (v ∈ applied_versions s ↔ v ∈ rows).
Proof.
  intros H. unfold applied_versions, applied. rewrite H. apply elem_of_rows_sorted.
Qed.

(** C2.  When [Up] returns the error of a failing apply script, the store
    is the one the failing transaction started from: none of the script's
    partial effects, no ledger row for its version.  When [Down] returns
    the error of a failing revert script, the store is unchanged: no
    partial effect, no ledger row removed. *)
Theorem C2_failed_script_is_rolled_back rival db dir v c :
  (result (Up exec_sql rival db dir false) = Some (ErrUpFailed v c) →
   up_rolled_back exec_sql rival db dir v) ∧
  (result (Down exec_sql rival db dir false) = Some (ErrDownExec c) →
   down_rolled_back exec_sql rival db dir).
Proof.
  split.
  - intros Hr.
    assert (c = ErrDB) as ->.
    { destruct (locked_run_cases false rival db (λ held, up_body exec_sql held dir false))
        as [(_ & _ & _ & c' & [H|H])|(_ & _ & H)];
        unfold Up in Hr; rewrite Hr in H; try discriminate.
      cbv beta in H. symmetry in H.
      destruct (up_body_cases exec_sql (held_in false rival db) dir false (store db))
        as [(_ & _ & Hb)|[_ Hb]]; rewrite Hb in H; [discriminate|].
      destruct dir as [files|]; [|discriminate].
      destruct (run_under_fail _ _ _ _ _ H) as (pre & m & post & _ & _ & Hm & _).
      destruct (apply_migration_fail _ _ _ _ _ Hm) as [_ [[He _]|[He _]]]; congruence. }
    destruct (Up_failure_shape exec_sql rival db dir _ v Hr)
      as (files & pre & m & post & -> & Hp & Hv & Hb & Hm & Hs & Hj);
      [left; reflexivity|].
    exists files, pre, m, post. cbv zeta.
    destruct (apply_migration_fail _ _ _ _ _ Hm) as [_ [(_ & Hx & Hjm)|(He & _)]];
      [|discriminate].
    rewrite Hjm in Hj. split_and!; auto.
    + destruct Hx as [Hx|[Hh Hx]]; [left; exact Hx|right].
      split; [apply String.eqb_eq, Hh|exact Hx].
    + intros Hst.
      destruct (Up_failure_ledger exec_sql db files pre m post Hst Hp Hb) as [Hl Hnot].
      rewrite Hs, (applied_versions_ledger _ _ _ Hl), <- Hv.
      apply Hnot. set_solver.
  - intros Hr. unfold down_rolled_back, Down in *.
    destruct (locked_run_past_lock false rival db
                (λ held, down_body exec_sql held dir false))
      as (Hs & Hj & Hres).
    { intros c'. rewrite Hr. split; discriminate. }
    cbv beta in Hs, Hj, Hres.
    rewrite Hres in Hr. rewrite Hs, Hj. clear Hs Hj Hres.
    unfold down_body in *.
    destruct (Load dir) as [ms|]; [|discriminate].
    destruct (last (store db)) as [w|]; [|discriminate].
    destruct (find_target w ms) as [t|]; [|discriminate].
    destruct (String.eqb (DownSQL t) ""); [discriminate|].
    destruct (revert_migration_fail _ _ _ _ _ _ _ Hr) as [Ha [(_ & Hx & Hj)|(He & _)]];
      [|discriminate].
    split; [exact Ha|]. exists t. split; [|exact Hj].
    destruct Hx as [Hx|[Hh Hx]]; [left; exact Hx|right].
    split; [apply String.eqb_eq, Hh|exact Hx].
Qed.

(** C10.  When the transaction of a pending migration fails in [Up], the
    pending migrations before it stay committed, each by a transaction of
    its own whose script succeeded, the store holding their effects and
    their rows as the engine gives them, and no later one is attempted;
    when scripts leave the control table alone, the versions committed
    before the failure are in the ledger and neither the failing nor a
    later one is. *)
Theorem C10_Up_keeps_partial_progress rival db dir e v :
  result (Up exec_sql rival db dir false) = Some e →
  migration_error e v →
  up_partial exec_sql rival db dir v.
Proof.
  intros Hr He.
  destruct (Up_failure_shape exec_sql rival db dir e v Hr He)
    as (files & pre & m & post & -> & Hp & Hv & Hb & Hm & Hs & Hj).
  destruct (run_all_ok_store _ _ _ Hb) as [Hst Hall].
  exists files, pre, m, post,
    (journal (apply_migration exec_sql (String.eqb (driver db) "sqlite3") m
                (after (run_all exec_sql pre (ensured (store db)))))).
  split_and!; auto.
  - destruct (apply_migration_fail _ _ _ _ _ Hm) as [_ [(_ & _ & ->)|(_ & _ & ->)]]; auto.
  - rewrite Hs. exact Hst.
  - intros Hstable.
    destruct (Up_failure_ledger exec_sql db files pre m post Hstable Hp Hb) as [Hl Hnot].
    split_and!.
    + rewrite Hs. exact Hl.
    + intros p Hp'. rewrite Hs, (applied_versions_ledger _ _ _ Hl).
      apply elem_of_union_l, elem_of_list_to_set, list_elem_of_fmap. eauto.
    + intros q Hq. rewrite Hs, (applied_versions_ledger _ _ _ Hl). auto.
Qed.

End C2_C10.

(** C10, as stated, fails: version 1 is applied and committed, the script
    of version 2 empties the control table before its own row is written,
    and the script of version 3 fails.  [Up] returns the error of version
    3; version 1 was processed earlier in the call and its table is there,
    but it is not recorded in the ledger. *)
Lemma C10_counterexample :
  let o := Up Meddler.exec 0 (Toy.fresh "postgres") Meddler.dir_wipe_then_fail false in
  result o = Some (ErrUpFailed 3 ErrDB) ∧
  journal o = [TxBegin; TxExec "+a"; TxInsert 1; TxCommit;
               TxBegin; TxExec "~"; TxInsert 2; TxCommit;
               TxBegin; TxExec "!"; TxRollback] ∧
  user (store (after o)) = ["a"] ∧
  applied_versions (store (after o)) = [2] ∧
  1 ∉ applied_versions (store (after o)).
Proof.
  split_and!; try (vm_compute; reflexivity).
  assert (applied_versions
            (store (after (Up Meddler.exec 0 (Toy.fresh "postgres")
                             Meddler.dir_wipe_then_fail false))) = [2]) as ->
    by (vm_compute; reflexivity).
  intros H. apply list_elem_of_singleton in H. discriminate.
Qed.

(** ** C3: [Up] is idempotent *)

Section Idempotence.
Context {U : Type}.
Variable exec_sql : Engine U.
Implicit Types (s : Store U) (db : DB U) (rows : gset Z) (h : bool).





Lemma elem_of_pending rows (ms : list Migration) m :
  m ∈ pending rows ms ↔ m ∈ ms ∧ Version m ∉ rows.
Proof.
  unfold pending. rewrite list_elem_of_In, List.filter_In, bool_decide_eq_true,
    <- list_elem_of_In. reflexivity.
Qed.


(** A real run of [Up] that returned [nil] has read the directory and
    applied every pending migration; with SQLite there was none, and the
    control table was there. *)
Lemma Up_success_shape rival db dir :
  result (Up exec_sql rival db dir false) = None →
  ∃ files,
    dir = Some files ∧
    let todo := pending (default ∅ (ledger (store db))) (load_files files) in
    result (run_all exec_sql todo (ensured (store db))) = None ∧
    store (after (Up exec_sql rival db dir false))
    = after (run_all exec_sql todo (ensured (store db))) ∧
    journal (Up exec_sql rival db dir false)
    = journal (run_all exec_sql todo (ensured (store db))) ∧
    (driver db = "sqlite3" → todo = [] ∧ is_Some (ledger (store db))).
Proof.
  intros Hr. unfold Up in *.
  destruct (locked_run_past_lock false rival db (λ held, up_body exec_sql held dir false))
    as (Hs & Hj & Hres).
  { intros c. rewrite Hr. split; discriminate. }
  cbv beta in Hs, Hj, Hres. rewrite Hres in Hr. rewrite Hs, Hj. clear Hs Hj Hres.
  destruct (up_body_cases exec_sql (held_in false rival db) dir false (store db))
    as [(_ & _ & Hb)|[Hh Hb]]; rewrite Hb in Hr |- *; [discriminate|].
  destruct dir as [files|]; [|discriminate].
  exists files. split; [reflexivity|]. cbv zeta.
  pose proof (run_under_ok _ _ _ _ Hr) as He. rewrite He in Hr |- *.
  split_and!; auto.
  intros Hd. apply String.eqb_eq in Hd. unfold held_in in *. rewrite Hd in *.
  split; [|auto]. apply (run_under_held_ok exec_sql _ (ensured (store db))).
  rewrite He. exact Hr.
Qed.




End Idempotence.


(** ** C4: [DownN] then [Up] *)

Section RoundTrip.
Context {U : Type}.
Variable exec_sql : Engine U.
Implicit Types (s : Store U) (db : DB U) (rows : gset Z).

Lemma Up_success_ledger rival db files :
  ledger_stable exec_sql →
  result (Up exec_sql rival db (Some files) false) = None →
  ledger (store (after (Up exec_sql rival db (Some files) false)))
  = Some (list_to_set
            (Version <$> pending (default ∅ (ledger (store db))) (load_files files))
          ∪ default ∅ (ledger (store db))).
Proof.
  intros Hst Hr.
  destruct (Up_success_shape _ _ _ _ Hr) as (files' & [= <-] & Hb & Hs & _).
  cbv zeta in *. rewrite Hs.
  apply (run_all_ok_ledger _ _ _ _ Hst Hb), ensured_ledger.
Qed.



End RoundTrip.


(** ** C5: the failures of [Down] and [DownN] found before any transaction *)

Section EarlyFailures.
Context {U : Type}.
Variable exec_sql : Engine U.
Implicit Types (s : Store U) (db : DB U) (rows : gset Z).

Lemma NoDup_fmap_same {A B} (f : A → B) (l : list A) x y :
  NoDup (f <$> l) → x ∈ l → y ∈ l → f x = f y → x = y.
Proof.
  induction l as [|a l IH]; [set_solver|].
  rewrite fmap_cons, NoDup_cons, !elem_of_cons.
  intros [Ha Hnd] [->|Hx] [->|Hy] Hf; auto.
  - exfalso. apply Ha. rewrite Hf. apply list_elem_of_fmap. eauto.
  - exfalso. apply Ha. rewrite <- Hf. apply list_elem_of_fmap. eauto.
Qed.

(** The map [DownN] looks its targets up in holds the loaded migration
    of each version. *)
Lemma migration_map_complete (ms : list Migration) t :
  t ∈ ms → is_Some (migration_map ms !! Version t).
Proof.
  unfold migration_map. generalize (∅ : gmap Z Migration).
  induction ms as [|m ms IH]; intros acc; [set_solver|].
  rewrite elem_of_cons. simpl. intros [->|Hin]; [|apply IH, Hin].
  clear IH. assert (is_Some (<[Version m := m]> acc !! Version m)) as H
    by (rewrite lookup_insert_eq; eauto).
  revert H. generalize (<[Version m := m]> acc). generalize (Version m).
  induction ms as [|m' ms IH]; intros v acc' H; simpl; [exact H|].
  apply IH. destruct (decide (Version m' = v)) as [->|Hne].
  - rewrite lookup_insert_eq. eauto.
  - rewrite lookup_insert_ne by exact Hne. exact H.
Qed.

Lemma migration_map_missing files v :
  (migration_map (load_files files) !! v = None ∨
   ∃ t, migration_map (load_files files) !! v = Some t ∧ DownSQL t = "") →
  ∀ t, t ∈ load_files files → Version t = v → DownSQL t = "".
Proof.
  intros H t Ht Hv. destruct H as [H|(t' & H & Hd)].
  - destruct (migration_map_complete _ _ Ht) as [x Hx]. congruence.
  - destruct (migration_map_lookup _ _ _ H) as [Ht' Hv'].
    rewrite (NoDup_fmap_same Version (load_files files) t t'); auto.
    + apply load_files_NoDup.
    + congruence.
Qed.

(** The targets the loop of [DownN] found for a list of versions are
    loaded migrations of these versions, each with a revert script. *)
Lemma loop_targets (ms : list Migration) (vs : list Z) (targets : list Migration) :
  Forall2 (λ v t, migration_map ms !! v = Some t ∧ DownSQL t ≠ "") vs targets →
  Version <$> targets = vs ∧ Forall (λ t, t ∈ ms ∧ DownSQL t ≠ "") targets.
Proof.
  induction 1 as [|v t vs targets [Hv Hd] _ [IH1 IH2]]; [split; [reflexivity|constructor]|].
  destruct (migration_map_lookup _ _ _ Hv) as [Hin Hver].
  rewrite fmap_cons, IH1, Hver. split; [reflexivity|constructor; auto].
Qed.

(** With scripts that leave the control table alone, the reverts take
    the rows of their versions off the ledger, and nothing else. *)
Lemma reverted_all_ledger (targets : list Migration) s rows :
  ledger_stable exec_sql →
  ledger s = Some rows →
  ledger (reverted_all exec_sql targets s)
  = Some (rows ∖ list_to_set (Version <$> targets)).
Proof.
  intros Hst. revert s rows. induction targets as [|t ts IH]; intros s rows Hl.
  - simpl. rewrite Hl. f_equal. set_solver.
  - change (reverted_all exec_sql (t :: ts) s)
      with (reverted_all exec_sql ts (reverted_store exec_sql t s)).
    rewrite (IH _ (rows ∖ {[Version t]})).
    + f_equal. set_solver.
    + unfold reverted_store. cbn [ledger]. rewrite (Hst (DownSQL t) s), Hl. reflexivity.
Qed.

(** C5, as amended.  [Down] failing with NothingToRevert or
    MissingRevertScript, and [DownN] failing with NothingToRevert, have
    opened no transaction and leave the store (ledger and user objects)
    unchanged.  [DownN] failing with MissingRevertScript has opened no
    transaction for the target that lacks the script, but has reverted the
    more recent targets, each in a committed transaction whose script
    succeeded: the store holds what the engine makes of their scripts,
    without their rows; see [downN_stopped]. *)
Theorem C5_failures_before_the_transaction rival db dir steps dryRun e :
  (result (Down exec_sql rival db dir dryRun) = Some e →
   kind_of e = NothingToRevert ∨ kind_of e = MissingRevertScript →
   journal (Down exec_sql rival db dir dryRun) = [] ∧
   store (after (Down exec_sql rival db dir dryRun)) = store db) ∧
  (result (DownN exec_sql rival db dir steps dryRun) = Some e →
   kind_of e = NothingToRevert →
   journal (DownN exec_sql rival db dir steps dryRun) = [] ∧
   store (after (DownN exec_sql rival db dir steps dryRun)) = store db) ∧
  (result (DownN exec_sql rival db dir steps dryRun) = Some e →
   kind_of e = MissingRevertScript →
   downN_stopped exec_sql rival db dir steps dryRun).
Proof.
  split_and!.
  - intros Hr Hk. unfold Down in *.
    destruct (locked_run_cases dryRun rival db
                (λ held, down_body exec_sql held dir dryRun))
      as [(_ & Hj & Hs & _)|(Hs & Hj & Hres)]; [auto|].
    cbv beta in Hs, Hj, Hres.
    rewrite Hres in Hr. rewrite Hs, Hj. clear Hs Hj Hres.
    unfold down_body in *.
    destruct (Load dir) as [ms|]; [|auto].
    destruct (last (store db)) as [w|]; [|auto].
    destruct (find_target w ms) as [t|]; [|auto].
    destruct (String.eqb (DownSQL t) ""); [auto|].
    destruct dryRun; [discriminate|].
    destruct (revert_migration_fail _ _ _ _ _ _ _ Hr) as [_ [[-> _]|[-> _]]];
      destruct Hk; discriminate.
  - intros Hr Hk. unfold DownN in *.
    destruct (steps <? 1); [auto|].
    destruct (locked_run_cases dryRun rival db
                (λ held, downN_body exec_sql held dir steps dryRun))
      as [(_ & Hj & Hs & _)|(Hs & Hj & Hres)]; [auto|].
    cbv beta in Hs, Hj, Hres.
    rewrite Hres in Hr. rewrite Hs, Hj. clear Hs Hj Hres.
    unfold downN_body in *.
    destruct (Load dir) as [ms|]; [|auto].
    destruct (applied (store db)) as [vs|]; [|auto].
    destruct (_ =? _)%nat; [auto|].
    destruct (_ <? _); [auto|].
    destruct (downN_loop_errors _ _ _ _ _ _ _ Hr) as [H|[H|H]]; congruence.
  - intros Hr Hk. unfold downN_stopped, DownN in *.
    destruct (steps <? 1); [injection Hr as <-; discriminate|].
    destruct (locked_run_past_lock dryRun rival db
                (λ held, downN_body exec_sql held dir steps dryRun)) as (Hs & Hj & Hres).
    { intros c. rewrite Hr. split; intros [= ->]; [discriminate|].
      destruct (kind_of_lock_error c) as [H|[H|H]]; congruence. }
    cbv beta in Hs, Hj, Hres.
    rewrite Hres in Hr. rewrite Hs, Hj. clear Hs Hj Hres.
    unfold downN_body, applied in *.
    destruct dir as [files|]; [|injection Hr as <-; discriminate]. simpl in Hr |- *.
    destruct (ledger (store db)) as [rows|] eqn:Hl;
      [|injection Hr as <-; discriminate].
    destruct (_ =? _)%nat; [injection Hr as <-; discriminate|].
    destruct (_ <? _); [injection Hr as <-; discriminate|].
    destruct (downN_loop_missing _ _ _ _ _ _ _ Hr Hk)
      as (pre & v & post & Hvs & Hp & Hm & Ha & Hj).
    destruct (downN_loop_ok _ _ _ _ _ _ Hp) as (passed & Hall & Hdone).
    destruct (loop_targets _ _ _ Hall) as [Hver Hin].
    exists files, rows, passed, v, post. cbv zeta. rewrite Ha, Hj.
    split_and!; auto.
    + rewrite Hver. exact Hvs.
    + apply migration_map_missing, Hm.
    + destruct dryRun.
      * destruct Hdone as [-> ->]. auto.
      * destruct Hdone as (-> & -> & Hrev & _). split_and!; auto.
        intros Hst. apply reverted_all_ledger; auto.
    + intros ->. simpl in Hver. subst pre. auto.
Qed.

End EarlyFailures.

(** C5, as stated, fails for [DownN]: versions 1 and 2 are applied, 2 has a
    revert script and 1 has none; [DownN 2] reverts 2 in a committed
    transaction and only then finds the revert script of 1 missing. *)
Lemma C5_counterexample :
  let dir := Toy.dir_no_revert in
  let db0 := Toy.db_ab in
  let o := DownN Toy.exec 0 db0 dir 2 false in
  result o = Some (ErrNoDownScript 1) ∧
  kind_of (ErrNoDownScript 1) = MissingRevertScript ∧
  journal o = [TxBegin; TxExec "-b"; TxDelete 2; TxCommit] ∧
  applied_versions (store db0) = [1; 2] ∧
  applied_versions (store (after o)) = [1] ∧
  user (store (after o)) = ["a"] ∧
  store (after o) ≠ store db0.
Proof. split_and!; vm_compute; first [reflexivity | discriminate]. Qed.

(** ** C6: [Down] reverts the most recently applied migration, except with SQLite *)

Section DownSpec.
Context {U : Type}.
Variable exec_sql : Engine U.
Implicit Types (s : Store U) (db : DB U) (rows : gset Z).

Lemma last_of_greatest s rows v :
  ledger s = Some rows → greatest rows v → last s = inl v.
Proof.
  intros Hl [Hin Hmax]. destruct (last s) as [w|e] eqn:E.
  - destruct (last_greatest _ _ E) as (rows' & Hl' & Hw & Hmax').
    assert (rows' = rows) as -> by congruence.
    f_equal. specialize (Hmax w Hw). specialize (Hmax' v Hin). lia.
  - assert (applied_versions s = []) as H by (apply last_error; eauto).
    unfold applied_versions, applied in H. rewrite Hl in H.
    apply rows_sorted_nil in H. set_solver.
Qed.

Lemma find_target_spec v (ms : list Migration) :
  match find_target v ms with
  | Some t => t ∈ ms ∧ Version t = v
  | None => ∀ m, m ∈ ms → Version m ≠ v
  end.
Proof.
  unfold find_target. destruct (List.find _ ms) as [t|] eqn:E.
  - apply List.find_some in E as [Hin Hv]. rewrite list_elem_of_In. split; [auto|lia].
  - intros m Hm. apply list_elem_of_In in Hm.
    pose proof (List.find_none _ _ E m Hm) as H. simpl in H. lia.
Qed.

(** What a real run of [Down] that holds the lock does: see
    [down_contract]. *)
Lemma Down_contract rival db files :
  lock_acquired rival db → down_contract exec_sql rival db files.
Proof.
  intros Hacq. unfold down_contract, Down.
  destruct (locked_run_acquired rival db
              (λ held, down_body exec_sql held (Some files) false) Hacq)
    as (-> & -> & ->). cbv beta.
  unfold down_body. simpl Load. cbv iota. split.
  - intros Hnil. apply last_error in Hnil as [e ->]. simpl. auto.
  - intros rows v Hl Hg. rewrite (last_of_greatest _ _ _ Hl Hg).
    pose proof (find_target_spec v (load_files files)) as Hf.
    split.
    + intros Hmiss. destruct (find_target v (load_files files)) as [t|]; [|simpl; auto].
      destruct Hf as [Hin Hv]. rewrite (Hmiss t Hin Hv). simpl. auto.
    + intros t Hin Hv Hd.
      destruct (find_target v (load_files files)) as [t'|].
      2:{ exfalso. apply (Hf t Hin Hv). }
      destruct Hf as [Hin' Hv'].
      assert (t' = t) as ->.
      { apply (NoDup_fmap_same Version (load_files files)); auto.
        - apply load_files_NoDup.
        - congruence. }
      apply String.eqb_neq in Hd. rewrite Hd.
      destruct (String.eqb_spec (driver db) "sqlite3") as [Hlite|Hother].
      * unfold revert_migration, tx_exec, tx_delete, Beginx, Rollback. simpl.
        destruct (writes exec_sql (DownSQL t) (store db)); simpl.
        -- split_and!; try discriminate; auto; try contradiction.
        -- destruct (exec_sql (DownSQL t) (store db)) as [w ok].
           destruct ok; simpl; rewrite ?Hv;
             (split_and!; try discriminate; auto; try contradiction);
             try (intros _; split_and!; auto; discriminate).
      * unfold revert_migration, tx_exec, tx_delete, delete_version, Beginx, Rollback,
          Commit. simpl.
        destruct (exec_sql (DownSQL t) (store db)) as [w ok] eqn:Ex.
        assert (ledger_stable exec_sql → ledger w = ledger (store db)) as Hsame.
        { intros Hst. specialize (Hst (DownSQL t) (store db)). rewrite Ex in Hst.
          exact Hst. }
        destruct ok; simpl.
        -- destruct (ledger w) as [rows'|] eqn:Hw; simpl.
           ++ rewrite Hv. split_and!; try discriminate; auto; try contradiction.
              intros _. split_and!; try discriminate; auto.
              ** intros w' rows'' [= <-] Hw'. rewrite Hw in Hw'. injection Hw' as <-. auto.
              ** intros Hst _. specialize (Hsame Hst). rewrite Hl in Hsame.
                 injection Hsame as ->. reflexivity.
           ++ split_and!; try discriminate; auto; try contradiction.
              intros _. split_and!; try discriminate; auto.
              intros w' rows'' [= <-] Hw'. congruence.
        -- split_and!; try discriminate; auto; try contradiction.
           intros _. split_and!; try discriminate; auto.
Qed.

End DownSpec.

(** C6.  A real run of [Down] that holds the lock and has read the
    directory fails with NothingToRevert on an empty ledger; otherwise it
    takes the highest version of the ledger and fails with
    MissingRevertScript when the loaded migration of that version is
    absent or has no revert script.  Else, with Postgres or MySQL, it runs
    the revert script and deletes the row of that version in one
    transaction.  With SQLite it does not: the locker of the run keeps the
    write lock in a transaction of its own until [Unlock], the revert
    script is refused at its first write, and [Down] returns "error
    ejecutando down migration" with nothing reverted; so on the database of
    the tests with versions 1 and 2 applied, where the same call with
    Postgres reverts version 2. *)
Theorem C6_Down_reverts_the_latest_but_not_on_sqlite :
  (∀ U (exec_sql : Engine U) rival (db : DB U) files,
     lock_acquired rival db → down_contract exec_sql rival db files) ∧
  kind_of ErrNoMigrationToRollback = NothingToRevert ∧
  kind_of ErrNoDownFound = MissingRevertScript ∧
  lock_acquired 0 Samples.db_lite ∧
  result (Down Toy.exec 0 Samples.db_lite Toy.dir123 false) = Some (ErrDownExec ErrDB) ∧
  journal (Down Toy.exec 0 Samples.db_lite Toy.dir123 false)
  = [TxBegin; TxExec "-posts"; TxRollback] ∧
  after (Down Toy.exec 0 Samples.db_lite Toy.dir123 false) = Samples.db_lite ∧
  result (Down Toy.exec 0 Toy.db_12 Toy.dir123 false) = None ∧
  store (after (Down Toy.exec 0 Toy.db_12 Toy.dir123 false))
  = mkStore ["users"] (Some {[1]}).
Proof.
  split_and!.
  - intros U exec_sql rival db files. apply Down_contract.
  - reflexivity.
  - reflexivity.
  - eexists _, _, _. split; vm_compute; reflexivity.
  - vm_compute. reflexivity.
  - vm_compute. reflexivity.
  - vm_compute. reflexivity.
  - vm_compute. reflexivity.
  - vm_compute. reflexivity.
Qed.

(** ** C9: the postcondition of [Load] *)

(** C9.  For a readable directory [Load] returns the migrations in
    strictly ascending order of version, one for each version carried by a
    readable SQL file and no other; the entry of a version is the merge of
    the files of that version (name from the first, apply half and revert
    half from the last file carrying each); files without the SQL
    extension, and unreadable ones, change nothing.  The version of a file
    is 0 when [Atoi] rejects its token as malformed.  It is not 0 when
    [Atoi] rejects the token as out of range: the error is dropped and the
    value kept, which is the bound of the 64-bit integers on the side of
    the number written; so the file [99999999999999999999_big.up.sql],
    whose token does not parse, is loaded as version 9223372036854775807. *)
Theorem C9_Load_postcondition files :
  Load (Some files) = Some (load_files files) ∧
  StronglySorted Z.lt (Version <$> load_files files) ∧
  (∀ m, m ∈ load_files files ↔
        files_of (Version m) files ≠ [] ∧ m = merged (Version m) files) ∧
  (∀ v, files_of v files ≠ [] → merged v files ∈ load_files files) ∧
  load_files (List.filter (λ f, is_sql (fname f)) files) = load_files files ∧
  load_files (List.filter (λ f, bool_decide (is_Some (fdata f))) files)
  = load_files files ∧
  (∀ name x e,
     Strconv.Atoi (hd EmptyString (parts_of name)) = (x, Some e) →
     (e = Strconv.ErrSyntax ∧ file_version name = 0) ∨
     (e = Strconv.ErrRange ∧
      file_version name = Strconv.nearest_bound (hd EmptyString (parts_of name)) ∧
      file_version name ≠ 0)) ∧
  Strconv.Atoi "99999999999999999999" = (Strconv.maxInt64, Some Strconv.ErrRange) ∧
  Strconv.Atoi "-99999999999999999999" = (Strconv.minInt64, Some Strconv.ErrRange) ∧
  Load (Some [mkEntry "99999999999999999999_big.up.sql" (Some "A")])
  = Some [mkMigration 9223372036854775807 "big" "A" ""].
Proof.
  split_and!.
  - reflexivity.
  - apply load_files_ascending.
  - intros m. rewrite elem_of_load_files, load_map_lookup.
    destruct (files_of (Version m) files); split.
    + discriminate.
    + intros [H _]. contradiction.
    + intros [= <-]. split; [discriminate|reflexivity].
    + intros [_ ->]. reflexivity.
  - intros v Hv. apply elem_of_load_files. rewrite load_map_lookup. simpl.
    destruct (files_of v files); [contradiction|reflexivity].
  - unfold load_files. rewrite load_map_ignores_non_sql. reflexivity.
  - unfold load_files. rewrite load_map_skips_unreadable. reflexivity.
  - intros name x e H. unfold file_version. rewrite H. simpl.
    destruct (Atoi_error _ _ _ H) as [?|[-> ->]]; [auto|right].
    split_and!; auto.
    unfold Strconv.nearest_bound.
    destruct (hd EmptyString (parts_of name)) as [|c s]; [discriminate|].
    destruct c as [[] [] [] [] [] [] [] []]; discriminate.
  - vm_compute. reflexivity.
  - vm_compute. reflexivity.
  - vm_compute. reflexivity.
Qed.

(** The file of C9 at work: its token does not parse as an [int] ([Atoi]
    returns a range error), and the file contributes to version
    9223372036854775807, not to version 0. *)
Lemma C9_counterexample :
  let name := "99999999999999999999_big.up.sql" in
  hd EmptyString (parts_of name) = "99999999999999999999" ∧
  snd (Strconv.Atoi "99999999999999999999") = Some Strconv.ErrRange ∧
  Load (Some [mkEntry name (Some "A")])
  = Some [mkMigration 9223372036854775807 "big" "A" ""] ∧
  file_version name ≠ 0.
Proof. split_and!; vm_compute; first [reflexivity | discriminate]. Qed.

(** ** The properties at work on the small engine *)



Lemma toy_lock_acquired (db : DB (list string)) :
  driver db = "postgres" → lock_acquired 0 db.
Proof.
  intros Hd. exists (mkLocker PostgresLocker false), (mkLocker PostgresLocker true), db.
  unfold NewLocker. rewrite Hd. split; reflexivity.
Qed.

(** The failing third statement of [TestTransactionalRollback] leaves
    neither table nor ledger row; a revert script failing in [Down] leaves
    the ledger row. *)
Lemma C2_witness :
  result (Up Toy.exec 0 (Toy.fresh "postgres") Toy.dir_failing false)
  = Some (ErrUpFailed 1 ErrDB) ∧
  up_rolled_back Toy.exec 0 (Toy.fresh "postgres") Toy.dir_failing 1 ∧
  result (Down Toy.exec 0 Toy.db_broken Toy.dir123 false) = Some (ErrDownExec ErrDB) ∧
  down_rolled_back Toy.exec 0 Toy.db_broken Toy.dir123.
Proof.
  split; [vm_compute; reflexivity|]. split.
  - apply (C2_failed_script_is_rolled_back Toy.exec 0 (Toy.fresh "postgres")
             Toy.dir_failing 1 ErrDB).
    vm_compute. reflexivity.
  - split; [vm_compute; reflexivity|].
    apply (C2_failed_script_is_rolled_back Toy.exec 0 Toy.db_broken Toy.dir123 1 ErrDB).
    vm_compute. reflexivity.
Defined.




(** [Down] on an empty ledger, [DownN] on an empty ledger, and [DownN]
    meeting a missing revert script after one committed revert. *)
Lemma C5_witness :
  let empty : DB (list string) := mkDB "postgres" (mkStore [] (Some ∅)) None in
  (result (Down Toy.exec 0 empty Toy.dir123 false) = Some ErrNoMigrationToRollback ∧
   journal (Down Toy.exec 0 empty Toy.dir123 false) = [] ∧
   store (after (Down Toy.exec 0 empty Toy.dir123 false)) = store empty) ∧
  (result (DownN Toy.exec 0 empty Toy.dir123 1 false) = Some ErrNothingToRevert ∧
   journal (DownN Toy.exec 0 empty Toy.dir123 1 false) = [] ∧
   store (after (DownN Toy.exec 0 empty Toy.dir123 1 false)) = store empty) ∧
  (result (DownN Toy.exec 0 Toy.db_ab Toy.dir_no_revert 2 false)
   = Some (ErrNoDownScript 1) ∧
   downN_stopped Toy.exec 0 Toy.db_ab Toy.dir_no_revert 2 false).
Proof.
  intros empty.
  pose proof (C5_failures_before_the_transaction Toy.exec 0 empty Toy.dir123 1 false
                ErrNoMigrationToRollback) as (HDown & _ & _).
  pose proof (C5_failures_before_the_transaction Toy.exec 0 empty Toy.dir123 1 false
                ErrNothingToRevert) as (_ & HNothing & _).
  pose proof (C5_failures_before_the_transaction Toy.exec 0 Toy.db_ab Toy.dir_no_revert
                2 false (ErrNoDownScript 1)) as (_ & _ & HMissing).
  split; [|split].
  - split; [vm_compute; reflexivity|].
    apply HDown; [vm_compute; reflexivity|left; reflexivity].
  - split; [vm_compute; reflexivity|].
    apply HNothing; [vm_compute; reflexivity|reflexivity].
  - split; [vm_compute; reflexivity|].
    apply HMissing; [vm_compute; reflexivity|reflexivity].
Defined.

(** A malformed token and a token out of range. *)
Lemma C9_witness :
  Strconv.Atoi (hd EmptyString (parts_of "abc_x.up.sql")) = (0, Some Strconv.ErrSyntax) ∧
  ((Strconv.ErrSyntax = Strconv.ErrSyntax ∧ file_version "abc_x.up.sql" = 0) ∨
   (Strconv.ErrSyntax = Strconv.ErrRange ∧
    file_version "abc_x.up.sql"
    = Strconv.nearest_bound (hd EmptyString (parts_of "abc_x.up.sql")) ∧
    file_version "abc_x.up.sql" ≠ 0)).
Proof.
  split; [vm_compute; reflexivity|].
  destruct (C9_Load_postcondition []) as (_ & _ & _ & _ & _ & _ & H & _).
  apply (H "abc_x.up.sql" 0 Strconv.ErrSyntax). vm_compute. reflexivity.
Defined.

(** [TestUpWithError]: three migrations committed, the invalid fourth one
    rolled back. *)
Lemma C10_witness :
  result (Up Toy.exec 0 (Toy.fresh "postgres") Toy.dir_invalid_last false)
  = Some (ErrUpFailed 99 ErrDB) ∧
  migration_error (ErrUpFailed 99 ErrDB) 99 ∧
  up_partial Toy.exec 0 (Toy.fresh "postgres") Toy.dir_invalid_last 99.
Proof.
  split; [vm_compute; reflexivity|].
  split; [left; reflexivity|].
  apply (C10_Up_keeps_partial_progress Toy.exec 0 (Toy.fresh "postgres")
           Toy.dir_invalid_last (ErrUpFailed 99 ErrDB) 99).
  - vm_compute. reflexivity.
  - left. reflexivity.
Defined.

(** * Beyond the claims: the runner *)

Section RunnerMore.
Context {U : Type}.
Variable exec_sql : Engine U.
Implicit Types (s : Store U) (db : DB U) (rows : gset Z) (h : bool).

Lemma pending_ascending rows (ms : list Migration) :
  StronglySorted Z.lt (Version <$> ms) →
  StronglySorted Z.lt (Version <$> pending rows ms).
Proof.
  unfold pending. induction ms as [|m ms IH]; cbn [List.filter]; [auto|].
  rewrite fmap_cons. intros H. apply StronglySorted_inv in H as [Hs Hall].
  destruct (bool_decide _); [|auto].
  rewrite fmap_cons. constructor; [auto|].
  rewrite Forall_forall in *. intros x Hx. apply Hall.
  apply list_elem_of_fmap in Hx as (y & -> & Hy).
  apply list_elem_of_In, List.filter_In in Hy as [Hy _].
  apply list_elem_of_fmap. exists y. split; [reflexivity|]. apply list_elem_of_In, Hy.
Qed.

(** X1.  A real run of [Up] that returns [nil] has applied exactly the
    loaded migrations whose version was not in the ledger, in ascending
    order of version, each in one committed transaction (begin, script,
    ledger row, commit), and nothing else; each script succeeded and the
    store holds what the engine makes of them; the ledger then holds every
    loaded version on top of what it held, whether or not those versions
    are above the ones applied before. *)
Theorem X1_Up_applies_the_pending_in_order rival db files :
  result (Up exec_sql rival db (Some files) false) = None →
  up_done exec_sql rival db files.
Proof.
  intros Hr. unfold up_done.
  destruct (Up_success_shape _ _ _ _ Hr) as (files' & [= <-] & Hb & Hs & Hj & _).
  cbv zeta in *. destruct (run_all_ok_store _ _ _ Hb) as [Hst Hall].
  split_and!.
  - rewrite Hj. apply run_all_ok_journal, Hb.
  - apply pending_ascending, load_files_ascending.
  - intros m. apply elem_of_pending.
  - exact Hall.
  - rewrite Hs. exact Hst.
  - intros Hstable. rewrite (Up_success_ledger _ _ _ _ Hstable Hr). f_equal.
    apply set_eq. intros x.
    rewrite !elem_of_union, !elem_of_list_to_set, !list_elem_of_fmap. split.
    + intros [(m & -> & Hm)|Hx]; [|auto]. apply elem_of_pending in Hm as [Hm _]. eauto.
    + intros [(m & -> & Hm)|Hx]; [|auto].
      destruct (decide (Version m ∈ default ∅ (ledger (store db)))); [auto|].
      left. exists m. split; [reflexivity|]. apply elem_of_pending. auto.
Qed.

(** *** The loop of [DownN], once more *)


(** *** The ledger without its last versions *)

Lemma rows_sorted_NoDup rows : NoDup (rows_sorted rows).
Proof. rewrite rows_sorted_perm. apply NoDup_elements. Qed.




End RunnerMore.

Section RunnerEdges.
Context {U : Type}.
Variable exec_sql : Engine U.
Implicit Types (s : Store U) (db : DB U) (rows : gset Z) (h : bool).

(** X3.  [DownN] checks its step count first and the size of the ledger
    before its loop: with a count below 1 it returns "steps debe ser mayor
    a 0" without taking the lock or reading anything, the database being
    left exactly as it was; with a count above the number of applied
    versions (the lock held, the directory read, the ledger not empty) it
    returns "solo hay ... aplicada(s)" with that number, having opened no
    transaction and changed nothing in the store. *)
Theorem X3_DownN_checks_its_step_count rival db dir steps dryRun :
  (steps < 1 →
   DownN exec_sql rival db dir steps dryRun = mkOutcome db [] (Some ErrSteps)) ∧
  (∀ files rows,
     lock_acquired rival db → dir = Some files → ledger (store db) = Some rows →
     rows ≠ ∅ → Z.of_nat (size rows) < steps →
     result (DownN exec_sql rival db dir steps false)
     = Some (ErrInsufficient (size rows) steps) ∧
     journal (DownN exec_sql rival db dir steps false) = [] ∧
     store (after (DownN exec_sql rival db dir steps false)) = store db).
Proof.
  split.
  - intros H. unfold DownN. destruct (Z.ltb_spec steps 1); [reflexivity|lia].
  - intros files rows Hacq -> Hl Hne Hlt. unfold DownN.
    destruct (Z.ltb_spec steps 1) as [|_]; [lia|].
    destruct (locked_run_acquired rival db
                (λ held, downN_body exec_sql held (Some files) steps false) Hacq)
      as (-> & -> & ->). cbv beta.
    unfold downN_body, applied. rewrite Hl. cbn [Load].
    rewrite rows_sorted_length.
    destruct (Nat.eqb_spec (size rows) 0) as [H0|_].
    { apply size_empty_iff in H0. exfalso. apply Hne. apply leibniz_equiv, H0. }
    destruct (Z.ltb_spec (Z.of_nat (size rows)) steps); [|lia].
    auto.
Qed.


(** *** [Down] and [DownN 1] *)

Lemma locked_run_agree dryRun rival db (b1 b2 : bool → Store U → Outcome (Store U)) :
  (∀ h s, agree (b1 h s) (b2 h s)) →
  agree (locked_run dryRun rival db b1) (locked_run dryRun rival db b2).
Proof.
  intros H. unfold locked_run, agree.
  destruct dryRun; simpl.
  - destruct (H (write_refused db rival) (store db)) as (-> & -> & Hr). auto.
  - destruct (NewLocker db) as [l|e]; simpl; [|tauto].
    destruct (Lock l 30 rival db) as [[l1 db1] [e|]]; simpl; [tauto|].
    destruct (H (holds_write_lock l1) (store db1)) as (-> & -> & Hr). auto.
Qed.

Lemma revert_migration_agree h fe fd fe' fd' t s :
  agree (revert_migration exec_sql h fe fd t s)
        (revert_migration exec_sql h fe' fd' t s).
Proof.
  unfold agree, revert_migration, tx_exec, tx_delete, Beginx. simpl.
  destruct (h && writes exec_sql (DownSQL t) s); simpl.
  { split_and!; auto; split; discriminate. }
  destruct (exec_sql (DownSQL t) s) as [w ok]. destruct ok; simpl.
  - destruct h; simpl; [split_and!; auto; split; discriminate|].
    destruct (delete_version (Version t) w); simpl; split_and!; auto;
      split; discriminate.
  - split_and!; auto; split; discriminate.
Qed.

Lemma migration_map_find (ms : list Migration) v :
  NoDup (Version <$> ms) → migration_map ms !! v = find_target v ms.
Proof.
  intros Hnd. pose proof (find_target_spec v ms) as Hf.
  destruct (find_target v ms) as [t|].
  - destruct Hf as [Hin Hv].
    destruct (migration_map_complete _ _ Hin) as [t' Ht']. rewrite Hv in Ht'.
    destruct (migration_map_lookup _ _ _ Ht') as [Hin' Hv'].
    rewrite Ht'. f_equal. apply (NoDup_fmap_same Version ms); auto. congruence.
  - destruct (migration_map ms !! v) as [t|] eqn:E; [|reflexivity].
    destruct (migration_map_lookup _ _ _ E) as [Hin Hv]. exfalso. eapply Hf; eauto.
Qed.

Lemma down_body_is_downN_1 h dir dryRun s :
  agree (down_body exec_sql h dir dryRun s) (downN_body exec_sql h dir 1 dryRun s).
Proof.
  unfold down_body, downN_body, last, applied.
  destruct (Load dir) as [ms|] eqn:EL; [|unfold agree; simpl; split_and!; auto;
                                         split; discriminate].
  destruct (ledger s) as [rows|]; [|unfold agree; simpl; split_and!; auto;
                                     split; discriminate].
  unfold to_revert. rewrite reverse_drop.
  destruct (rows_sorted rows) as [|x l] eqn:El.
  { simpl. unfold agree; simpl; split_and!; auto; split; discriminate. }
  assert (length (reverse (x :: l)) = S (length l)) as Hlen
    by (rewrite length_reverse; reflexivity).
  destruct (reverse (x :: l)) as [|v rest]; [discriminate|].
  replace (length (x :: l) - (length (x :: l) - Z.to_nat 1))%nat with 1%nat
    by (simpl; lia).
  cbn [length Nat.eqb take].
  destruct (Z.ltb_spec (Z.of_nat (S (length l))) 1) as [|_]; [lia|].
  cbn [downN_loop].
  assert (ms = load_files (default [] dir)) as Hms.
  { destruct dir; simpl in EL; [|discriminate]. injection EL as <-. reflexivity. }
  rewrite migration_map_find by (rewrite Hms; apply load_files_NoDup).
  destruct (find_target v ms) as [t|];
    [|unfold agree; simpl; split_and!; auto; split; discriminate].
  destruct (String.eqb (DownSQL t) "");
    [unfold agree; simpl; split_and!; auto; split; discriminate|].
  destruct dryRun; [unfold agree; simpl; tauto|].
  pose proof (revert_migration_agree h ErrDownExec ErrDeleteRow
                (ErrDownExecN (Version t)) (ErrDeleteRowN (Version t)) t s)
    as (Ha & Hj & Hr).
  unfold agree, and_then.
  destruct (result (revert_migration exec_sql h (ErrDownExecN (Version t)) _ t s))
    as [e|] eqn:E.
  - rewrite E. auto.
  - simpl. rewrite app_nil_r. auto.
Qed.

(** X5.  [Down] is [DownN] with one step: on every database, directory,
    rival and mode the two calls leave the same database and the same
    journal, and both return [nil] or both return an error (not always the
    same one). *)
Theorem X5_Down_is_DownN_with_one_step rival db dir dryRun :
  agree (Down exec_sql rival db dir dryRun) (DownN exec_sql rival db dir 1 dryRun).
Proof.
  unfold Down, DownN. change (1 <? 1) with false. cbv iota.
  apply locked_run_agree. intros h s. apply down_body_is_downN_1.
Qed.

End RunnerEdges.

(** * Beyond the claims: the lock and the dry run *)

Section LockMore.
Context {U : Type}.
Variable exec_sql : Engine U.
Implicit Types (s : Store U) (db : DB U) (rows : gset Z) (h : bool).







(** X7.  With a driver other than "postgres", "mysql" and "sqlite3" every
    real run fails at [NewLocker] with "driver no soportado para locking"
    and leaves the database exactly as it was, while a dry run of [Up],
    which makes no locker, still returns [nil] on a readable directory. *)
Theorem X7_unknown_driver rival db dir :
  driver db ≠ "postgres" → driver db ≠ "mysql" → driver db ≠ "sqlite3" →
  let e := ErrCreateLocker (ErrUnsupportedDriver (driver db)) in
  Up exec_sql rival db dir false = mkOutcome db [] (Some e) ∧
  Down exec_sql rival db dir false = mkOutcome db [] (Some e) ∧
  (∀ steps, 1 ≤ steps →
            DownN exec_sql rival db dir steps false = mkOutcome db [] (Some e)) ∧
  (∀ files, result (Up exec_sql rival db (Some files) true) = None).
Proof.
  intros H1 H2 H3 e.
  assert (NewLocker db = inr (ErrUnsupportedDriver (driver db))) as Hn.
  { unfold NewLocker. apply String.eqb_neq in H1, H2, H3. rewrite H1, H2, H3.
    reflexivity. }
  split_and!.
  - unfold Up, locked_run. rewrite Hn. reflexivity.
  - unfold Down, locked_run. rewrite Hn. reflexivity.
  - intros steps Hs. unfold DownN, locked_run.
    destruct (Z.ltb_spec steps 1); [lia|]. rewrite Hn. reflexivity.
  - intros files. destruct (Up_dry exec_sql rival db (Some files)) as (_ & _ & ->).
    unfold table_refused, write_refused. apply String.eqb_neq in H3. rewrite H3.
    reflexivity.
Qed.


(** What is released was never taken: after a failed [Lock] the locker is
    as it was, unlocked, and [Unlock] on it does nothing. *)
Lemma Lock_failure_leaves_unlocked (k : LockerKind) ctx rival db l1 db1 e :
  Lock (mkLocker k false) ctx rival db = (l1, db1, Some e) →
  l1 = mkLocker k false ∧ Unlock l1 db1 = (l1, db1).
Proof.
  intros HL.
  destruct (Lock_shape (mkLocker k false) ctx rival db l1 db1 (Some e) eq_refl HL)
    as (Hk & Hl & Hdb).
  assert (l1 = mkLocker k false) as ->.
  { destruct l1 as [k' b]. simpl in Hk, Hl. subst. reflexivity. }
  split; reflexivity.
Qed.

End LockMore.

Section DryRunMore.
Context {U : Type}.
Variable exec_sql : Engine U.
Implicit Types (s : Store U) (db : DB U) (rows : gset Z) (h : bool).

(** When the dry loop of [DownN] gets through, the real loop can only stop
    in a transaction. *)
Lemma downN_loop_after_dry h h' mp vs s s' e :
  result (downN_loop exec_sql h' true mp vs s) = None →
  result (downN_loop exec_sql h false mp vs s') = Some e →
  revert_error e.
Proof.
  revert s'. induction vs as [|v vs IH]; intros s'; simpl; [discriminate|].
  destruct (mp !! v) as [t|]; simpl; [|discriminate].
  destruct (String.eqb (DownSQL t) ""); simpl; [discriminate|].
  intros Hdry. unfold and_then.
  destruct (result (revert_migration exec_sql h _ _ t s')) as [e'|] eqn:Er.
  - rewrite Er. intros [= ->]. exists (Version t).
    destruct (revert_migration_fail _ _ _ _ _ _ _ Er) as [_ [[-> _]|[-> _]]]; auto.
  - simpl. apply IH, Hdry.
Qed.

(** X9.  What a dry run tells about the real run that follows it on the
    same database and directory, once that run holds the lock.  A dry run
    of [Up] returns [nil] exactly when the directory can be read and the
    control table is there or can be created (it cannot when SQLite keeps
    the write lock for a rival longer than the driver waits).  An error of
    the dry run of [Down] is the error of the real run, which then has
    opened no transaction and changed nothing; when the dry run of [Down]
    returns [nil], the real run opens its transaction and runs the revert
    script of a loaded migration.  When the dry run of [DownN] returns
    [nil], the real run can only fail inside a transaction (revert script
    or ledger row), never for a missing migration or script. *)
Theorem X9_the_dry_run_announces_the_real_run rival rival' db dir :
  lock_acquired rival db →
  (result (Up exec_sql rival' db dir true) = None
   ↔ is_Some dir ∧ table_refused rival' db = false) ∧
  (∀ e, result (Down exec_sql rival' db dir true) = Some e →
        result (Down exec_sql rival db dir false) = Some e ∧
        journal (Down exec_sql rival db dir false) = [] ∧
        store (after (Down exec_sql rival db dir false)) = store db) ∧
  (result (Down exec_sql rival' db dir true) = None →
   ∃ files t, dir = Some files ∧ t ∈ load_files files ∧
              firstn 2 (journal (Down exec_sql rival db dir false))
              = [TxBegin; TxExec (DownSQL t)]) ∧
  (∀ n e, result (DownN exec_sql rival' db dir n true) = None →
          result (DownN exec_sql rival db dir n false) = Some e →
          revert_error e).
Proof.
  intros Hacq. split_and!.
  - destruct (Up_dry exec_sql rival' db dir) as (_ & _ & ->).
    destruct (table_refused rival' db).
    + split; [discriminate|intros [_ [=]]].
    + destruct dir as [files|]; split; eauto; try discriminate.
      intros [[? [=]] _].
  - intros e. unfold Down.
    destruct (locked_run_acquired rival db
                (λ held, down_body exec_sql held dir false) Hacq)
      as (-> & -> & ->).
    rewrite locked_run_dry. cbn [result]. cbv beta.
    unfold down_body.
    destruct (Load dir) as [ms|]; [|auto].
    destruct (last (store db)) as [v|]; [|auto].
    destruct (find_target v ms) as [t|]; [|auto].
    destruct (String.eqb (DownSQL t) ""); [auto|discriminate].
  - unfold Down.
    destruct (locked_run_acquired rival db
                (λ held, down_body exec_sql held dir false) Hacq)
      as (_ & -> & _).
    rewrite locked_run_dry. cbn [result]. cbv beta.
    unfold down_body.
    destruct dir as [files|]; [|discriminate]. cbn [Load].
    destruct (last (store db)) as [v|]; [|discriminate].
    pose proof (find_target_spec v (load_files files)) as Hf.
    destruct (find_target v (load_files files)) as [t|]; [|discriminate].
    destruct (String.eqb (DownSQL t) ""); [discriminate|].
    intros _. exists files, t. destruct Hf as [Hin _].
    split; [reflexivity|]. split; [exact Hin|].
    unfold revert_migration, tx_exec, Beginx. simpl.
    destruct (_ && _); [reflexivity|].
    destruct (exec_sql (DownSQL t) (store db)) as [w ok]. destruct ok; simpl.
    + destruct (tx_delete _ (Version t) _); reflexivity.
    + reflexivity.
  - intros n e. unfold DownN. destruct (n <? 1); [discriminate|].
    destruct (locked_run_acquired rival db
                (λ held, downN_body exec_sql held dir n false) Hacq)
      as (_ & _ & ->).
    rewrite locked_run_dry. cbn [result]. cbv beta.
    unfold downN_body.
    destruct (Load dir) as [ms|]; [|discriminate].
    destruct (applied (store db)) as [vs|]; [|discriminate].
    destruct (_ =? _)%nat; [discriminate|].
    destruct (_ <? _); [discriminate|].
    apply downN_loop_after_dry.
Qed.

End DryRunMore.

(** * Beyond the claims: file names, the creator and the loader *)

Section StringFacts.
Import GoStrings.
Implicit Types (s t suf tok rest : string) (c d : ascii).

Lemma append_cons c s t : (String c s ++ t)%string = String c (s ++ t)%string.
Proof. reflexivity. Qed.

Lemma append_empty t : ("" ++ t)%string = t.
Proof. reflexivity. Qed.

Lemma append_assoc_s s t u : ((s ++ t) ++ u = s ++ (t ++ u))%string.
Proof.
  induction s as [|c s IH]; [reflexivity|]. rewrite !append_cons, IH. reflexivity.
Qed.

Lemma append_nil_s s : (s ++ "")%string = s.
Proof.
  induction s as [|c s IH]; [reflexivity|]. rewrite append_cons, IH. reflexivity.
Qed.

Lemma length_append_s s t :
  String.length (s ++ t)%string = (String.length s + String.length t)%nat.
Proof.
  induction s as [|c s IH]; [reflexivity|]. rewrite append_cons. simpl.
  rewrite IH. reflexivity.
Qed.

Lemma substring_all s : substring 0 (String.length s) s = s.
Proof. induction s as [|c s IH]; simpl; [reflexivity|]. rewrite IH. reflexivity. Qed.

Lemma substring_skip s t j k :
  substring (String.length s + j) k (s ++ t)%string = substring j k t.
Proof.
  induction s as [|c s IH]; [reflexivity|]. rewrite append_cons. simpl. exact IH.
Qed.

Lemma substring_keep s t : substring 0 (String.length s) (s ++ t)%string = s.
Proof.
  induction s as [|c s IH].
  - rewrite append_empty. destruct t; reflexivity.
  - rewrite append_cons. simpl. rewrite IH. reflexivity.
Qed.

(** A suffix no longer than [t] is looked for in [t] alone. *)
Lemma HasSuffix_append s t suf :
  (String.length suf ≤ String.length t)%nat →
  HasSuffix (s ++ t)%string suf = HasSuffix t suf.
Proof.
  intros Hle. unfold HasSuffix. rewrite length_append_s.
  replace (String.length s + String.length t - String.length suf)%nat
    with (String.length s + (String.length t - String.length suf))%nat by lia.
  rewrite substring_skip.
  destruct (Nat.leb_spec (String.length suf) (String.length t)); [|lia].
  destruct (Nat.leb_spec (String.length suf) (String.length s + String.length t));
    [reflexivity|lia].
Qed.

Lemma HasSuffix_self suf : HasSuffix suf suf = true.
Proof.
  unfold HasSuffix. rewrite Nat.leb_refl, Nat.sub_diag, substring_all.
  apply String.eqb_refl.
Qed.

Lemma TrimSuffix_append s suf : TrimSuffix (s ++ suf)%string suf = s.
Proof.
  unfold TrimSuffix. rewrite HasSuffix_append, HasSuffix_self by lia.
  rewrite length_append_s.
  replace (String.length s + String.length suf - String.length suf)%nat
    with (String.length s) by lia.
  apply substring_keep.
Qed.

Lemma Split_nonempty s c : Split s c ≠ [].
Proof.
  destruct s as [|d s]; simpl; [discriminate|].
  destruct (Ascii.eqb d c); [discriminate|]. destruct (Split s c); discriminate.
Qed.

(** [strings.Join(strings.Split(s, sep), sep)] is [s]. *)
Lemma Join_Split s c : Join (Split s c) (String c EmptyString) = s.
Proof.
  unfold Join. induction s as [|d s IH]; [reflexivity|].
  pose proof (Split_nonempty s c) as Hne. cbn [Split].
  destruct (Ascii.eqb_spec d c) as [->|Hd].
  - destruct (Split s c) as [|p ps]; [contradiction|].
    change (String.concat (String c "") ("" :: p :: ps))
      with (String c (String.concat (String c "") (p :: ps))).
    rewrite IH. reflexivity.
  - destruct (Split s c) as [|p ps]; [contradiction|].
    destruct ps as [|q qs].
    + change (String.concat (String c "") [p]) with p in IH.
      change (String.concat (String c "") [String d p]) with (String d p).
      rewrite IH. reflexivity.
    + change (String.concat (String c "") (String d p :: q :: qs))
        with (String d (String.concat (String c "") (p :: q :: qs))).
      rewrite IH. reflexivity.
Qed.

(** The first piece is the text before the first separator. *)
Lemma Split_first tok rest c :
  has_char c tok = false →
  Split (tok ++ String c rest)%string c = tok :: Split rest c.
Proof.
  induction tok as [|d tok IH].
  - intros _. rewrite append_empty. simpl. rewrite Ascii.eqb_refl. reflexivity.
  - intros H. simpl in H. apply orb_false_elim in H as [Hd Hrest].
    rewrite append_cons. simpl. rewrite Ascii.eqb_sym, Hd, (IH Hrest). reflexivity.
Qed.

Lemma Split_no_separator s c : has_char c s = false → Split s c = [s].
Proof.
  induction s as [|d s IH]; simpl; [reflexivity|].
  intros H. apply orb_false_elim in H as [Hd Hrest].
  rewrite Ascii.eqb_sym, Hd, (IH Hrest). reflexivity.
Qed.

Lemma Contains_append_r s t sub :
  HasPrefix t sub = true → Contains (s ++ t)%string sub = true.
Proof.
  intros H. induction s as [|c s IH].
  - rewrite append_empty. destruct t; simpl in *; rewrite H; reflexivity.
  - rewrite append_cons. simpl. rewrite IH. apply orb_true_r.
Qed.

(** An occurrence of [sub] does not begin where its first byte is not. *)
Lemma Contains_skip tok t d sub :
  has_char d tok = false →
  Contains (tok ++ t)%string (String d sub) = Contains t (String d sub).
Proof.
  induction tok as [|c tok IH]; [reflexivity|].
  intros H. simpl in H. apply orb_false_elim in H as [Hd Hrest].
  rewrite append_cons. simpl. rewrite Hd, (IH Hrest). reflexivity.
Qed.

Lemma compare_refl_s s : String.compare s s = Eq.
Proof.
  induction s as [|c s IH]; simpl; [reflexivity|].
  unfold Ascii.compare. rewrite N.compare_refl. exact IH.
Qed.

Lemma compare_common_prefix s t u :
  String.compare (s ++ t)%string (s ++ u)%string = String.compare t u.
Proof.
  induction s as [|c s IH]; [reflexivity|]. rewrite !append_cons. simpl.
  unfold Ascii.compare. rewrite N.compare_refl. exact IH.
Qed.

End StringFacts.

(** * The version in the file name: [%d] and [strconv.Atoi] *)

Section ItoaFacts.
Import Strconv.

Lemma digit_char_spec k :
  0 ≤ k < 10 →
  is_digit (digit_char k) = true ∧ digit_val (digit_char k) = k
  ∧ Ascii.eqb (digit_char k) "-"%char = false
  ∧ Ascii.eqb (digit_char k) "+"%char = false.
Proof.
  intros H.
  assert (k = 0 ∨ k = 1 ∨ k = 2 ∨ k = 3 ∨ k = 4 ∨ k = 5 ∨ k = 6 ∨ k = 7
          ∨ k = 8 ∨ k = 9) as Hk by lia.
  repeat destruct Hk as [->|Hk]; try subst k; repeat split; reflexivity.
Qed.

Lemma fast_digits_step k acc n :
  0 ≤ k < 10 →
  fast_digits (String (digit_char k) acc) n = fast_digits acc (n * 10 + k).
Proof.
  intros H. destruct (digit_char_spec k H) as (Hd & Hv & _).
  simpl. rewrite Hd, Hv. reflexivity.
Qed.

Lemma parse_digits_step k acc n :
  0 ≤ k < 10 → 0 ≤ n → n * 10 + k ≤ maxUint64 →
  parse_digits (String (digit_char k) acc) n = parse_digits acc (n * 10 + k).
Proof.
  intros H Hn Hmax. destruct (digit_char_spec k H) as (Hd & Hv & _).
  unfold maxUint64 in *. cbn [parse_digits]. rewrite Hd, Hv. cbn [negb].
  unfold maxUint64.
  change (18446744073709551615 / 10 + 1) with 1844674407370955162.
  change (2 ^ 64) with 18446744073709551616.
  destruct (Z.leb_spec 1844674407370955162 n) as [Hbig|_]; [lia|].
  cbv zeta. rewrite (Z.mod_small (n * 10 + k)) by lia.
  destruct (Z.ltb_spec (n * 10 + k) (n * 10)); [lia|].
  destruct (Z.ltb_spec 18446744073709551615 (n * 10 + k)); [lia|].
  reflexivity.
Qed.

Lemma digits_fuel_step fuel n acc :
  digits_fuel (S fuel) n acc
  = if n <? 10 then String (digit_char (n mod 10)) acc
    else digits_fuel fuel (n / 10) (String (digit_char (n mod 10)) acc).
Proof. reflexivity. Qed.

(** Reading the digits of [n] back gives [n]. *)
Lemma fast_digits_of_digits fuel : ∀ n acc,
  0 ≤ n < 10 ^ Z.of_nat fuel →
  fast_digits (digits_fuel fuel n acc) 0 = fast_digits acc n.
Proof.
  induction fuel as [|fuel IH]; intros n acc Hn.
  - change (10 ^ Z.of_nat 0) with 1 in Hn. replace n with 0 by lia. reflexivity.
  - rewrite digits_fuel_step.
    assert (0 ≤ n mod 10 < 10) as Hm by (apply Z.mod_pos_bound; lia).
    destruct (Z.ltb_spec n 10) as [Hlt|Hge].
    + rewrite fast_digits_step by exact Hm. rewrite Z.mod_small by lia.
      reflexivity.
    + rewrite IH.
      * rewrite fast_digits_step by exact Hm. f_equal.
        pose proof (Z.div_mod n 10). lia.
      * split; [apply Z.div_pos; lia|].
        apply Z.div_lt_upper_bound; [lia|].
        rewrite Nat2Z.inj_succ, Z.pow_succ_r in Hn by lia. lia.
Qed.

Lemma parse_digits_of_digits fuel : ∀ n acc,
  0 ≤ n < 10 ^ Z.of_nat fuel → n ≤ maxUint64 →
  parse_digits (digits_fuel fuel n acc) 0 = parse_digits acc n.
Proof.
  induction fuel as [|fuel IH]; intros n acc Hn Hmax.
  - change (10 ^ Z.of_nat 0) with 1 in Hn. replace n with 0 by lia. reflexivity.
  - rewrite digits_fuel_step.
    assert (0 ≤ n mod 10 < 10) as Hm by (apply Z.mod_pos_bound; lia).
    pose proof (Z.div_mod n 10) as Hdm.
    destruct (Z.ltb_spec n 10) as [Hlt|Hge].
    + rewrite parse_digits_step; [|exact Hm|lia|rewrite Z.mod_small; lia].
      rewrite Z.mod_small by lia. reflexivity.
    + assert (0 ≤ n / 10) by (apply Z.div_pos; lia).
      rewrite IH.
      * rewrite parse_digits_step; [|exact Hm|lia|lia]. f_equal. lia.
      * split; [lia|].
        apply Z.div_lt_upper_bound; [lia|].
        rewrite Nat2Z.inj_succ, Z.pow_succ_r in Hn by lia. lia.
      * unfold maxUint64 in *. lia.
Qed.

(** The text begins with a digit. *)
Lemma digits_fuel_head fuel : ∀ n acc,
  (∃ k r, 0 ≤ k < 10 ∧ acc = String (digit_char k) r) →
  ∃ k r, 0 ≤ k < 10 ∧ digits_fuel fuel n acc = String (digit_char k) r.
Proof.
  induction fuel as [|fuel IH]; intros n acc Hacc; [exact Hacc|].
  rewrite digits_fuel_step.
  assert (0 ≤ n mod 10 < 10) as Hm by (apply Z.mod_pos_bound; lia).
  destruct (n <? 10); [eauto|]. apply IH. eauto.
Qed.

Lemma digits_head n : ∃ k r, 0 ≤ k < 10 ∧ digits n = String (digit_char k) r.
Proof.
  unfold digits. rewrite digits_fuel_step.
  assert (0 ≤ n mod 10 < 10) as Hm by (apply Z.mod_pos_bound; lia).
  destruct (n <? 10); [eauto|]. apply digits_fuel_head. eauto.
Qed.

(** A byte that is no digit does not occur in the text. *)
Lemma digits_fuel_has_char c fuel : ∀ n acc,
  is_digit c = false →
  has_char c (digits_fuel fuel n acc) = has_char c acc.
Proof.
  induction fuel as [|fuel IH]; intros n acc Hc; [reflexivity|].
  rewrite digits_fuel_step.
  assert (0 ≤ n mod 10 < 10) as Hm by (apply Z.mod_pos_bound; lia).
  destruct (digit_char_spec _ Hm) as (Hd & _).
  assert (Ascii.eqb c (digit_char (n mod 10)) = false) as Hne.
  { destruct (Ascii.eqb_spec c (digit_char (n mod 10))) as [->|]; congruence. }
  destruct (n <? 10).
  - simpl. rewrite Hne. reflexivity.
  - rewrite IH by exact Hc. simpl. rewrite Hne. reflexivity.
Qed.

Lemma Itoa_has_char c v :
  is_digit c = false → c ≠ "-"%char → has_char c (Itoa v) = false.
Proof.
  intros Hc Hm. unfold Itoa, digits. destruct (v <? 0).
  - cbn [has_char]. rewrite digits_fuel_has_char by exact Hc.
    destruct (Ascii.eqb_spec c "-"%char); [contradiction|reflexivity].
  - rewrite digits_fuel_has_char by exact Hc. reflexivity.
Qed.

Lemma digits_read n :
  0 ≤ n ≤ 2 ^ 63 →
  fast_digits (digits n) 0 = (n, None) ∧ parse_digits (digits n) 0 = (n, None).
Proof.
  intros Hn. unfold digits. change (2 ^ 63) with 9223372036854775808 in Hn.
  assert (10 ^ Z.of_nat 20 = 100000000000000000000) as Hp by reflexivity.
  split.
  - rewrite fast_digits_of_digits by lia. reflexivity.
  - rewrite parse_digits_of_digits by (unfold maxUint64; lia). reflexivity.
Qed.

(** [strconv.Atoi] reads what [%d] writes, over the whole of [int64]. *)
Lemma Atoi_Itoa v : minInt64 ≤ v ≤ maxInt64 → Atoi (Itoa v) = (v, None).
Proof.
  unfold minInt64, maxInt64. intros Hv. unfold Itoa.
  destruct (Z.ltb_spec v 0) as [Hneg|Hpos].
  - destruct (digits_read (- v)) as [Hf Hp];
      [change (2 ^ 63) with 9223372036854775808; lia|].
    destruct (digits_head (- v)) as (k & r & Hk & Hd).
    unfold Atoi. set (s := String "-"%char (digits (- v))).
    destruct ((0 <? String.length s)%nat && (String.length s <? 19)%nat).
    + subst s. cbv beta iota zeta.
      change (Ascii.eqb "-"%char "-"%char) with true. cbn [orb andb].
      assert ((String.length (digits (- v)) <? 1)%nat = false) as ->
        by (rewrite Hd; reflexivity).
      rewrite Hf. f_equal. lia.
    + subst s. unfold ParseInt.
      change (Ascii.eqb "-"%char "-"%char) with true.
      change (Ascii.eqb "-"%char "+"%char) with false. cbn [orb andb negb].
      unfold ParseUint. rewrite Hd, <- Hd, Hp.
      change (2 ^ 63) with 9223372036854775808.
      destruct (Z.ltb_spec 9223372036854775808 (- v)); [lia|].
      f_equal. lia.
  - destruct (digits_read v) as [Hf Hp];
      [change (2 ^ 63) with 9223372036854775808; lia|].
    destruct (digits_head v) as (k & r & Hk & Hd).
    destruct (digit_char_spec k Hk) as (_ & _ & Hm & Hpl).
    unfold Atoi.
    destruct ((0 <? String.length (digits v))%nat
              && (String.length (digits v) <? 19)%nat).
    + rewrite Hd, Hm, Hpl. cbn [orb andb]. rewrite <- Hd, Hf. reflexivity.
    + unfold ParseInt. rewrite Hd, Hm, Hpl. cbn [orb andb negb]. rewrite <- Hd.
      unfold ParseUint. rewrite Hd, <- Hd, Hp.
      change (2 ^ 63) with 9223372036854775808.
      destruct (Z.leb_spec 9223372036854775808 v); [lia|]. reflexivity.
Qed.

End ItoaFacts.

(** * File names as the loader reads them *)

Section NamingFacts.
Import GoStrings Strconv.
Implicit Types (tok name rest ext : string) (files : list DirEntry).

Lemma file_name_assoc tok name ext :
  (tok ++ "_" ++ name ++ ext)%string = (((tok ++ "_") ++ name) ++ ext)%string.
Proof. rewrite !append_assoc_s. reflexivity. Qed.

Lemma parts_of_file tok rest :
  has_char "_"%char tok = false →
  parts_of (tok ++ "_" ++ rest)%string = tok :: Split rest "_"%char.
Proof. intros H. exact (Split_first tok rest "_"%char H). Qed.

Lemma file_version_token tok rest :
  has_char "_"%char tok = false →
  file_version (tok ++ "_" ++ rest)%string = fst (Atoi tok).
Proof. intros H. unfold file_version. rewrite parts_of_file by exact H. reflexivity. Qed.

Lemma migrationName_file tok rest :
  has_char "_"%char tok = false →
  migrationName (tl (parts_of (tok ++ "_" ++ rest)%string))
  = TrimSuffix (TrimSuffix rest ".up.sql") ".down.sql".
Proof.
  intros H. rewrite parts_of_file by exact H. cbn [tl]. unfold migrationName.
  pose proof (Join_Split rest "_"%char) as HJ.
  destruct (Split rest "_"%char) as [|p ps] eqn:E.
  - apply Split_nonempty in E. contradiction.
  - change (String "_"%char EmptyString) with "_" in HJ. rewrite HJ. reflexivity.
Qed.

Lemma TrimSuffix_other name :
  TrimSuffix (name ++ ".down.sql")%string ".up.sql" = (name ++ ".down.sql")%string.
Proof.
  unfold TrimSuffix. rewrite HasSuffix_append by (simpl; lia). reflexivity.
Qed.

Lemma name_of_down_file name :
  TrimSuffix (TrimSuffix (name ++ ".down.sql")%string ".up.sql") ".down.sql" = name.
Proof. rewrite TrimSuffix_other. apply TrimSuffix_append. Qed.

Lemma name_of_up_file name :
  TrimSuffix (TrimSuffix (name ++ ".up.sql")%string ".up.sql") ".down.sql"
  = TrimSuffix name ".down.sql".
Proof. rewrite TrimSuffix_append. reflexivity. Qed.

Lemma is_sql_up tok name : is_sql (tok ++ "_" ++ name ++ ".up.sql")%string = true.
Proof.
  unfold is_sql. rewrite file_name_assoc, HasSuffix_append by (simpl; lia).
  reflexivity.
Qed.

Lemma is_sql_down tok name : is_sql (tok ++ "_" ++ name ++ ".down.sql")%string = true.
Proof.
  unfold is_sql. rewrite file_name_assoc, HasSuffix_append by (simpl; lia).
  reflexivity.
Qed.

Lemma Contains_up tok name :
  Contains (tok ++ "_" ++ name ++ ".up.sql")%string ".up." = true.
Proof. rewrite file_name_assoc. apply Contains_append_r. reflexivity. Qed.

Lemma Contains_down tok name :
  Contains (tok ++ "_" ++ name ++ ".down.sql")%string ".down." = true.
Proof. rewrite file_name_assoc. apply Contains_append_r. reflexivity. Qed.

(** The two files of the naming convention, in the order of the listing,
    load as one migration; the down file is taken for an apply script,
    and its content lost, when its name holds [.up.]. *)
Lemma load_pair files tok name up down :
  has_char "_"%char tok = false →
  files_of (fst (Atoi tok)) files
  = [mkEntry (tok ++ "_" ++ name ++ ".down.sql")%string (Some down);
     mkEntry (tok ++ "_" ++ name ++ ".up.sql")%string (Some up)] →
  mkMigration (fst (Atoi tok)) name up
              (if Contains (tok ++ "_" ++ name ++ ".down.sql")%string ".up."
               then "" else down)
  ∈ load_files files.
Proof.
  intros Htok Hfiles. apply elem_of_load_files. cbn [Version].
  rewrite load_map_lookup, Hfiles. f_equal. unfold merged. rewrite Hfiles.
  f_equal.
  - cbn [name_of fname]. rewrite migrationName_file by exact Htok.
    apply name_of_down_file.
  - unfold half, is_apply. cbn [fold_left fname content fdata default].
    rewrite Contains_up. reflexivity.
  - unfold half, is_revert. cbn [fold_left fname content fdata default].
    rewrite Contains_down, Contains_up.
    destruct (Contains (tok ++ "_" ++ name ++ ".down.sql")%string ".up.");
      reflexivity.
Qed.

End NamingFacts.

(** * The creator *)

Section CreatorFacts.
Import GoStrings Strconv.
Implicit Types (name n content c : string) (files : list DirEntry) (f : DirEntry).

Lemma compare_eq_s a b : String.compare a b = Eq → a = b.
Proof. apply String.compare_eq_iff. Qed.

Lemma compare_neq_eqb a b : String.compare a b ≠ Eq → String.eqb a b = false.
Proof.
  intros H. destruct (String.eqb_spec a b) as [->|]; [|reflexivity].
  rewrite compare_refl_s in H. contradiction.
Qed.

(** A file that was written reads back, unless an entry of that name was
    there already and could not be read. *)
Lemma read_write_same n c files :
  read_file n files ≠ Some None →
  read_file n (write_file n c files) = Some (Some c).
Proof.
  unfold read_file. induction files as [|f files IH]; intros H; cbn [write_file].
  - cbn [List.find fname]. rewrite String.eqb_refl. reflexivity.
  - destruct (String.compare n (fname f)) eqn:E.
    + apply compare_eq_s in E. cbn [List.find fname] in *.
      rewrite String.eqb_refl. rewrite <- E, String.eqb_refl in H.
      cbn [fmap option_fmap option_map fdata] in *.
      destruct (fdata f); [reflexivity|contradiction].
    + cbn [List.find fname]. rewrite String.eqb_refl. reflexivity.
    + cbn [List.find] in *. rewrite compare_neq_eqb in * by congruence.
      apply IH, H.
Qed.

(** Writing a file leaves the others as they were. *)
Lemma read_write_other n m c files :
  m ≠ n → read_file m (write_file n c files) = read_file m files.
Proof.
  intros Hne. unfold read_file.
  assert (String.eqb m n = false) as Hmn by (apply String.eqb_neq; exact Hne).
  induction files as [|f files IH]; cbn [write_file].
  - cbn [List.find fname]. rewrite Hmn. reflexivity.
  - destruct (String.compare n (fname f)) eqn:E.
    + apply compare_eq_s in E. cbn [List.find fname]. rewrite <- E, Hmn.
      reflexivity.
    + cbn [List.find fname]. rewrite Hmn. reflexivity.
    + cbn [List.find]. destruct (String.eqb m (fname f)); [reflexivity|exact IH].
Qed.

Lemma filter_write_other (q : DirEntry → bool) n c files :
  (∀ d, q (mkEntry n d) = false) →
  List.filter q (write_file n c files) = List.filter q files.
Proof.
  intros Hq. induction files as [|f files IH]; cbn [write_file].
  - cbn [List.filter]. rewrite Hq. reflexivity.
  - destruct (String.compare n (fname f)) eqn:E.
    + apply compare_eq_s in E. destruct f as [fn fd]. cbn [fname fdata] in *.
      subst fn. cbn [List.filter]. rewrite !Hq. reflexivity.
    + cbn [List.filter]. rewrite Hq. reflexivity.
    + cbn [List.filter]. rewrite IH. reflexivity.
Qed.

Lemma filter_none (q : DirEntry → bool) files :
  Forall (λ f, q f = false) files → List.filter q files = [].
Proof.
  induction 1 as [|f files Hq _ IH]; [reflexivity|].
  cbn [List.filter]. rewrite Hq. exact IH.
Qed.

Lemma filter_write_new (q : DirEntry → bool) n c files :
  Forall (λ f, q f = false ∧ fname f ≠ n) files →
  List.filter q (write_file n c files) = List.filter q [mkEntry n (Some c)].
Proof.
  induction 1 as [|f files [Hq Hn] Hall IH]; cbn [write_file]; [reflexivity|].
  destruct (String.compare n (fname f)) eqn:E.
  - apply compare_eq_s in E. congruence.
  - cbn [List.filter]. rewrite Hq, (filter_none q files); [reflexivity|].
    eapply Forall_impl; [exact Hall|]. intros g [? _]. assumption.
  - cbn [List.filter]. rewrite Hq. exact IH.
Qed.

Lemma filter_write_pair (q : DirEntry → bool) up uc down dc files :
  String.compare down up = Lt →
  Forall (λ f, q f = false ∧ fname f ≠ up ∧ fname f ≠ down) files →
  List.filter q (write_file down dc (write_file up uc files))
  = List.filter q [mkEntry down (Some dc); mkEntry up (Some uc)].
Proof.
  intros Hlt. induction 1 as [|f files (Hq & Hu & Hd) Hall IH].
  - cbn [write_file fname]. rewrite Hlt. reflexivity.
  - cbn [write_file]. destruct (String.compare up (fname f)) eqn:E.
    + apply compare_eq_s in E. congruence.
    + cbn [write_file fname]. rewrite Hlt. cbn [List.filter]. rewrite Hq.
      rewrite (filter_none q files); [reflexivity|].
      eapply Forall_impl; [exact Hall|]. intros g (? & _). assumption.
    + cbn [write_file]. destruct (String.compare down (fname f)) eqn:E'.
      * apply compare_eq_s in E'. congruence.
      * cbn [List.filter]. rewrite Hq.
        rewrite (filter_write_new q up uc files).
        -- reflexivity.
        -- eapply Forall_impl; [exact Hall|]. intros g (? & ? & ?). auto.
      * cbn [List.filter]. rewrite Hq. exact IH.
Qed.

Lemma down_before_up now name :
  String.compare (down_file now name) (up_file now name) = Lt.
Proof.
  unfold down_file, up_file. rewrite !file_name_assoc.
  rewrite compare_common_prefix. reflexivity.
Qed.

Lemma Itoa_no_underscore v : has_char "_"%char (Itoa v) = false.
Proof. apply Itoa_has_char; [reflexivity|discriminate]. Qed.

Lemma Itoa_no_dot v : has_char "."%char (Itoa v) = false.
Proof. apply Itoa_has_char; [reflexivity|discriminate]. Qed.

Lemma file_version_created now name ext :
  minInt64 ≤ now ≤ maxInt64 →
  file_version (Itoa now ++ "_" ++ name ++ ext)%string = now.
Proof.
  intros H. rewrite file_version_token by apply Itoa_no_underscore.
  rewrite Atoi_Itoa by exact H. reflexivity.
Qed.

Lemma down_file_marker now name :
  Contains (down_file now name) ".up."
  = Contains (name ++ ".down.sql")%string ".up.".
Proof.
  unfold down_file.
  rewrite (Contains_skip (Itoa now)) by apply Itoa_no_dot.
  rewrite (Contains_skip "_") by reflexivity. reflexivity.
Qed.

(** What a successful call did to the listing. *)
Lemma NewMigration_success os now dir name dir' :
  NewMigration os now dir name = (dir', None) →
  name ≠ ""
  ∧ ∃ dir0, MkdirAll os dir = Some dir0
    ∧ dir' = write_file (down_file now name) down_template
             <$> (write_file (up_file now name) up_template <$> dir0).
Proof.
  unfold NewMigration, WriteFile. destruct (MkdirAll os dir) as [dir0|]; [|discriminate].
  destruct (String.eqb_spec name ""); [discriminate|].
  destruct (write_answer os (up_file now name)); cbn [negb]; try discriminate.
  destruct (write_answer os (down_file now name)); cbn [negb]; try discriminate.
  intros [= <-]. eauto.
Qed.

Lemma MkdirAll_listing os dir dir0 files0 :
  MkdirAll os dir = Some dir0 → dir0 = Some files0 → files0 = default [] dir.
Proof.
  unfold MkdirAll. destruct (mkdir_refused os); [discriminate|].
  destruct dir as [files|]; cbn [default].
  - intros [= <-] [= <-]. reflexivity.
  - destruct (unlisted_exists os); intros [= <-]; [discriminate|].
    intros [= <-]. reflexivity.
Qed.

End CreatorFacts.

Section CreatorMore.
Import GoStrings Strconv.
Implicit Types (name n : string) (files : list DirEntry).

Lemma read_write_exists n c files : is_Some (read_file n (write_file n c files)).
Proof.
  unfold read_file. induction files as [|f files IH]; cbn [write_file].
  - cbn [List.find fname]. rewrite String.eqb_refl. eauto.
  - destruct (String.compare n (fname f)) eqn:E.
    + cbn [List.find fname]. rewrite String.eqb_refl. eauto.
    + cbn [List.find fname]. rewrite String.eqb_refl. eauto.
    + cbn [List.find]. rewrite compare_neq_eqb by congruence. exact IH.
Qed.

Lemma up_is_not_down now name : up_file now name ≠ down_file now name.
Proof.
  intros H. pose proof (down_before_up now name) as Hlt.
  rewrite H, compare_refl_s in Hlt. discriminate.
Qed.

(** Whatever the outcome, the listing afterwards is the one before with
    writes to the two file names only. *)
Lemma NewMigration_touches_two_names os now dir name files' r n :
  NewMigration os now dir name = (Some files', r) →
  n ≠ up_file now name → n ≠ down_file now name →
  read_file n files' = read_file n (default [] dir).
Proof.
  unfold NewMigration, WriteFile. intros H Hu Hd.
  destruct (MkdirAll os dir) as [dir0|] eqn:Hmk.
  - assert (∀ files0, dir0 = Some files0 → files0 = default [] dir) as Hdir
      by (intros; eapply MkdirAll_listing; eauto).
    destruct (String.eqb name "").
    { injection H as H _. rewrite (Hdir _ H). reflexivity. }
    destruct dir0 as [files0|].
    2:{ destruct (write_answer os (up_file now name));
        destruct (write_answer os (down_file now name)); discriminate. }
    rewrite <- (Hdir files0 eq_refl).
    destruct (write_answer os (up_file now name));
      destruct (write_answer os (down_file now name));
      cbn [negb fmap option_fmap option_map] in H; injection H as <- _;
      rewrite ?read_write_other by assumption; reflexivity.
  - injection H as H _. rewrite H. reflexivity.
Qed.

(** [NewMigration] followed by [Load], at a version new to the
    directory. *)
Lemma created_is_loaded os now dir name dir' ms :
  minInt64 ≤ now ≤ maxInt64 →
  Forall (λ f, file_version (fname f) ≠ now) (default [] dir) →
  NewMigration os now dir name = (dir', None) →
  Load dir' = Some ms →
  mkMigration now name up_template
              (if Contains (name ++ ".down.sql")%string ".up."
               then "" else down_template) ∈ ms
  ∧ ∀ m, Version m ≠ now → (m ∈ ms ↔ m ∈ default [] (Load dir)).
Proof.
  intros Hnow Hnew H Hload.
  apply NewMigration_success in H as (Hname & dir0 & Hmk & ->).
  destruct dir0 as [files0|]; [|discriminate].
  pose proof (MkdirAll_listing _ _ _ _ Hmk eq_refl) as ->.
  cbn [fmap option_fmap option_map Load] in Hload. injection Hload as <-.
  assert (default [] (Load dir) = load_files (default [] dir)) as ->.
  { destruct dir as [files|]; reflexivity. }
  set (files := default [] dir) in *. split.
  - pose proof (file_version_created now name ".up.sql" Hnow) as Hvu.
    pose proof (file_version_created now name ".down.sql" Hnow) as Hvd.
    fold (up_file now name) in Hvu. fold (down_file now name) in Hvd.
    assert (fst (Atoi (Itoa now)) = now) as Hv by (rewrite Atoi_Itoa; auto).
    rewrite <- (down_file_marker now name). unfold down_file at 1.
    rewrite <- Hv at 1. apply load_pair.
    + apply Itoa_no_underscore.
    + rewrite Hv. fold (up_file now name) (down_file now name).
      unfold files_of. rewrite filter_write_pair.
      * cbn [List.filter fname]. unfold readable_sql. cbn [fname fdata].
        rewrite Hvu, Hvd, Z.eqb_refl.
        unfold up_file, down_file. rewrite is_sql_up, is_sql_down. reflexivity.
      * apply down_before_up.
      * eapply Forall_impl; [exact Hnew|]. intros f Hf. cbv beta in Hf.
        split_and!.
        -- destruct (Z.eqb_spec (file_version (fname f)) now); [contradiction|].
           apply andb_false_r.
        -- intros E. rewrite E in Hf. contradiction.
        -- intros E. rewrite E in Hf. contradiction.
  - intros m Hm. rewrite !elem_of_load_files, !load_map_lookup.
    unfold merged, files_of.
    rewrite !filter_write_other; [reflexivity| |].
    + intros d. cbv beta. cbn [fname]. unfold up_file.
      rewrite (file_version_created now name ".up.sql" Hnow).
      destruct (Z.eqb_spec now (Version m)); [congruence|]. apply andb_false_r.
    + intros d. cbv beta. cbn [fname]. unfold down_file.
      rewrite (file_version_created now name ".down.sql" Hnow).
      destruct (Z.eqb_spec now (Version m)); [congruence|]. apply andb_false_r.
Qed.

End CreatorMore.

Section CreatorTheorems.
Import GoStrings Strconv.
Implicit Types (name n : string) (files : list DirEntry).

(** X10.  The file names [NewMigration] formats are read back by [Load] as
    they were meant: for every second [now] of the [int64] range and
    every name, both files carry the SQL extension, the version token is
    read back as [now], the up file is taken for an apply script and the
    down file carries the revert marker; the migration name read from the
    down file (the first of the two in the listing) is [name], the one
    read from the up file is [name] without a trailing [.down.sql]. *)
Theorem X10_Load_reads_the_file_names_of_NewMigration now name :
  minInt64 ≤ now ≤ maxInt64 →
  (is_sql (up_file now name) = true
   ∧ file_version (up_file now name) = now
   ∧ Contains (up_file now name) ".up." = true
   ∧ migrationName (tl (parts_of (up_file now name))) = TrimSuffix name ".down.sql")
  ∧ (is_sql (down_file now name) = true
     ∧ file_version (down_file now name) = now
     ∧ Contains (down_file now name) ".down." = true
     ∧ migrationName (tl (parts_of (down_file now name))) = name).
Proof.
  intros Hnow. unfold up_file, down_file. split; split_and!.
  - apply is_sql_up.
  - apply file_version_created, Hnow.
  - apply Contains_up.
  - rewrite migrationName_file by apply Itoa_no_underscore.
    apply name_of_up_file.
  - apply is_sql_down.
  - apply file_version_created, Hnow.
  - apply Contains_down.
  - rewrite migrationName_file by apply Itoa_no_underscore.
    apply name_of_down_file.
Qed.

(** X11.  What [NewMigration] does to the directory, for a plain name (no
    path separator) and a directory that can be listed afterwards.
    Whatever the outcome, no file but [<now>_<name>.up.sql] and
    [<now>_<name>.down.sql] is touched.  On success the name is not empty
    and each of the two files holds its template ([-- UP] or [-- DOWN] and
    a line feed), an existing file of that name being overwritten without
    notice (unless it could not be read, and then still cannot).  The empty
    name is refused after [os.MkdirAll] has run (whose error comes
    first): no file is written, a directory that was missing now exists,
    empty.  When the down file cannot be written the up file is left
    behind. *)
Theorem X11_NewMigration_writes_the_two_templates os now dir name files' r :
  has_char "/"%char name = false →
  NewMigration os now dir name = (Some files', r) →
  (∀ n, n ≠ up_file now name → n ≠ down_file now name →
        read_file n files' = read_file n (default [] dir))
  ∧ (r = None →
     name ≠ ""
     ∧ (read_file (up_file now name) (default [] dir) ≠ Some None →
        read_file (up_file now name) files' = Some (Some up_template))
     ∧ (read_file (down_file now name) (default [] dir) ≠ Some None →
        read_file (down_file now name) files' = Some (Some down_template)))
  ∧ (name = "" →
     r = Some (if mkdir_refused os then ErrMkdir else ErrEmptyName)
     ∧ files' = default [] dir)
  ∧ (r = Some ErrWriteDown → is_Some (read_file (up_file now name) files')).
Proof.
  intros _ H. split_and!.
  - intros n. apply (NewMigration_touches_two_names _ _ _ _ _ _ _ H).
  - intros ->. apply NewMigration_success in H as (Hname & dir0 & Hmk & Hdir).
    destruct dir0 as [files0|]; [|discriminate]. injection Hdir as ->.
    rewrite <- (MkdirAll_listing _ _ _ _ Hmk eq_refl).
    split_and!; [exact Hname| |].
    + intros Hr. rewrite read_write_other by apply up_is_not_down.
      apply read_write_same, Hr.
    + intros Hr. apply read_write_same.
      rewrite read_write_other; [exact Hr|].
      intros E. symmetry in E. revert E. apply up_is_not_down.
  - intros ->. unfold NewMigration in H.
    destruct (MkdirAll os dir) as [dir0|] eqn:Hmk.
    + cbn [String.eqb] in H. injection H as -> <-.
      split; [|apply (MkdirAll_listing _ _ _ _ Hmk eq_refl)].
      unfold MkdirAll in Hmk. destruct (mkdir_refused os); [discriminate|].
      reflexivity.
    + unfold MkdirAll in Hmk. injection H as -> <-.
      destruct (mkdir_refused os); [split; reflexivity|discriminate].
  - intros ->. unfold NewMigration, WriteFile in H.
    destruct (MkdirAll os dir) as [dir0|]; [|discriminate].
    destruct (String.eqb name ""); [discriminate|].
    destruct dir0 as [files0|];
      destruct (write_answer os (up_file now name));
      destruct (write_answer os (down_file now name));
      cbn [negb fmap option_fmap option_map] in H; try discriminate;
      injection H as <-;
      rewrite ?(read_write_other (down_file now name)) by apply up_is_not_down;
      apply read_write_exists.
Qed.

(** X12.  Creating a migration and loading the directory: when
    [NewMigration] succeeds at a second [now] of the [int64] range whose
    version no file of the directory carries yet, with a plain name that
    does not make the down file look like an up file (no [.up.] in
    [<name>.down.sql]), then [Load] of the directory afterwards returns
    the new migration with version [now], that name and the two
    templates, and, for every other version, exactly the migrations it
    returned before (none for a directory that was missing). *)
Theorem X12_a_created_migration_is_loaded os now dir name dir' ms :
  minInt64 ≤ now ≤ maxInt64 →
  has_char "/"%char name = false →
  Contains (name ++ ".down.sql")%string ".up." = false →
  Forall (λ f, file_version (fname f) ≠ now) (default [] dir) →
  NewMigration os now dir name = (dir', None) →
  Load dir' = Some ms →
  mkMigration now name up_template down_template ∈ ms
  ∧ ∀ m, Version m ≠ now → (m ∈ ms ↔ m ∈ default [] (Load dir)).
Proof.
  intros Hnow _ Hplain Hnew H Hload.
  pose proof (created_is_loaded _ _ _ _ _ _ Hnow Hnew H Hload) as Hl.
  rewrite Hplain in Hl. exact Hl.
Qed.

(** X13.  The naming convention of the loader.  When the readable SQL
    files of a version are the pair [<token>_<name>.down.sql],
    [<token>_<name>.up.sql] (the token without underscore, [.up.] not in
    the name of the down file), [Load] returns for the version
    [strconv.Atoi] reads from the token the migration called [name], with
    the content of the up file as apply script and the content of the
    down file as revert script. *)
Theorem X13_Load_reads_the_naming_convention files tok name up down :
  has_char "_"%char tok = false →
  Contains (tok ++ "_" ++ name ++ ".down.sql")%string ".up." = false →
  files_of (fst (Atoi tok)) files
  = [mkEntry (tok ++ "_" ++ name ++ ".down.sql")%string (Some down);
     mkEntry (tok ++ "_" ++ name ++ ".up.sql")%string (Some up)] →
  ∃ ms, Load (Some files) = Some ms
        ∧ mkMigration (fst (Atoi tok)) name up down ∈ ms.
Proof.
  intros Htok Hplain Hfiles. eexists. split; [reflexivity|].
  pose proof (load_pair _ _ _ up down Htok Hfiles) as Hl.
  rewrite Hplain in Hl. exact Hl.
Qed.

(** X15.  A name that puts [.up.] into the name of the down file (a name
    holding [.up.] or ending in [.up]) costs the migration its revert
    script: under the other conditions of X12, [Load] returns the new
    migration with the apply template and an empty [DownSQL], the loader
    taking both files for apply scripts. *)
Theorem X15_the_up_marker_in_a_name_loses_the_revert_script os now dir name dir' ms :
  minInt64 ≤ now ≤ maxInt64 →
  has_char "/"%char name = false →
  Contains (name ++ ".down.sql")%string ".up." = true →
  Forall (λ f, file_version (fname f) ≠ now) (default [] dir) →
  NewMigration os now dir name = (dir', None) →
  Load dir' = Some ms →
  mkMigration now name up_template "" ∈ ms.
Proof.
  intros Hnow _ Hmark Hnew H Hload.
  pose proof (created_is_loaded _ _ _ _ _ _ Hnow Hnew H Hload) as [Hl _].
  rewrite Hmark in Hl. exact Hl.
Qed.

End CreatorTheorems.

Section LedgerMore.
Context {U : Type}.
Implicit Types (s : Store U).

(** X14.  The two readers of the control table agree: [last] returns [v]
    exactly when the answer of [applied] ends with [v], and fails exactly
    when [applied] has nothing to show (the table empty or missing); the
    answer of [applied] is strictly ascending. *)
Theorem X14_last_is_the_end_of_applied s :
  (∀ v, last s = inl v ↔ ∃ l, applied s = inl (l ++ [v]))
  ∧ ((∃ e, last s = inr e) ↔ applied_versions s = [])
  ∧ (∀ vs, applied s = inl vs → StronglySorted Z.lt vs).
Proof.
  split_and!.
  - intros v. unfold last, applied. destruct (ledger s) as [rows|].
    + destruct (reverse (rows_sorted rows)) as [|w l] eqn:E.
      * apply (f_equal reverse) in E. rewrite reverse_involutive in E.
        rewrite E. split; [discriminate|].
        intros [l' [= Hl]]. destruct l'; discriminate.
      * apply (f_equal reverse) in E.
        rewrite reverse_involutive, reverse_cons in E. rewrite E. split.
        -- intros [= ->]. eauto.
        -- intros [l' [= Hl]]. apply app_inj_tail in Hl as [_ ->]. reflexivity.
    + split; [discriminate|]. intros [l [=]].
  - apply last_error.
  - intros vs. unfold applied. destruct (ledger s) as [rows|]; [|discriminate].
    intros [= <-]. apply ascending_strict.
    + apply rows_sorted_ascending.
    + apply rows_sorted_NoDup.
Qed.

End LedgerMore.

Section LockRelease.
Context {U : Type}.
Variable exec_sql : Engine U.
Implicit Types (s : Store U) (db : DB U) (h : bool).



End LockRelease.

(** * Beyond the claims: the runner behind the SQLite lock *)

Section BehindTheLock.
Context {U : Type}.
Variable exec_sql : Engine U.
Implicit Types (s : Store U) (db : DB U) (rows : gset Z).

Lemma uncommitted_nil : uncommitted [].
Proof. intros H. apply elem_of_nil in H. exact H. Qed.

Lemma apply_migration_behind m s :
  after (apply_migration exec_sql true m s) = s ∧
  uncommitted (journal (apply_migration exec_sql true m s)) ∧
  result (apply_migration exec_sql true m s) ≠ None.
Proof.
  destruct (result (apply_migration exec_sql true m s)) as [e|] eqn:E.
  - destruct (apply_migration_fail _ _ _ _ _ E) as [Ha [(_ & _ & Hj)|(_ & _ & Hj)]];
      rewrite Ha, Hj; split_and!; auto; try discriminate; intros H;
      repeat (apply elem_of_cons in H as [H|H]; [discriminate|]);
      apply elem_of_nil in H; exact H.
  - exfalso. exact (apply_migration_held _ _ _ E).
Qed.

Lemma revert_migration_behind fe fd t s :
  after (revert_migration exec_sql true fe fd t s) = s ∧
  uncommitted (journal (revert_migration exec_sql true fe fd t s)) ∧
  result (revert_migration exec_sql true fe fd t s) ≠ None.
Proof.
  destruct (result (revert_migration exec_sql true fe fd t s)) as [e|] eqn:E.
  - destruct (revert_migration_fail _ _ _ _ _ _ _ E)
      as [Ha [(_ & _ & Hj)|(_ & _ & Hj)]];
      rewrite Ha, Hj; split_and!; auto; try discriminate; intros H;
      repeat (apply elem_of_cons in H as [H|H]; [discriminate|]);
      apply elem_of_nil in H; exact H.
  - exfalso. exact (revert_migration_held _ _ _ _ _ E).
Qed.

Lemma pending_nil_inv rows (ms : list Migration) :
  pending rows ms = [] → ∀ m, m ∈ ms → Version m ∈ rows.
Proof.
  intros H m Hm. destruct (decide (Version m ∈ rows)) as [|Hn]; [assumption|].
  assert (m ∈ pending rows ms) as Hin by (apply elem_of_pending; auto).
  rewrite H in Hin. apply elem_of_nil in Hin. contradiction.
Qed.

Lemma up_body_behind dir s :
  after (up_body exec_sql true dir false s) = s ∧
  uncommitted (journal (up_body exec_sql true dir false s)) ∧
  (result (up_body exec_sql true dir false s) = None → settled dir s).
Proof.
  destruct (up_body_cases exec_sql true dir false s) as [(_ & _ & ->)|[Hh ->]].
  { split_and!; [reflexivity|apply uncommitted_nil|discriminate]. }
  destruct (Hh eq_refl) as [rows Hl]. rewrite (ensured_idem _ _ Hl), Hl.
  destruct dir as [files|];
    [|split_and!; [reflexivity|apply uncommitted_nil|discriminate]].
  change (default ∅ (Some rows)) with rows.
  destruct (pending rows (load_files files)) as [|m rest] eqn:Ep.
  - split_and!; [reflexivity|apply uncommitted_nil|].
    intros _. exists files, rows. split_and!; auto. apply pending_nil_inv, Ep.
  - rewrite run_under_cons. unfold and_then.
    destruct (apply_migration_behind m s) as (Ha & Hj & Hr).
    destruct (result (apply_migration exec_sql true m s)) as [e|] eqn:E;
      [|contradiction].
    rewrite E. split_and!; auto. discriminate.
Qed.

Lemma down_body_behind dir s :
  after (down_body exec_sql true dir false s) = s ∧
  uncommitted (journal (down_body exec_sql true dir false s)) ∧
  result (down_body exec_sql true dir false s) ≠ None.
Proof.
  unfold down_body.
  destruct (Load dir) as [ms|];
    [|split_and!; [reflexivity|apply uncommitted_nil|discriminate]].
  destruct (last s) as [v|];
    [|split_and!; [reflexivity|apply uncommitted_nil|discriminate]].
  destruct (find_target v ms) as [t|];
    [|split_and!; [reflexivity|apply uncommitted_nil|discriminate]].
  destruct (String.eqb (DownSQL t) "");
    [split_and!; [reflexivity|apply uncommitted_nil|discriminate]|].
  apply revert_migration_behind.
Qed.

Lemma downN_loop_behind mp v vs s :
  after (downN_loop exec_sql true false mp (v :: vs) s) = s ∧
  uncommitted (journal (downN_loop exec_sql true false mp (v :: vs) s)) ∧
  result (downN_loop exec_sql true false mp (v :: vs) s) ≠ None.
Proof.
  cbn [downN_loop].
  destruct (mp !! v) as [t|];
    [|split_and!; [reflexivity|apply uncommitted_nil|discriminate]].
  destruct (String.eqb (DownSQL t) "");
    [split_and!; [reflexivity|apply uncommitted_nil|discriminate]|].
  unfold and_then.
  destruct (revert_migration_behind (ErrDownExecN (Version t))
              (ErrDeleteRowN (Version t)) t s) as (Ha & Hj & Hr).
  destruct (result (revert_migration exec_sql true _ _ t s)) as [e|] eqn:E;
    [|contradiction].
  rewrite E. split_and!; auto.
Qed.

Lemma downN_body_behind dir steps s :
  1 ≤ steps →
  after (downN_body exec_sql true dir steps false s) = s ∧
  uncommitted (journal (downN_body exec_sql true dir steps false s)) ∧
  result (downN_body exec_sql true dir steps false s) ≠ None.
Proof.
  intros Hs. unfold downN_body.
  destruct (Load dir) as [ms|];
    [|split_and!; [reflexivity|apply uncommitted_nil|discriminate]].
  destruct (applied s) as [vs|];
    [|split_and!; [reflexivity|apply uncommitted_nil|discriminate]].
  destruct (Nat.eqb_spec (length vs) 0) as [|Hne];
    [split_and!; [reflexivity|apply uncommitted_nil|discriminate]|].
  destruct (Z.ltb_spec (Z.of_nat (length vs)) steps) as [|Hle];
    [split_and!; [reflexivity|apply uncommitted_nil|discriminate]|].
  destruct (reverse (to_revert vs steps)) as [|v rest] eqn:E.
  - exfalso. apply (f_equal length) in E.
    rewrite length_reverse in E. unfold to_revert in E. rewrite length_drop in E.
    simpl in E. lia.
  - apply downN_loop_behind.
Qed.

(** Behind the lock of SQLite a real run leaves the store as it was. *)
Lemma locked_run_behind rival db body :
  driver db = "sqlite3" →
  after (body true (store db)) = store db →
  uncommitted (journal (body true (store db))) →
  store (after (locked_run false rival db body)) = store db ∧
  uncommitted (journal (locked_run false rival db body)) ∧
  (result (locked_run false rival db body) = None →
   result (body true (store db)) = None).
Proof.
  intros Hd Ha Hj.
  destruct (locked_run_cases false rival db body)
    as [(_ & -> & -> & c & [-> | ->])|(Hs & Hjb & Hr)].
  - split_and!; [reflexivity|apply uncommitted_nil|discriminate].
  - split_and!; [reflexivity|apply uncommitted_nil|discriminate].
  - unfold held_in in *. apply String.eqb_eq in Hd. rewrite Hd in *.
    rewrite Hs, Hjb, Hr. auto.
Qed.

(** X19.  With SQLite a real run commits nothing.  The locker of the run
    keeps the write lock of the database in its open transaction until
    [Unlock]; every write of the runner, made on another connection, is
    refused.  So [Up], [Down] and [DownN] leave the schema and the ledger
    as they were and commit no transaction; [Up] returns [nil] only when
    there was nothing to apply, and [Down] and [DownN] never return
    [nil]. *)
Theorem X19_with_sqlite_nothing_is_committed rival db dir steps :
  driver db = "sqlite3" →
  let up := Up exec_sql rival db dir false in
  let down := Down exec_sql rival db dir false in
  let downN := DownN exec_sql rival db dir steps false in
  (store (after up) = store db ∧ uncommitted (journal up) ∧
   (result up = None → settled dir (store db))) ∧
  (store (after down) = store db ∧ uncommitted (journal down) ∧ result down ≠ None) ∧
  (store (after downN) = store db ∧ uncommitted (journal downN) ∧
   result downN ≠ None).
Proof.
  intros Hd up down downN. subst up down downN. split_and!.
  - apply (locked_run_behind rival db (λ held, up_body exec_sql held dir false) Hd);
      apply up_body_behind.
  - apply (locked_run_behind rival db (λ held, up_body exec_sql held dir false) Hd);
      apply up_body_behind.
  - intros Hr. apply up_body_behind.
    apply (locked_run_behind rival db (λ held, up_body exec_sql held dir false) Hd);
      [apply up_body_behind..|exact Hr].
  - apply (locked_run_behind rival db (λ held, down_body exec_sql held dir false) Hd);
      apply down_body_behind.
  - apply (locked_run_behind rival db (λ held, down_body exec_sql held dir false) Hd);
      apply down_body_behind.
  - intros Hr. apply (down_body_behind dir (store db)).
    apply (locked_run_behind rival db (λ held, down_body exec_sql held dir false) Hd);
      [apply down_body_behind..|exact Hr].
  - unfold DownN. destruct (Z.ltb_spec steps 1); [reflexivity|].
    apply (locked_run_behind rival db
             (λ held, downN_body exec_sql held dir steps false) Hd);
      apply downN_body_behind; lia.
  - unfold DownN. destruct (Z.ltb_spec steps 1); [apply uncommitted_nil|].
    apply (locked_run_behind rival db
             (λ held, downN_body exec_sql held dir steps false) Hd);
      apply downN_body_behind; lia.
  - unfold DownN. destruct (Z.ltb_spec steps 1); [discriminate|].
    intros Hr. apply (downN_body_behind dir steps (store db)); [lia|].
    apply (locked_run_behind rival db
             (λ held, downN_body exec_sql held dir steps false) Hd);
      [apply downN_body_behind; lia..|exact Hr].
Qed.

End BehindTheLock.


(** [Up] with SQLite on a database where version 3 is pending. *)
Lemma X19_witness :
  driver Samples.db_lite = "sqlite3" ∧
  result (Up Toy.exec 0 Samples.db_lite Toy.dir123 false) = Some (ErrUpFailed 3 ErrDB) ∧
  store (after (Up Toy.exec 0 Samples.db_lite Toy.dir123 false)) = store Samples.db_lite.
Proof.
  split; [reflexivity|]. split; [vm_compute; reflexivity|].
  destruct (X19_with_sqlite_nothing_is_committed Toy.exec 0 Samples.db_lite Toy.dir123 1
              eq_refl) as [(HUp & _) _].
  exact HUp.
Defined.

(** ** The theorems at work on the toy engine *)

(** [Up] on the fresh database and the test directory. *)
Lemma X1_witness :
  result (Up Toy.exec 0 (Toy.fresh "postgres") (Some Samples.files123) false) = None ∧
  up_done Toy.exec 0 (Toy.fresh "postgres") Samples.files123.
Proof.
  split; [vm_compute; reflexivity|].
  apply (X1_Up_applies_the_pending_in_order Toy.exec 0 (Toy.fresh "postgres")
           Samples.files123).
  vm_compute. reflexivity.
Defined.

(** No step, and five steps with two versions applied. *)
Lemma X3_witness :
  DownN Toy.exec 0 Toy.db_12 Toy.dir123 0 true = mkOutcome Toy.db_12 [] (Some ErrSteps) ∧
  result (DownN Toy.exec 0 Toy.db_12 Toy.dir123 5 false)
  = Some (ErrInsufficient (size ({[1; 2]} : gset Z)) 5).
Proof.
  destruct (X3_DownN_checks_its_step_count Toy.exec 0 Toy.db_12 Toy.dir123 0 true)
    as [Hnone _].
  destruct (X3_DownN_checks_its_step_count Toy.exec 0 Toy.db_12 Toy.dir123 5 false)
    as [_ Hmany].
  split; [apply Hnone; lia|].
  apply (Hmany Samples.files123 {[1; 2]}).
  - apply toy_lock_acquired. reflexivity.
  - reflexivity.
  - reflexivity.
  - apply (non_empty_inhabited_L 1). set_solver.
  - vm_compute. reflexivity.
Defined.



(** A driver without locker. *)
Lemma X7_witness :
  Up Toy.exec 0 Samples.db_oracle Toy.dir123 false
  = mkOutcome Samples.db_oracle []
              (Some (ErrCreateLocker (ErrUnsupportedDriver "oracle"))).
Proof.
  apply (X7_unknown_driver Toy.exec 0 Samples.db_oracle Toy.dir123); discriminate.
Defined.


(** The dry run of [Up] with SQLite, on a database without control table,
    while a rival keeps the lock for seven seconds. *)
Lemma X9_witness :
  lock_acquired 0 (Toy.fresh "sqlite3") ∧
  result (Up Toy.exec 7 (Toy.fresh "sqlite3") Toy.dir123 true) = Some ErrDB ∧
  (result (Up Toy.exec 7 (Toy.fresh "sqlite3") Toy.dir123 true) = None
   ↔ is_Some Toy.dir123 ∧ table_refused 7 (Toy.fresh "sqlite3") = false).
Proof.
  assert (lock_acquired 0 (Toy.fresh "sqlite3")) as H.
  { exists (mkLocker SQLiteLocker false), (mkLocker SQLiteLocker true),
      (with_lock_table (Toy.fresh "sqlite3") (Some true)).
    split; reflexivity. }
  split; [exact H|]. split; [vm_compute; reflexivity|].
  destruct (X9_the_dry_run_announces_the_real_run Toy.exec 0 7 (Toy.fresh "sqlite3")
              Toy.dir123 H) as [HUp _].
  exact HUp.
Defined.

(** The second 1735235560 and the name of the test of the creator. *)
Lemma X10_witness :
  file_version (up_file 1735235560 "create_users") = 1735235560 ∧
  migrationName (tl (parts_of (down_file 1735235560 "create_users"))) = "create_users".
Proof.
  destruct (X10_Load_reads_the_file_names_of_NewMigration 1735235560 "create_users")
    as [(_ & Hv & _) (_ & _ & _ & Hn)].
  - unfold Strconv.minInt64, Strconv.maxInt64. lia.
  - split; [exact Hv|exact Hn].
Defined.

(** A first migration in a directory that does not exist yet. *)
Lemma X11_witness :
  ∃ files',
    NewMigration willing 1735235560 None "create_users" = (Some files', None) ∧
    read_file (up_file 1735235560 "create_users") files' = Some (Some up_template) ∧
    read_file (down_file 1735235560 "create_users") files' = Some (Some down_template).
Proof.
  eexists. split; [vm_compute; reflexivity|].
  match goal with
  | |- read_file _ ?l = _ ∧ _ =>
      destruct (X11_NewMigration_writes_the_two_templates
                  willing 1735235560 None "create_users" l None)
        as (_ & Hok & _)
  end.
  - reflexivity.
  - vm_compute. reflexivity.
  - destruct (Hok eq_refl) as (_ & Hup & Hdown).
    split; [apply Hup|apply Hdown]; discriminate.
Defined.

(** A fourth migration beside the three of the test directory. *)
Lemma X12_witness :
  ∃ dir' ms,
    NewMigration willing 1735235560 Toy.dir123 "create_users" = (dir', None) ∧
    Load dir' = Some ms ∧
    mkMigration 1735235560 "create_users" up_template down_template ∈ ms.
Proof.
  eexists _, _. split; [vm_compute; reflexivity|]. split; [vm_compute; reflexivity|].
  match goal with
  | |- _ ∈ ?l =>
      destruct (X12_a_created_migration_is_loaded willing 1735235560 Toy.dir123
                  "create_users"
                  (fst (NewMigration willing 1735235560 Toy.dir123 "create_users")) l)
        as [Hin _]
  end.
  - unfold Strconv.minInt64, Strconv.maxInt64. lia.
  - reflexivity.
  - vm_compute. reflexivity.
  - repeat constructor; intros E; vm_compute in E; discriminate E.
  - vm_compute. reflexivity.
  - vm_compute. reflexivity.
  - exact Hin.
Defined.

(** The first migration of the test directory. *)
Lemma X13_witness :
  ∃ ms, Load Toy.dir123 = Some ms
        ∧ mkMigration 1 "create_users" "+users" "-users" ∈ ms.
Proof.
  apply (X13_Load_reads_the_naming_convention Samples.files123 "1" "create_users"
           "+users" "-users").
  - reflexivity.
  - vm_compute. reflexivity.
  - vm_compute. reflexivity.
Defined.

(** The ledger with 1, 2 and 3. *)
Lemma X14_witness :
  applied (store Toy.db_123) = inl ([1; 2] ++ [3]) ∧
  last (store Toy.db_123) = inl 3.
Proof.
  assert (applied (store Toy.db_123) = inl ([1; 2] ++ [3])) as H
    by (vm_compute; reflexivity).
  split; [exact H|].
  destruct (X14_last_is_the_end_of_applied (store Toy.db_123)) as [Hlast _].
  apply Hlast. exists [1; 2]. exact H.
Defined.

(** The name [x.up]. *)
Lemma X15_witness :
  ∃ dir' ms,
    NewMigration willing 1735235560 None "x.up" = (dir', None) ∧
    Load dir' = Some ms ∧
    mkMigration 1735235560 "x.up" up_template "" ∈ ms.
Proof.
  eexists _, _. split; [vm_compute; reflexivity|]. split; [vm_compute; reflexivity|].
  match goal with
  | |- _ ∈ ?l =>
      apply (X15_the_up_marker_in_a_name_loses_the_revert_script willing 1735235560
               None "x.up" (fst (NewMigration willing 1735235560 None "x.up")) l)
  end.
  - unfold Strconv.minInt64, Strconv.maxInt64. lia.
  - reflexivity.
  - vm_compute. reflexivity.
  - constructor.
  - vm_compute. reflexivity.
  - vm_compute. reflexivity.
Defined.
(** * Two calls of the creator in the same second *)

Section Collisions.
Import GoStrings Strconv.
Implicit Types (name n c : string) (files : list DirEntry) (f : DirEntry).

Lemma compare_flip a b : String.compare a b = Lt → String.compare b a = Gt.
Proof. intros H. rewrite String.compare_antisym, H. reflexivity. Qed.

Lemma overwrite_twice c (d : option string) :
  (λ _, c) <$> ((λ _ : string, c) <$> d) = (λ _, c) <$> d.
Proof. destruct d; reflexivity. Qed.

(** Writing the same file again changes nothing. *)
Lemma write_file_again n c files :
  write_file n c (write_file n c files) = write_file n c files.
Proof.
  induction files as [|f files IH]; cbn [write_file].
  - cbn [write_file fname fdata]. rewrite compare_refl_s. reflexivity.
  - destruct (String.compare n (fname f)) eqn:E; cbn [write_file fname fdata].
    + rewrite compare_refl_s, overwrite_twice. reflexivity.
    + rewrite compare_refl_s. reflexivity.
    + rewrite E, IH. reflexivity.
Qed.

(** Nor does writing the up file again once the down file is there. *)
Lemma write_up_again up uc down dc files :
  String.compare down up = Lt →
  write_file up uc (write_file down dc (write_file up uc files))
  = write_file down dc (write_file up uc files).
Proof.
  intros Hlt. pose proof (compare_flip _ _ Hlt) as Hgt.
  induction files as [|f files IH]; cbn [write_file].
  - cbn [write_file fname fdata]. rewrite Hlt. cbn [write_file fname fdata].
    rewrite Hgt. cbn [write_file fname fdata]. rewrite compare_refl_s. reflexivity.
  - destruct (String.compare up (fname f)) eqn:E; cbn [write_file fname fdata].
    + rewrite Hlt. cbn [write_file fname fdata]. rewrite Hgt.
      cbn [write_file fname fdata]. rewrite compare_refl_s, overwrite_twice.
      reflexivity.
    + rewrite Hlt. cbn [write_file fname fdata]. rewrite Hgt.
      cbn [write_file fname fdata]. rewrite compare_refl_s. reflexivity.
    + destruct (String.compare down (fname f)) eqn:E'; cbn [write_file fname fdata].
      * rewrite Hgt, write_file_again. reflexivity.
      * rewrite Hgt. cbn [write_file fname fdata]. rewrite E, write_file_again.
        reflexivity.
      * rewrite E, IH. reflexivity.
Qed.

Lemma write_pair_again up uc down dc files :
  String.compare down up = Lt →
  write_file down dc (write_file up uc (write_file down dc (write_file up uc files)))
  = write_file down dc (write_file up uc files).
Proof.
  intros Hlt. rewrite (write_up_again up uc down dc files Hlt).
  apply write_file_again.
Qed.

(** The versions [Load] returns are those of the readable SQL files. *)
Lemma elem_of_versions files v :
  v ∈ Version <$> load_files files ↔ files_of v files ≠ [].
Proof.
  rewrite list_elem_of_fmap. split.
  - intros (m & -> & Hm). apply elem_of_load_files in Hm.
    rewrite load_map_lookup in Hm. destruct (files_of (Version m) files);
      [discriminate|]. discriminate.
  - intros Hne. exists (merged v files). split; [reflexivity|].
    apply elem_of_load_files. cbn [merged Version]. rewrite load_map_lookup.
    destruct (files_of v files); [contradiction|reflexivity].
Qed.

(** A write removes no file from a selection that looks at the name and
    at whether the file can be read. *)
Lemma filter_write_keeps (q : DirEntry → bool) n c files :
  (∀ f, fname f = n → q (mkEntry n ((λ _, c) <$> fdata f)) = q f) →
  List.filter q files ≠ [] →
  List.filter q (write_file n c files) ≠ [].
Proof.
  intros Hq. induction files as [|f files IH]; [intros H; contradiction|].
  cbn [write_file List.filter]. destruct (String.compare n (fname f)) eqn:E.
  - apply compare_eq_s in E. cbn [List.filter]. rewrite Hq by auto.
    destruct (q f); [discriminate|auto].
  - cbn [List.filter]. destruct (q (mkEntry n (Some c))); [discriminate|auto].
  - cbn [List.filter]. destruct (q f); [discriminate|auto].
Qed.

Lemma files_of_write_keeps v n c files :
  files_of v files ≠ [] → files_of v (write_file n c files) ≠ [].
Proof.
  apply filter_write_keeps. intros f <-. unfold readable_sql. cbn [fname fdata].
  destruct (fdata f); reflexivity.
Qed.

(** X17.  Asked twice for the same name within one second, [NewMigration]
    writes the same two files again: when the first call succeeded, the
    second succeeds and leaves the directory as the first call left it,
    with two files and not four. *)
Theorem X17_the_same_name_in_the_same_second os now dir name dir1 :
  has_char "/"%char name = false →
  NewMigration os now dir name = (dir1, None) →
  NewMigration os now dir1 name = (dir1, None).
Proof.
  intros _ H. unfold NewMigration, WriteFile in *.
  destruct (MkdirAll os dir) as [dir0|] eqn:Hmk; [|discriminate].
  destruct (String.eqb name ""); [discriminate|].
  destruct (write_answer os (up_file now name)); cbn [negb] in *; try discriminate.
  destruct (write_answer os (down_file now name)); cbn [negb] in *; try discriminate.
  injection H as <-.
  assert (mkdir_refused os = false) as Hr.
  { unfold MkdirAll in Hmk. destruct (mkdir_refused os); [discriminate|reflexivity]. }
  destruct dir0 as [files0|].
  - unfold MkdirAll. rewrite Hr. cbn [fmap option_fmap option_map].
    rewrite write_pair_again by apply down_before_up. reflexivity.
  - unfold MkdirAll in *. rewrite Hr in *. cbn [fmap option_fmap option_map] in *.
    destruct dir; [discriminate|].
    destruct (unlisted_exists os); [reflexivity|discriminate].
Qed.

(** X18.  [NewMigration] does not look whether the version is taken.  In a
    directory where a readable SQL file already carries the version
    [now], the two files of a successful call join the migration of that
    version: [Load] returns the same versions as before, so no migration
    more than before. *)
Theorem X18_a_taken_version_gives_no_new_migration os now dir name dir' ms :
  minInt64 ≤ now ≤ maxInt64 →
  has_char "/"%char name = false →
  files_of now (default [] dir) ≠ [] →
  NewMigration os now dir name = (dir', None) →
  Load dir' = Some ms →
  Version <$> ms = Version <$> default [] (Load dir)
  ∧ length ms = length (default [] (Load dir)).
Proof.
  intros Hnow _ Htaken H Hload.
  apply NewMigration_success in H as (Hname & dir0 & Hmk & ->).
  destruct dir0 as [files0|]; [|discriminate].
  pose proof (MkdirAll_listing _ _ _ _ Hmk eq_refl) as ->.
  cbn [fmap option_fmap option_map Load] in Hload. injection Hload as <-.
  assert (default [] (Load dir) = load_files (default [] dir)) as ->.
  { destruct dir as [files|]; reflexivity. }
  set (files := default [] dir) in *.
  set (files' := write_file _ _ _).
  assert (Version <$> load_files files' = Version <$> load_files files) as Hv.
  { apply (StronglySorted_unique_strong Z.lt).
    - intros; lia.
    - apply load_files_ascending.
    - apply load_files_ascending.
    - apply NoDup_Permutation; [apply load_files_NoDup..|].
      intros v. rewrite !elem_of_versions. subst files'.
      destruct (Z.eq_dec v now) as [->|Hne].
      + split; [intros _; exact Htaken|intros _].
        apply files_of_write_keeps, files_of_write_keeps, Htaken.
      + unfold files_of. rewrite !filter_write_other; [reflexivity| |].
        * intros d. cbv beta. cbn [fname]. unfold up_file.
          rewrite (file_version_created now name ".up.sql" Hnow).
          destruct (Z.eqb_spec now v); [congruence|]. apply andb_false_r.
        * intros d. cbv beta. cbn [fname]. unfold down_file.
          rewrite (file_version_created now name ".down.sql" Hnow).
          destruct (Z.eqb_spec now v); [congruence|]. apply andb_false_r. }
  split; [exact Hv|].
  rewrite <- (length_fmap Version), Hv, length_fmap. reflexivity.
Qed.

End Collisions.

(** The concurrent test of the creator: three calls for one name within a
    second. *)
Lemma X17_witness :
  ∃ dir1,
    NewMigration willing 1735235560 None "concurrent_test" = (dir1, None) ∧
    NewMigration willing 1735235560 dir1 "concurrent_test" = (dir1, None) ∧
    length (default [] dir1) = 2%nat.
Proof.
  eexists. split; [vm_compute; reflexivity|].
  split; [|vm_compute; reflexivity].
  apply (X17_the_same_name_in_the_same_second willing 1735235560 None
           "concurrent_test").
  - reflexivity.
  - vm_compute. reflexivity.
Defined.

(** Two names within a second. *)
Lemma X18_witness :
  ∃ dir1 dir2 ms,
    NewMigration willing 1735235560 None "create_users" = (dir1, None) ∧
    NewMigration willing 1735235560 dir1 "add_posts" = (dir2, None) ∧
    Load dir2 = Some ms ∧ length ms = 1%nat.
Proof.
  eexists _, _, _. split; [vm_compute; reflexivity|].
  split; [vm_compute; reflexivity|]. split; [vm_compute; reflexivity|].
  match goal with
  | |- length ?l = _ =>
      destruct (X18_a_taken_version_gives_no_new_migration willing 1735235560
                  (fst (NewMigration willing 1735235560 None "create_users"))
                  "add_posts"
                  (fst (NewMigration willing 1735235560
                          (fst (NewMigration willing 1735235560 None "create_users"))
                          "add_posts")) l)
        as [_ Hlen]
  end.
  - unfold Strconv.minInt64, Strconv.maxInt64. lia.
  - reflexivity.
  - vm_compute. discriminate.
  - vm_compute. reflexivity.
  - vm_compute. reflexivity.
  - rewrite Hlen. vm_compute. reflexivity.
Defined.
